(** * agent-router: the agent SDK, the example agent and the pipeline simulation

    A shallow embedding of
      - agent-sdk/agent_sdk/types.py, client.py, base.py, local_tools.py,
        code_nav.py
      - agents/example/agent.py and agents/example/simulate_pipeline.py
    followed by the properties of the orchestration protocol that these
    files decide.

    Conventions.  A Python [str] is a [string]; a [UUID] and a [datetime]
    are kept in their text form (the SDK only forwards them); a Python [int]
    is a [Z].  A call that may raise returns a [Result]; code that talks to
    the server, draws a uuid, logs or sleeps runs in the monad [M] over a
    [World]. *)

From Stdlib Require Import ZArith List String Ascii Lia Bool.
From Stdlib Require OrderedTypeEx.
From stdpp Require Import base option list gmap strings sorting pretty.

Local Open Scope string_scope.
Local Open Scope list_scope.
Local Open Scope Z_scope.

(** ** Python runtime: exceptions and results *)

Module Py.

(** The exception classes that occur in the modelled code, with the part
    of the class hierarchy that [except] clauses look at. *)
Inductive ExcClass :=
| BaseException_
| Exception_
| KeyboardInterrupt_
| SystemExit_
| ValueError_            (* Enum(value) on an unknown value *)
| ValidationError_       (* pydantic: a ValueError subclass *)
| RuntimeError_          (* httpx: request on a closed client *)
| RecursionError_        (* a RuntimeError subclass *)
| LookupError_           (* KeyError and IndexError *)
| TypeError_
| AttributeError_
| OSError_
| FileNotFoundError_
| FileExistsError_
| IsADirectoryError_
| NotADirectoryError_
| PermissionError_
| HTTPError_             (* httpx.HTTPError *)
| HTTPStatusError_       (* httpx.HTTPStatusError, from raise_for_status *)
| TransportError_        (* httpx.TransportError: connect, timeout, ... *)
| TimeoutExpired_.       (* subprocess.TimeoutExpired *)

#[global] Instance ExcClass_eq_dec : EqDecision ExcClass.
Proof. solve_decision. Defined.

(** Direct base class. *)
Definition base (c : ExcClass) : option ExcClass :=
  match c with
  | BaseException_ => None
  | Exception_ | KeyboardInterrupt_ | SystemExit_ => Some BaseException_
  | ValueError_ | RuntimeError_ | LookupError_ | TypeError_ | AttributeError_
  | OSError_
  | HTTPError_ | TimeoutExpired_ => Some Exception_
  | ValidationError_ => Some ValueError_
  | RecursionError_ => Some RuntimeError_
  | FileNotFoundError_ | FileExistsError_ | IsADirectoryError_
  | NotADirectoryError_ | PermissionError_ => Some OSError_
  | HTTPStatusError_ | TransportError_ => Some HTTPError_
  end.

(** [issubclass c d], by walking the (short) chain of bases. *)
Fixpoint issubclass_fuel (n : nat) (c d : ExcClass) : bool :=
  if decide (c = d) then true
  else match n with
       | O => false
       | S n' => match base c with
                 | Some b => issubclass_fuel n' b d
                 | None => false
                 end
       end.

Definition issubclass (c d : ExcClass) : bool := issubclass_fuel 4 c d.

(** A raised exception: its class and its message. *)
Record Exc := mkExc { exc_class : ExcClass; exc_msg : string }.

#[global] Instance Exc_eq_dec : EqDecision Exc.
Proof. solve_decision. Defined.

Definition isinstance (e : Exc) (d : ExcClass) : bool :=
  issubclass (exc_class e) d.

Inductive Result (A : Type) :=
| Ok (a : A)
| Raise (e : Exc).
Arguments Ok {A} a.
Arguments Raise {A} e.

Definition is_ok {A} (r : Result A) : bool :=
  match r with Ok _ => true | Raise _ => false end.

Definition rbind {A B} (r : Result A) (k : A -> Result B) : Result B :=
  match r with
  | Ok a => k a
  | Raise e => Raise e
  end.

(** [[f x for x in l]]: the first element that raises ends the loop. *)
Fixpoint traverse {A B} (f : A -> Result B) (l : list A) : Result (list B) :=
  match l with
  | [] => Ok []
  | x :: xs =>
      match f x with
      | Ok y => match traverse f xs with
                | Ok ys => Ok (y :: ys)
                | Raise e => Raise e
                end
      | Raise e => Raise e
      end
  end.

End Py.
Export Py.

Notation "x <-r m ; k" := (rbind m (fun x => k))
  (at level 100, m at next level, right associativity, only parsing).

(** ** JSON values, as [resp.json()] returns them and [json=...] sends them *)

Module Json.

#[warnings="-register-all"] Inductive Json :=
| JNull
| JBool (b : bool)
| JNum (n : Z)
| JStr (s : string)
| JArr (items : list Json)
| JObj (fields : list (string * Json)).

(** A JSON object is a [dict]: [d[k]], with [None] for a missing key. *)
Fixpoint get (d : list (string * Json)) (k : string) : option Json :=
  match d with
  | [] => None
  | (k', v) :: d' => if String.eqb k' k then Some v else get d' k
  end.

(** Truth value of the Python object that a JSON value decodes to. *)
Definition truthy (j : Json) : bool :=
  match j with
  | JNull => false
  | JBool b => b
  | JNum n => negb (n =? 0)
  | JStr s => negb (String.eqb s "")
  | JArr items => match items with [] => false | _ => true end
  | JObj fields => match fields with [] => false | _ => true end
  end.

(** [for x in j]: what iterating over the decoded value yields: the items
    of a list, the keys of a dict (a decoded object has each key once),
    the characters of a str; the other values are not iterable. *)
Definition iter (j : Json) : Result (list Json) :=
  match j with
  | JArr items => Ok items
  | JObj fields => Ok (map (fun kv => JStr (fst kv)) fields)
  | JStr s => Ok (map (fun c => JStr (String c EmptyString)) (list_ascii_of_string s))
  | _ => Raise (mkExc TypeError_ "object is not iterable")
  end.

End Json.
Export Json.

(** ** agent_sdk/types.py *)

Module Types.

Definition UUID := string.
Definition datetime := string.

Inductive TaskStatus := BACKLOG | READY | IN_PROGRESS | IN_REVIEW | DONE.

Inductive Priority := CRITICAL | HIGH | MEDIUM | LOW.

Inductive BranchType := FEATURE | FIX | REFACTOR.

Inductive PostType :=
| PROGRESS | BLOCKER | HELP_WANTED | DECISION | ARTIFACT | REVIEW_REQ | COMMENT.

#[global] Instance TaskStatus_eq_dec : EqDecision TaskStatus.
Proof. solve_decision. Defined.
#[global] Instance Priority_eq_dec : EqDecision Priority.
Proof. solve_decision. Defined.
#[global] Instance BranchType_eq_dec : EqDecision BranchType.
Proof. solve_decision. Defined.
#[global] Instance PostType_eq_dec : EqDecision PostType.
Proof. solve_decision. Defined.

(** A [str, Enum] class: its members in definition order, the [.value] of
    a member, and the lookup by value that [Cls(value)] performs. *)
Class StrEnum (E : Type) := {
  members : list E;
  value : E -> string;
}.

Definition of_value `{StrEnum E} (v : string) : option E :=
  List.find (fun m => String.eqb (value m) v) members.

#[global] Instance TaskStatus_enum : StrEnum TaskStatus := {|
  members := [BACKLOG; READY; IN_PROGRESS; IN_REVIEW; DONE];
  value s := match s with
             | BACKLOG => "backlog"
             | READY => "ready"
             | IN_PROGRESS => "in_progress"
             | IN_REVIEW => "in_review"
             | DONE => "done"
             end;
|}.

#[global] Instance Priority_enum : StrEnum Priority := {|
  members := [CRITICAL; HIGH; MEDIUM; LOW];
  value p := match p with
             | CRITICAL => "critical"
             | HIGH => "high"
             | MEDIUM => "medium"
             | LOW => "low"
             end;
|}.

#[global] Instance BranchType_enum : StrEnum BranchType := {|
  members := [FEATURE; FIX; REFACTOR];
  value b := match b with
             | FEATURE => "feature"
             | FIX => "fix"
             | REFACTOR => "refactor"
             end;
|}.

#[global] Instance PostType_enum : StrEnum PostType := {|
  members := [PROGRESS; BLOCKER; HELP_WANTED; DECISION; ARTIFACT; REVIEW_REQ; COMMENT];
  value p := match p with
             | PROGRESS => "progress"
             | BLOCKER => "blocker"
             | HELP_WANTED => "help_wanted"
             | DECISION => "decision"
             | ARTIFACT => "artifact"
             | REVIEW_REQ => "review_req"
             | COMMENT => "comment"
             end;
|}.

(** The set of values of an enum class: what a field of that type may hold
    on the wire. *)
Definition values (E : Type) `{StrEnum E} : list string := map value members.

Record Task := mkTask {
  task_id : UUID;
  task_project_id : UUID;
  title : string;
  description : string;
  status : TaskStatus;
  priority : Priority;
  assigned_agent_id : option UUID;
  parent_task_id : option UUID;
  branch_type : BranchType;
  branch_name : string;
  labels : list string;
  created_by : string;
  task_created_at : datetime;
  updated_at : datetime;
  started_at : option datetime;
  completed_at : option datetime;
}.

Record Thread := mkThread {
  thread_id_ : UUID;
  thread_project_id : UUID;
  thread_task_id : option UUID;
  thread_type : string;
  thread_name : string;
  thread_created_at : datetime;
}.

Record Message := mkMessage {
  message_id : UUID;
  message_thread_id : UUID;
  message_agent_id : option UUID;
  post_type : PostType;
  content : string;
  metadata : list (string * Json);
  message_created_at : datetime;
}.

Record Agent := mkAgent {
  agent_id_ : UUID;
  agent_project_id : UUID;
  role : string;
  agent_name : string;
  skills : list string;
  model : string;
  agent_status : string;
  current_task_id : option UUID;
  agent_created_at : datetime;
}.

Record PR := mkPR {
  pr_id : Z;
  pr_url : string;
  pr_number : Z;
  pr_head : string;
  pr_base : string;
  pr_title : string;
  pr_body : string;
}.

(** *** Model construction from the keyword dictionary [d] of a response

    pydantic validates every declared field of the keyword dictionary and
    raises [ValidationError] when a required one is missing or has the
    wrong type; keys that are not declared are ignored.  The text of a
    UUID or of a datetime is not inspected here. *)

Definition invalid {A} (field : string) : Result A :=
  Raise (mkExc ValidationError_ field).

Definition req_str (d : list (string * Json)) (k : string) : Result string :=
  match get d k with
  | Some (JStr s) => Ok s
  | _ => invalid k
  end.

Definition opt_str (d : list (string * Json)) (k : string) : Result (option string) :=
  match get d k with
  | None | Some JNull => Ok None
  | Some (JStr s) => Ok (Some s)
  | _ => invalid k
  end.

Definition req_int (d : list (string * Json)) (k : string) : Result Z :=
  match get d k with
  | Some (JNum n) => Ok n
  | _ => invalid k
  end.

Definition req_enum `{StrEnum E} (d : list (string * Json)) (k : string) : Result E :=
  match get d k with
  | Some (JStr s) => match of_value s with
                     | Some m => Ok m
                     | None => invalid k
                     end
  | _ => invalid k
  end.

Fixpoint all_str (items : list Json) : option (list string) :=
  match items with
  | [] => Some []
  | JStr s :: rest => match all_str rest with
                      | Some l => Some (s :: l)
                      | None => None
                      end
  | _ :: _ => None
  end.

(** [list[str] = Field(default_factory=list)] *)
Definition str_list (d : list (string * Json)) (k : string) : Result (list string) :=
  match get d k with
  | None => Ok []
  | Some (JArr items) => match all_str items with
                         | Some l => Ok l
                         | None => invalid k
                         end
  | _ => invalid k
  end.

(** [dict = Field(default_factory=dict)] *)
Definition dict_field (d : list (string * Json)) (k : string)
  : Result (list (string * Json)) :=
  match get d k with
  | None => Ok []
  | Some (JObj f) => Ok f
  | _ => invalid k
  end.

Definition kwargs (j : Json) : Result (list (string * Json)) :=
  match j with
  | JObj d => Ok d
  | _ => Raise (mkExc TypeError_ "argument after ** must be a mapping")
  end.

Definition Task_of_json (j : Json) : Result Task :=
  d <-r kwargs j;
  id <-r req_str d "id";
  project_id <-r req_str d "project_id";
  title <-r req_str d "title";
  description <-r req_str d "description";
  status <-r req_enum d "status";
  priority <-r req_enum d "priority";
  assigned_agent_id <-r opt_str d "assigned_agent_id";
  parent_task_id <-r opt_str d "parent_task_id";
  branch_type <-r req_enum d "branch_type";
  branch_name <-r req_str d "branch_name";
  labels <-r str_list d "labels";
  created_by <-r req_str d "created_by";
  created_at <-r req_str d "created_at";
  updated_at <-r req_str d "updated_at";
  started_at <-r opt_str d "started_at";
  completed_at <-r opt_str d "completed_at";
  Ok (mkTask id project_id title description status priority assigned_agent_id
        parent_task_id branch_type branch_name labels created_by created_at
        updated_at started_at completed_at).

Definition Message_of_json (j : Json) : Result Message :=
  d <-r kwargs j;
  id <-r req_str d "id";
  thread_id <-r req_str d "thread_id";
  agent_id <-r opt_str d "agent_id";
  post_type <-r req_enum d "post_type";
  content <-r req_str d "content";
  metadata <-r dict_field d "metadata";
  created_at <-r req_str d "created_at";
  Ok (mkMessage id thread_id agent_id post_type content metadata created_at).

Definition Agent_of_json (j : Json) : Result Agent :=
  d <-r kwargs j;
  id <-r req_str d "id";
  project_id <-r req_str d "project_id";
  role <-r req_str d "role";
  name <-r req_str d "name";
  skills <-r str_list d "skills";
  model <-r req_str d "model";
  status <-r req_str d "status";
  current_task_id <-r opt_str d "current_task_id";
  created_at <-r req_str d "created_at";
  Ok (mkAgent id project_id role name skills model status current_task_id created_at).

Definition PR_of_json (j : Json) : Result PR :=
  d <-r kwargs j;
  id <-r req_int d "id";
  url <-r req_str d "url";
  number <-r req_int d "number";
  head <-r req_str d "head";
  base <-r req_str d "base";
  title <-r req_str d "title";
  body <-r req_str d "body";
  Ok (mkPR id url number head base title body).

End Types.
Export Types.

(** ** The file system and Python's text I/O, as [local_tools.py] and
    [code_nav.py] use them

    A path is the list of its parts below the root ([pathlib]'s [parts]);
    a relative path is joined to the working directory with [/].  Symbolic
    links and [..] are outside this model.  A file holds the text that was
    written to it after newline translation; the codec of the platform is
    not modelled, so the model speaks about text that the codec can
    represent. *)

Module Fs.

Definition Path := list string.

(** [p / q] for a relative [q], [p.parent], [p.name] *)
Definition joinpath (p q : Path) : Path := p ++ q.
Definition parent (p : Path) : Path := removelast p.
Definition name (p : Path) : string := List.last p "".

Inductive Node :=
| File (data : string)
| Dir (listable : bool).

Abbreviation FS := (gmap Path Node).

(** The root always exists and is a directory. *)
Definition node (fs : FS) (p : Path) : option Node :=
  match p with
  | [] => Some (Dir true)
  | _ => fs !! p
  end.

Definition is_dir (fs : FS) (p : Path) : bool :=
  match node fs p with
  | Some (Dir _) => true
  | _ => false
  end.

Definition oserror {A} (c : ExcClass) (p : Path) : Result A :=
  Raise (mkExc c (String.concat "/" p)).

(** [path.iterdir()]: the entries [path / name] of a directory, in the
    order the system yields them. *)
Definition children (fs : FS) (p : Path) : list Path :=
  filter (fun q => q ≠ [] ∧ parent q = p) (map fst (map_to_list fs)).

Definition iterdir (fs : FS) (p : Path) : Result (list Path) :=
  match node fs p with
  | None => oserror FileNotFoundError_ p
  | Some (File _) => oserror NotADirectoryError_ p
  | Some (Dir false) => oserror PermissionError_ p
  | Some (Dir true) => Ok (children fs p)
  end.

(** What a directory walker sees of a file system.  The entries of a
    directory form a finite list; nothing else is assumed, so a view may
    be arbitrarily deep (as with a link to an ancestor). *)
Record DirView := mkDirView {
  dv_iterdir : Path -> Result (list Path);
  dv_is_dir : Path -> bool;
}.

Definition view (fs : FS) : DirView :=
  {| dv_iterdir := iterdir fs; dv_is_dir := is_dir fs |}.

(** [mkdir(parents=True, exist_ok=True)]: every missing prefix of the path
    is created; a prefix that exists as a file is an error. *)
Fixpoint mkdir_from (fs : FS) (done : Path) (todo : list string) : FS * Result unit :=
  match todo with
  | [] => (fs, Ok tt)
  | n :: rest =>
      let p := done ++ [n] in
      match node fs p with
      | Some (Dir _) => mkdir_from fs p rest
      | None => mkdir_from (<[p := Dir true]> fs) p rest
      | Some (File _) =>
          (fs, oserror (match rest with
                        | [] => FileExistsError_
                        | _ => NotADirectoryError_
                        end) p)
      end
  end.

Definition mkdir_parents (fs : FS) (p : Path) : FS * Result unit :=
  mkdir_from fs [] p.

(** *** Text mode, [newline=None] *)

Inductive Platform := Posix | Windows.

Definition CR : ascii := ascii_of_nat 13.
Definition LF : ascii := ascii_of_nat 10.

(** [os.linesep] *)
Definition linesep (pf : Platform) : string :=
  match pf with
  | Posix => String LF ""
  | Windows => String CR (String LF "")
  end.

(** On output every ["\n"] becomes [os.linesep]. *)
Fixpoint translate_out (pf : Platform) (s : string) : string :=
  match s with
  | EmptyString => EmptyString
  | String c s' =>
      if Ascii.eqb c LF then String.append (linesep pf) (translate_out pf s')
      else String c (translate_out pf s')
  end.

(** On input (universal newlines) ["\r\n"] and a lone ["\r"] become ["\n"]. *)
Fixpoint translate_in (s : string) : string :=
  match s with
  | EmptyString => EmptyString
  | String c s' =>
      if Ascii.eqb c CR then
        String LF (match s' with
                   | String c2 s'' =>
                       if Ascii.eqb c2 LF then translate_in s'' else translate_in s'
                   | EmptyString => EmptyString
                   end)
      else String c (translate_in s')
  end.

(** [f.readlines()]: the lines of the text, each with its ["\n"]. *)
Fixpoint readlines (s : string) : list string :=
  match s with
  | EmptyString => []
  | String c s' =>
      if Ascii.eqb c LF then String c EmptyString :: readlines s'
      else match readlines s' with
           | [] => [String c EmptyString]
           | l :: ls => String c l :: ls
           end
  end.

(** ["".join(lines)] *)
Definition join_lines (lines : list string) : string :=
  fold_right String.append EmptyString lines.

(** [l[start:stop]] with Python's treatment of negative and out-of-range
    bounds. *)
Definition slice_index (len i : Z) : Z :=
  if i <? 0 then Z.max 0 (i + len) else Z.min i len.

Definition slice {A} (l : list A) (start stop : Z) : list A :=
  let len := Z.of_nat (length l) in
  let a := slice_index len start in
  let b := slice_index len stop in
  take (Z.to_nat (b - a)) (drop (Z.to_nat a) l).

(** [open(p)] followed by reading the whole text. *)
Definition open_read (fs : FS) (p : Path) : Result string :=
  match node fs p with
  | None => oserror FileNotFoundError_ p
  | Some (Dir _) => oserror IsADirectoryError_ p
  | Some (File data) => Ok (translate_in data)
  end.

(** [open(p, "w")] followed by [f.write(content)]. *)
Definition open_write (pf : Platform) (fs : FS) (p : Path) (content : string)
  : FS * Result unit :=
  match node fs p with
  | Some (Dir _) => (fs, oserror IsADirectoryError_ p)
  | _ =>
      match node fs (parent p) with
      | Some (Dir _) => (<[p := File (translate_out pf content)]> fs, Ok tt)
      | Some (File _) => (fs, oserror NotADirectoryError_ p)
      | None => (fs, oserror FileNotFoundError_ p)
      end
  end.

End Fs.
Export Fs.

(** ** The [str] methods that [code_nav.py] uses

    A character stands for the code point of the same number (0 to 255). *)

Module Text.

(** [c.isspace()] *)
Definition is_space (c : ascii) : bool :=
  let n := nat_of_ascii c in
  ((9 <=? n) && (n <=? 13) || (28 <=? n) && (n <=? 32) || (n =? 133) || (n =? 160))%nat.

(** [s.rstrip()], [s.lstrip()], [s.strip()] *)
Fixpoint rstrip (s : string) : string :=
  match s with
  | EmptyString => EmptyString
  | String c s' =>
      match rstrip s' with
      | EmptyString => if is_space c then EmptyString else String c EmptyString
      | r => String c r
      end
  end.

Fixpoint lstrip (s : string) : string :=
  match s with
  | EmptyString => EmptyString
  | String c s' => if is_space c then lstrip s' else s
  end.

Definition strip (s : string) : string := lstrip (rstrip s).

(** [s.split("\n")]: the pieces between line feeds; never empty. *)
Fixpoint split_lines (s : string) : list string :=
  match s with
  | EmptyString => [EmptyString]
  | String c s' =>
      if Ascii.eqb c LF then EmptyString :: split_lines s'
      else match split_lines s' with
           | l :: ls => String c l :: ls
           | [] => [String c EmptyString]
           end
  end.

Fixpoint spaces (n : nat) : string :=
  match n with
  | O => EmptyString
  | S n' => String " " (spaces n')
  end.

(** The format [{x:>width}] *)
Definition rjust (width : nat) (s : string) : string :=
  spaces (width - String.length s) +:+ s.

(** [enumerate(l, start)] *)
Fixpoint enumerate {A} (start : Z) (l : list A) : list (Z * A) :=
  match l with
  | [] => []
  | x :: xs => (start, x) :: enumerate (start + 1) xs
  end.

(** The format [{i:>6}|{line.rstrip()}] *)
Definition numbered (il : Z * string) : string :=
  rjust 6 (pretty (fst il)) +:+ "|" +:+ rstrip (snd il).

End Text.
Export Text.

(** ** The world an agent process runs in *)

Module Http.

Inductive Method := GET | POST | PATCH.

Record Request := mkRequest {
  method : Method;
  url : string;
  params : list (string * string);
  json : option Json;
  headers : list (string * string);
}.

Record Response := mkResponse {
  status_code : Z;
  body : Json;
}.

(** What the transport gives back: a response, or an [httpx.TransportError]
    (connection refused, timeout, ...). *)
Inductive Reply :=
| Responds (r : Response)
| Fails (msg : string).

(** [resp.raise_for_status()]: only a 2xx response passes. *)
Definition raise_for_status (r : Response) : Result unit :=
  if (200 <=? status_code r) && (status_code r <=? 299) then Ok tt
  else Raise (mkExc HTTPStatusError_ "error response").

Definition header (req : Request) (k : string) : option string :=
  snd <$> List.find (fun kv => String.eqb (fst kv) k) (headers req).

End Http.
Export Http.

Module Env.

Inductive Level := INFO | WARNING | ERROR.

Inductive ShellOutcome :=
| Completed (stdout stderr : string) (returncode : Z) (fs' : FS)
| TimedOut (fs' : FS).

(** What the process did, in order. *)
Inductive Event :=
| EHttp (req : Request) (rep : Reply)
| ESleep (millis : Z)
| ELog (level : Level) (msg : string)
| EClose
| EThreadStart (target : string)
| EShell (cmd : string) (timeout : Z)
| EToolCall (session : string) (tool : string) (args : list (string * Json))
| EPrint (line : string)
| EPass (msg : string)
| EFail (msg detail : string).

Record World := mkWorld {
  trace : list Event;
  drawn : nat;            (* number of uuid4() calls so far *)
  http_closed : bool;     (* AgentMeshClient._http has been closed *)
  running : bool;         (* BaseAgent._running *)
  fs : FS;
}.

(** Everything outside the process.  Each oracle sees the world so far, so
    it stands for any server, generator, shell and scheduler. *)
Record Env := mkEnv {
  server : World -> Request -> Reply;
  uuid_source : nat -> UUID;                       (* the n-th uuid4() *)
  shell : World -> Path -> string -> Z -> ShellOutcome;
  interleave : World -> World;                     (* steps of other threads *)
  mcp : World -> string -> string -> list (string * Json) -> string;
  json_loads : string -> Result Json;
  platform : Platform;
}.

Definition M (A : Type) : Type := Env -> World -> World * Result A.

Definition ret {A} (a : A) : M A := fun _ w => (w, Ok a).

Definition raise {A} (e : Exc) : M A := fun _ w => (w, Raise e).

Definition bind {A B} (m : M A) (k : A -> M B) : M B :=
  fun env w =>
    match m env w with
    | (w', Ok a) => k a env w'
    | (w', Raise e) => (w', Raise e)
    end.

Definition lift {A} (r : Result A) : M A := fun _ w => (w, r).

(** [try: m  except C as e: h e] *)
Definition try_except {A} (m : M A) (C : ExcClass) (h : Exc -> M A) : M A :=
  fun env w =>
    match m env w with
    | (w', Ok a) => (w', Ok a)
    | (w', Raise e) => if isinstance e C then h e env w' else (w', Raise e)
    end.

(** [try: m  finally: f] *)
Definition try_finally {A} (m : M A) (f : M unit) : M A :=
  fun env w =>
    match m env w with
    | (w', r) =>
        match f env w' with
        | (w'', Ok _) => (w'', r)
        | (w'', Raise e) => (w'', Raise e)
        end
    end.

Definition emit (e : Event) : M unit :=
  fun _ w => (mkWorld (trace w ++ [e]) (drawn w) (http_closed w) (running w) (fs w), Ok tt).

Definition set_running (b : bool) : M unit :=
  fun _ w => (mkWorld (trace w) (drawn w) (http_closed w) b (fs w), Ok tt).

Definition get_running : M bool := fun _ w => (w, Ok (running w)).

Definition set_fs (fs' : FS) : M unit :=
  fun _ w => (mkWorld (trace w) (drawn w) (http_closed w) (running w) fs', Ok tt).

Definition get_fs : M FS := fun _ w => (w, Ok (fs w)).

Definition get_platform : M Platform := fun env w => (w, Ok (platform env)).

(** Other threads run: they may have written the shared state; the trace
    is the trace of this thread. *)
Definition yield : M unit :=
  fun env w =>
    let w' := interleave env w in
    (mkWorld (trace w) (drawn w') (http_closed w') (running w') (fs w'), Ok tt).

(** [uuid4()] *)
Definition uuid4 : M UUID :=
  fun env w =>
    (mkWorld (trace w) (S (drawn w)) (http_closed w) (running w) (fs w),
     Ok (uuid_source env (drawn w))).

(** [time.sleep(seconds)]; the trace keeps durations in milliseconds, so
    that the fractions of a second of the simulation fit. *)
Definition sleep (seconds : Z) : M unit := emit (ESleep (1000 * seconds)).
Definition sleep_ms (millis : Z) : M unit := emit (ESleep millis).

(** [logger.info], [logger.warning], [logger.error] *)
Definition log (level : Level) (msg : string) : M unit := emit (ELog level msg).

(** A request handed to the transport. *)
Definition request (req : Request) : M Response :=
  fun env w =>
    let rep := server env w req in
    let w' := mkWorld (trace w ++ [EHttp req rep]) (drawn w) (http_closed w)
                (running w) (fs w) in
    match rep with
    | Responds r => (w', Ok r)
    | Fails msg => (w', Raise (mkExc TransportError_ msg))
    end.

(** [self._http.request(...)] on the SDK's [httpx.Client], which refuses
    to send once it has been closed. *)
Definition send (req : Request) : M Response :=
  fun env w =>
    if http_closed w then
      (w, Raise (mkExc RuntimeError_
                   "Cannot send a request, as the client has been closed."))
    else request req env w.

(** [self._http.close()] *)
Definition http_close : M unit :=
  fun _ w => (mkWorld (trace w ++ [EClose]) (drawn w) true (running w) (fs w), Ok tt).

End Env.
Export Env.

Notation "x <- m ;; k" := (bind m (fun x => k))
  (at level 100, m at next level, right associativity, only parsing).
Notation "m ;;; k" := (bind m (fun _ => k))
  (at level 100, right associativity, only parsing).

(** ** Loops and handlers of the scripts *)

Module Control.

(** [try: m  except C1: h1  except C2 as e: h2 e]: the first clause that
    matches handles the exception. *)
Definition try_except2 {A} (m : M A) (C1 : ExcClass) (h1 : Exc -> M A)
  (C2 : ExcClass) (h2 : Exc -> M A) : M A :=
  fun env w =>
    match m env w with
    | (w', Ok a) => (w', Ok a)
    | (w', Raise e) =>
        if isinstance e C1 then h1 e env w'
        else if isinstance e C2 then h2 e env w'
        else (w', Raise e)
    end.

(** [for x in xs: body x] *)
Fixpoint for_M {A} (xs : list A) (body : A -> M unit) : M unit :=
  match xs with
  | [] => ret tt
  | x :: rest => body x;;; for_M rest body
  end.

End Control.
Export Control.

(** ** agent_sdk/client.py *)

Module AgentMeshClient.

Definition IDEMPOTENCY_HEADER : string := "X-Idempotency-Key".

Definition register (project_id : UUID) (role name model : string) (skills : list string)
  : M Agent :=
  resp <- send (mkRequest POST "/api/agents/register" []
                  (Some (JObj [("project_id", JStr project_id);
                               ("role", JStr role);
                               ("name", JStr name);
                               ("model", JStr model);
                               ("skills", JArr (map JStr skills))])) []);;
  lift (raise_for_status resp);;;
  lift (Agent_of_json (body resp)).

Definition heartbeat (agent_id : UUID) : M unit :=
  resp <- send (mkRequest POST ("/api/agents/" +:+ agent_id +:+ "/heartbeat") [] None []);;
  lift (raise_for_status resp).

(** [[Task( **t) for t in resp.json()]] *)
Definition tasks_of_json (j : Json) : Result (list Task) :=
  items <-r iter j;
  traverse Task_of_json items.

Definition list_tasks (project_id : UUID) (status : option TaskStatus)
  (assigned_to : option UUID) : M (list Task) :=
  let params := [("project_id", project_id)] in
  let params := match status with
                | Some s => params ++ [("status", value s)]
                | None => params
                end in
  let params := match assigned_to with
                | Some a => params ++ [("assigned_to", a)]
                | None => params
                end in
  resp <- send (mkRequest GET "/api/tasks/" params None []);;
  lift (raise_for_status resp);;;
  lift (tasks_of_json (body resp)).

Definition get_task (task_id : UUID) : M Task :=
  resp <- send (mkRequest GET ("/api/tasks/" +:+ task_id) [] None []);;
  lift (raise_for_status resp);;;
  lift (Task_of_json (body resp)).

(** The method is declared [-> None]: its value is [tt]. *)
Definition update_task_status (task_id : UUID) (from_status to_status : TaskStatus)
  : M unit :=
  key <- uuid4;;
  resp <- send (mkRequest PATCH ("/api/tasks/" +:+ task_id) []
                  (Some (JObj [("status_from", JStr (value from_status));
                               ("status_to", JStr (value to_status))]))
                  [(IDEMPOTENCY_HEADER, key)]);;
  lift (raise_for_status resp).

(** [[Message( **m) for m in resp.json()]] *)
Definition messages_of_json (j : Json) : Result (list Message) :=
  items <-r iter j;
  traverse Message_of_json items.

Definition list_messages (thread_id : UUID) : M (list Message) :=
  resp <- send (mkRequest GET ("/api/threads/" +:+ thread_id +:+ "/messages") [] None []);;
  lift (raise_for_status resp);;;
  lift (messages_of_json (body resp)).

Definition post_message (thread_id agent_id : UUID) (post_type : PostType)
  (content : string) : M Message :=
  key <- uuid4;;
  resp <- send (mkRequest POST ("/api/threads/" +:+ thread_id +:+ "/messages") []
                  (Some (JObj [("agent_id", JStr agent_id);
                               ("post_type", JStr (value post_type));
                               ("content", JStr content)]))
                  [(IDEMPOTENCY_HEADER, key)]);;
  lift (raise_for_status resp);;;
  lift (Message_of_json (body resp)).

Definition open_pr (title body_ head base : string) : M PR :=
  key <- uuid4;;
  resp <- send (mkRequest POST "/api/git/pr" []
                  (Some (JObj [("title", JStr title); ("body", JStr body_);
                               ("head", JStr head); ("base", JStr base)]))
                  [(IDEMPOTENCY_HEADER, key)]);;
  lift (raise_for_status resp);;;
  lift (PR_of_json (body resp)).

Definition close : M unit := http_close.

End AgentMeshClient.

(** ** agent_sdk/base.py *)

Module BaseAgent.

Record BaseAgent := mkBaseAgent {
  project_id : UUID;
  agent : Agent;
  agent_id : UUID;
  _heartbeat_interval : Z;
}.

(** [__init__]: registers with the server; [_running] starts as [False]. *)
Definition init (project_id : UUID) (role name model : string) (skills : list string)
  : M BaseAgent :=
  a <- AgentMeshClient.register project_id role name model skills;;
  set_running false;;;
  ret (mkBaseAgent project_id a (agent_id_ a) 30).

(** A concrete agent: a subclass that overrides the abstract [run]. *)
Class AgentImpl (T : Type) := {
  base : T -> BaseAgent;
  run : T -> M unit;
}.

Definition stop (self : BaseAgent) : M unit :=
  set_running false;;;
  AgentMeshClient.close;;;
  log INFO ("Agent " +:+ agent_name (agent self) +:+ " stopped").

Definition start `{AgentImpl T} (self : T) : M unit :=
  set_running true;;;
  emit (EThreadStart "_heartbeat_loop");;;
  log INFO ("Agent " +:+ agent_name (agent (base self)) +:+ " ("
            +:+ agent_id (base self) +:+ ") started");;;
  try_finally (run self) (stop (base self)).

(** The loop of the heartbeat thread.  [fuel] bounds the number of
    iterations that are observed: [None] means that the loop is still
    going after [fuel] iterations, [Some tt] that it has returned.  The
    other threads (the one that runs [start] and [stop]) may step wherever
    this one can be preempted. *)
Fixpoint _heartbeat_loop (fuel : nat) (self : BaseAgent) : M (option unit) :=
  match fuel with
  | O => ret None
  | S fuel' =>
      yield;;;
      r <- get_running;;
      if r : bool then
        yield;;;
        try_except (AgentMeshClient.heartbeat (agent_id self)) Exception_
          (fun e => log WARNING ("Heartbeat failed: " +:+ exc_msg e));;;
        sleep (_heartbeat_interval self);;;
        _heartbeat_loop fuel' self
      else ret (Some tt)
  end.

(** [post_type] defaults to [PostType.PROGRESS] in the source. *)
Definition post_update (self : BaseAgent) (thread_id : UUID) (content : string)
  (post_type : PostType) : M Message :=
  AgentMeshClient.post_message thread_id (agent_id self) post_type content.

End BaseAgent.
Export BaseAgent.

(** ** agent_sdk/local_tools.py *)

Module LocalTools.

Record LocalTools := mkLocalTools { working_dir : Path }.

(** [for x in xs: body], where the body may raise and [None] means that
    the body did not finish within its fuel. *)
Fixpoint for_each {A S} (xs : list A) (s : S)
  (body : A -> S -> option (S * Result unit)) : option (S * Result unit) :=
  match xs with
  | [] => Some (s, Ok tt)
  | x :: rest =>
      match body x s with
      | Some (s', Ok _) => for_each rest s' body
      | other => other
      end
  end.

(** [sorted(..., key=lambda e: (not e.is_dir(), e.name))] *)
Definition sort_key (dv : DirView) (e : Path) : bool * string :=
  (negb (dv_is_dir dv e), name e).

Definition key_le (k1 k2 : bool * string) : bool :=
  if Bool.eqb (fst k1) (fst k2) then String.leb (snd k1) (snd k2)
  else negb (fst k1).

Definition sorted_entries (dv : DirView) (entries : list Path) : list Path :=
  merge_sort (fun a b => Is_true (key_le (sort_key dv a) (sort_key dv b))) entries.

(** [run_shell(cmd, timeout=300)] *)
Definition run_shell (self : LocalTools) (cmd : string) (timeout : Z) : M (string * Z) :=
  fun env w =>
    let w1 := mkWorld (trace w ++ [EShell cmd timeout]) (drawn w) (http_closed w)
                (running w) in
    match shell env w (working_dir self) cmd timeout with
    | Completed stdout stderr returncode fs' => (w1 fs', Ok (stdout +:+ stderr, returncode))
    | TimedOut fs' => (w1 fs', Raise (mkExc TimeoutExpired_ cmd))
    end.

(** [read_file(path, start_line=0, end_line=None)] *)
Definition read_file (fs : FS) (self : LocalTools) (path : Path)
  (start_line : Z) (end_line : option Z) : Result string :=
  let full_path := joinpath (working_dir self) path in
  text <-r open_read fs full_path;
  let lines := readlines text in
  let end_line := match end_line with
                  | None => Z.of_nat (length lines)
                  | Some e => e
                  end in
  Ok (join_lines (slice lines start_line end_line)).

Definition write_file (pf : Platform) (fs : FS) (self : LocalTools) (path : Path)
  (content : string) : FS * Result unit :=
  let full_path := joinpath (working_dir self) path in
  match mkdir_parents fs (parent full_path) with
  | (fs1, Ok _) => open_write pf fs1 full_path content
  | (fs1, Raise e) => (fs1, Raise e)
  end.

(** [lines] is the list that the caller passed in and that the calls append
    to; it is returned together with the outcome.  [None]: out of fuel. *)
Fixpoint _walk (fuel : nat) (dv : DirView) (path : Path) (prefix : string)
  (max_depth current_depth : Z) (lines : list string)
  : option (list string * Result unit) :=
  if current_depth >=? max_depth then Some (lines, Ok tt)
  else
    match fuel with
    | O => None
    | S fuel' =>
        match dv_iterdir dv path with
        | Raise e =>
            if isinstance e PermissionError_ then Some (lines, Ok tt)
            else Some (lines, Raise e)
        | Ok it =>
            for_each (sorted_entries dv it) lines (fun entry lines =>
              if String.prefix "." (name entry) then Some (lines, Ok tt)
              else
                let lines := lines ++ [prefix +:+ name entry +:+
                                       (if dv_is_dir dv entry then "/" else "")] in
                if dv_is_dir dv entry then
                  _walk fuel' dv entry (prefix +:+ "  ") max_depth (current_depth + 1) lines
                else Some (lines, Ok tt))
        end
    end.

(** [list_directory(path=".", max_depth=3)] *)
Definition list_directory (fuel : nat) (dv : DirView) (self : LocalTools) (path : Path)
  (max_depth : Z) : option (Result string) :=
  let target := joinpath (working_dir self) path in
  match _walk fuel dv target "" max_depth 0 [] with
  | Some (lines, Ok _) => Some (Ok (String.concat (String LF "") lines))
  | Some (_, Raise e) => Some (Raise e)
  | None => None
  end.

Definition git_commit (self : LocalTools) (message : string) : M (string * Z) :=
  run_shell self ("git add -A && git commit -m " +:+ String (ascii_of_nat 34) ""
                  +:+ message +:+ String (ascii_of_nat 34) "") 300.

Definition git_branch (self : LocalTools) (name : string) : M (string * Z) :=
  run_shell self ("git checkout -b " +:+ name) 300.

Definition git_push (self : LocalTools) (branch : string) : M (string * Z) :=
  run_shell self ("git push origin " +:+ branch) 300.

Definition git_diff (self : LocalTools) : M (string * Z) :=
  run_shell self "git diff" 300.

End LocalTools.

(** ** agent_sdk/code_nav.py *)

Module CodeNavigator.

Import LocalTools.

Record CodeNavigator := mkCodeNavigator { working_dir : Path }.

Definition SKIPPED : list string := ["node_modules"; "__pycache__"; "vendor"; ".git"].

Fixpoint _tree (fuel : nat) (dv : DirView) (path : Path) (indent : string)
  (max_depth current : Z) (lines : list string)
  : option (list string * Result unit) :=
  if (current >=? max_depth) || negb (dv_is_dir dv path) then Some (lines, Ok tt)
  else
    match fuel with
    | O => None
    | S fuel' =>
        match dv_iterdir dv path with
        | Raise e =>
            if isinstance e PermissionError_ then Some (lines, Ok tt)
            else Some (lines, Raise e)
        | Ok it =>
            for_each (sorted_entries dv it) lines (fun entry lines =>
              if String.prefix "." (name entry)
                 || bool_decide (name entry ∈ SKIPPED) then Some (lines, Ok tt)
              else
                let marker := if dv_is_dir dv entry then "/" else "" in
                let lines := lines ++ [indent +:+ name entry +:+ marker] in
                if dv_is_dir dv entry then
                  _tree fuel' dv entry (indent +:+ "  ") max_depth (current + 1) lines
                else Some (lines, Ok tt))
        end
    end.

(** [get_tree(path=".", depth=3)] *)
Definition get_tree (fuel : nat) (dv : DirView) (self : CodeNavigator) (path : Path)
  (depth : Z) : option (Result string) :=
  let target := joinpath (working_dir self) path in
  match _tree fuel dv target "" depth 0 [] with
  | Some (lines, Ok _) => Some (Ok (String.concat (String LF "") lines))
  | Some (_, Raise e) => Some (Raise e)
  | None => None
  end.

(** The lines that [read_file_lines] shows, each with the number it is
    given: [enumerate(lines[start_idx:end_idx], start=start_idx + 1)].
    [end if end else len(lines)]: an [end] of 0 counts as no [end]. *)
Definition selected_lines (fs : FS) (self : CodeNavigator) (path : Path)
  (start : Z) (end_ : option Z) : Result (list (Z * string)) :=
  let full_path := joinpath (working_dir self) path in
  text <-r open_read fs full_path;
  let lines := readlines text in
  let start_idx := Z.max 0 (start - 1) in
  let end_idx := match end_ with
                 | Some e => if e =? 0 then Z.of_nat (length lines) else e
                 | None => Z.of_nat (length lines)
                 end in
  Ok (enumerate (start_idx + 1) (slice lines start_idx end_idx)).

(** [read_file_lines(path, start=1, end=None)] *)
Definition read_file_lines (fs : FS) (self : CodeNavigator) (path : Path)
  (start : Z) (end_ : option Z) : Result string :=
  sel <-r selected_lines fs self path start end_;
  Ok (String.concat (String LF "") (map numbered sel)).

Definition KEYWORDS : list string :=
  ["def "; "class "; "func "; "type "; "interface "; "export "].

(** [any(stripped.startswith(kw) for kw in (...))] *)
Definition is_signature (line : string) : bool :=
  existsb (fun kw => String.prefix kw (strip line)) KEYWORDS.

(** The lines that [get_file_summary] keeps, with their numbers. *)
Definition signature_lines (content : string) : list (Z * string) :=
  List.filter (fun il => is_signature (snd il)) (enumerate 1 (split_lines content)).

(** [get_file_summary(path)]; [read_text] reads in text mode. *)
Definition get_file_summary (fs : FS) (self : CodeNavigator) (path : Path)
  : Result string :=
  let full_path := joinpath (working_dir self) path in
  content <-r open_read fs full_path;
  let signatures := map numbered (signature_lines content) in
  Ok (match signatures with
      | [] => "(no signatures found)"
      | _ => String.concat (String LF "") signatures
      end).

End CodeNavigator.

(** ** agents/example/agent.py *)

Module ExampleAgent.

Import LocalTools CodeNavigator.

Record ExampleAgent := mkExampleAgent {
  super : BaseAgent;
  tools : LocalTools.LocalTools;
  nav : CodeNavigator.CodeNavigator;
  repo_path : Path;
}.

Definition init (project_id : UUID) (repo_path : Path) : M ExampleAgent :=
  b <- BaseAgent.init project_id "coder" "Example Coder" "example" ["go"; "python"];;
  ret (mkExampleAgent b (mkLocalTools repo_path) (mkCodeNavigator repo_path) repo_path).

Definition nl : string := String LF "".

(** The tools act on the file system of the world. *)
Definition tools_read_file (t : LocalTools.LocalTools) (path : Path) : M string :=
  fun _ w => (w, read_file (fs w) t path 0 None).

Definition tools_write_file (t : LocalTools.LocalTools) (path : Path) (content : string)
  : M unit :=
  fun env w =>
    let '(fs', r) := write_file (platform env) (fs w) t path content in
    (mkWorld (trace w) (drawn w) (http_closed w) (running w) fs', r).

Definition nav_get_tree (n : CodeNavigator.CodeNavigator) (path : Path) (depth : Z)
  : M string :=
  fun _ w =>
    match get_tree (Z.to_nat depth) (view (fs w)) n path depth with
    | Some r => (w, r)
    | None => (w, Raise (mkExc RecursionError_ "maximum recursion depth exceeded"))
    end.

(** ["needle" in haystack] *)
Definition contains (needle haystack : string) : bool :=
  match String.index 0 needle haystack with
  | Some _ => true
  | None => false
  end.

(** [UUID(thread_list[0]["id"])] *)
Definition first_thread_id (thread_list : Json) : Result UUID :=
  match thread_list with
  | JArr (JObj d :: _) =>
      match get d "id" with
      | Some (JStr s) => Ok s
      | Some _ => Raise (mkExc TypeError_ "id")
      | None => Raise (mkExc LookupError_ "id")
      end
  | JObj _ => Raise (mkExc LookupError_ "0")
  | _ => Raise (mkExc TypeError_ "thread_list")
  end.

Definition _work_on_task (self : ExampleAgent) (task : Task) : M unit :=
  let post := post_update (super self) in
  log INFO ("Working on task: " +:+ title task +:+ " (" +:+ task_id task +:+ ")");;;
  threads <- send (mkRequest GET "/api/threads/" [("task_id", task_id task)] None []);;
  let thread_list := body threads in
  if negb (truthy thread_list) then
    log WARNING ("No thread found for task " +:+ task_id task)
  else
    thread_id <- lift (first_thread_id thread_list);;
    post thread_id ("Starting work on: " +:+ title task) PROGRESS;;;
    tree <- nav_get_tree (nav self) [] 2;;
    post thread_id ("Explored codebase structure:" +:+ nl +:+ "```" +:+ nl +:+ tree
                    +:+ nl +:+ "```") PROGRESS;;;
    let branch := branch_name task in
    r <- git_branch (tools self) branch;;
    let '(output, code) := r in
    if negb (code =? 0) && negb (contains "already exists" output) then
      post thread_id ("Branch creation issue: " +:+ output) BLOCKER;;;
      ret tt
    else
      let readme_path := ["README.md"] in
      try_except
        (content <- tools_read_file (tools self) readme_path;;
         let content := content +:+ nl +:+ nl +:+ "<!-- Task: " +:+ title task
                        +:+ " (ID: " +:+ task_id task +:+ ") -->" +:+ nl in
         tools_write_file (tools self) readme_path content)
        FileNotFoundError_
        (fun _ => tools_write_file (tools self) readme_path
                    ("# Project" +:+ nl +:+ nl +:+ "Task: " +:+ title task +:+ nl));;;
      post thread_id "Made changes, running commit..." PROGRESS;;;
      r <- git_commit (tools self) ("feat: " +:+ title task);;
      let '(output, code) := r in
      if negb (code =? 0) then
        post thread_id ("Commit failed: " +:+ output) BLOCKER;;;
        ret tt
      else
        post thread_id "Pushing branch..." PROGRESS;;;
        r <- git_push (tools self) branch;;
        let '(output, code) := r in
        if negb (code =? 0) then
          post thread_id ("Push failed: " +:+ output) BLOCKER;;;
          ret tt
        else
          post thread_id "Opening PR..." PROGRESS;;;
          opened <- try_except
            (pr <- AgentMeshClient.open_pr ("feat: " +:+ title task)
                     ("Automated PR for task " +:+ task_id task +:+ nl +:+ nl
                      +:+ description task)
                     branch "main";;
             post thread_id ("PR opened: " +:+ pr_url pr) ARTIFACT;;;
             ret true)
            Exception_
            (fun e => post thread_id ("PR creation failed: " +:+ exc_msg e) BLOCKER;;;
                      ret false);;
          if opened : bool then
            try_except
              (AgentMeshClient.update_task_status (task_id task) IN_PROGRESS IN_REVIEW;;;
               post thread_id "Task moved to review." PROGRESS;;;
               ret tt)
              Exception_
              (fun e => log ERROR ("Failed to update task status: " +:+ exc_msg e));;;
            log INFO ("Completed work on task: " +:+ title task)
          else ret tt.

(** The body of the [try] in [run]; its value tells whether the loop goes
    on. *)
Definition poll (self : ExampleAgent) : M bool :=
  tasks <- AgentMeshClient.list_tasks (project_id (super self)) (Some IN_PROGRESS) None;;
  let my_tasks :=
    List.filter (fun t => bool_decide (assigned_agent_id t = Some (agent_id (super self))))
      tasks in
  match my_tasks with
  | [] => sleep 5;;; ret true                               (* continue *)
  | _ => for_M my_tasks (_work_on_task self);;; ret true
  end.

Definition iteration (self : ExampleAgent) : M bool :=
  try_except2 (poll self)
    KeyboardInterrupt_ (fun _ => ret false)                 (* break *)
    Exception_ (fun e => log ERROR ("Error in agent loop: " +:+ exc_msg e);;;
                         sleep 10;;;
                         ret true).

(** [while self._running: ...]; [None] after [fuel] iterations means that
    the loop is still going. *)
Fixpoint run_loop (fuel : nat) (self : ExampleAgent) : M (option unit) :=
  match fuel with
  | O => ret None
  | S fuel' =>
      r <- get_running;;
      if r : bool then
        go <- iteration self;;
        if go : bool then run_loop fuel' self else ret (Some tt)
      else ret (Some tt)
  end.

Definition run (fuel : nat) (self : ExampleAgent) : M (option unit) :=
  log INFO "Example agent running, polling for tasks...";;;
  run_loop fuel self.

End ExampleAgent.

(** ** agents/example/simulate_pipeline.py

    The helpers and the ownership-lock scenario.  An MCP session is named
    by the role it was opened for; [call_tool] gives the text of the first
    content item of the result. *)

Module SimulatePipeline.

Section Script.

(** [BASE_URL] and [PROJECT_ID] of the environment. *)
Variables (BASE PROJECT_ID : string).

(** [PASS_COUNT] and [FAIL_COUNT], read off the trace. *)
Definition PASS_COUNT (w : World) : nat :=
  length (List.filter (fun e => match e with EPass _ => true | _ => false end) (trace w)).

Definition FAIL_COUNT (w : World) : nat :=
  length (List.filter (fun e => match e with EFail _ _ => true | _ => false end) (trace w)).

Definition ok (msg : string) : M unit := emit (EPass msg).

Definition fail (msg detail : string) : M unit := emit (EFail msg detail).

Definition call_tool (session tool : string) (args : list (string * Json)) : M string :=
  fun env w =>
    let text := mcp env w session tool args in
    (mkWorld (trace w ++ [EToolCall session tool args]) (drawn w) (http_closed w)
       (running w) (fs w), Ok text).

(** The id in the text that [register_agent] returned: the ["agent_id"] of
    a JSON object, otherwise the text itself. *)
Definition agent_id_of (env : Env) (text : string) : Result string :=
  match json_loads env text with
  | Ok (JObj d) =>
      match get d "agent_id" with
      | Some (JStr s) => Ok s
      | Some _ => Raise (mkExc TypeError_ "agent_id")  (* fails at the slice below *)
      | None => Ok text
      end
  | _ => Ok text
  end.

Definition make_agent (role : string) : M (string * string) :=
  let session := role in
  text <- call_tool session "register_agent"
            [("project_id", JStr PROJECT_ID); ("role", JStr role);
             ("name", JStr ("stub-" +:+ role)); ("model", JStr "stub")];;
  agent_id <- (fun env w => (w, agent_id_of env text));;
  (* session.get_prompt(role, ...): the text of the first message, empty
     when there is none *)
  prompt <- call_tool session "get_prompt" [("project_id", JStr PROJECT_ID)];;
  ok (role +:+ ": registered (id=" +:+ String.substring 0 8 agent_id
      +:+ "...) + fetched prompt (" +:+ pretty (String.length prompt) +:+ " chars)");;;
  ret (session, agent_id).

Definition status_patch (task_id from to : string) : Request :=
  mkRequest PATCH (BASE +:+ "/api/tasks/" +:+ task_id) []
    (Some (JObj [("status_from", JStr from); ("status_to", JStr to)])) [].

Definition create_task (title : string) : M string :=
  r <- request (mkRequest POST (BASE +:+ "/api/tasks") []
                  (Some (JObj [("project_id", JStr PROJECT_ID);
                               ("title", JStr title);
                               ("description", JStr ("Stub task for simulation: " +:+ title));
                               ("priority", JStr "medium");
                               ("branch_type", JStr "feature");
                               ("created_by", JStr "simulate_pipeline.py")])) []);;
  lift (raise_for_status r);;;
  task_id <- lift (match body r with
                   | JObj d => match get d "id" with
                               | Some (JStr s) => Ok s
                               | Some _ => Raise (mkExc TypeError_ "id")
                               | None => Raise (mkExc LookupError_ "id")
                               end
                   | _ => Raise (mkExc TypeError_ "id")
                   end);;
  request (status_patch task_id "backlog" "ready");;;
  ret task_id.

Definition get_task_status (task_id : string) : M Json :=
  r <- request (mkRequest GET (BASE +:+ "/api/tasks/" +:+ task_id) [] None []);;
  ret (body r).

(** [task_state.get("assigned_agent_id", "")]; a [task_state] that is not
    an object has no [get]. *)
Definition assigned (task_state : Json) : Result Json :=
  match task_state with
  | JObj d => Ok (default (JStr "") (get d "assigned_agent_id"))
  | _ => Raise (mkExc AttributeError_ "get")
  end.

(** [assigned == coder_id] *)
Definition same_coder_assigned (task_state : Json) (coder_id : string) : Result bool :=
  a <-r assigned task_state;
  Ok (match a with
      | JStr s => String.eqb s coder_id
      | _ => false
      end).

(** The text of a value inside an f-string (that of a list or an object is
    abbreviated). *)
Definition text_of (j : Json) : string :=
  match j with
  | JNull => "None"
  | JBool true => "True"
  | JBool false => "False"
  | JNum n => pretty n
  | JStr s => s
  | JArr _ => "[...]"
  | JObj _ => "{...}"
  end.

(** [[m for m in msgs if m.get("post_type") == "review_feedback"]] *)
Definition is_feedback (m : Json) : Result (Json * bool) :=
  match m with
  | JObj d => Ok (m, match get d "post_type" with
                     | Some (JStr s) => String.eqb s "review_feedback"
                     | _ => false
                     end)
  | _ => Raise (mkExc AttributeError_ "get")
  end.

Definition feedback_messages (msgs : Json) : Result (list Json) :=
  items <-r iter msgs;
  l <-r traverse is_feedback items;
  Ok (map fst (List.filter snd l)).

Definition scenario_ownership_lock : M unit :=
  emit (EPrint "=== Scenario 2: Ownership lock (QA fail → same coder re-assigned) ===");;;
  c <- make_agent "coder";;
  let '(coder, coder_id) := c in
  q <- make_agent "qa";;
  let '(qa, qa_id) := q in
  task_id <- create_task "Fix null pointer in auth service";;
  sleep_ms 500;;;
  (* Coder takes the task *)
  call_tool coder "claim_task" [("agent_id", JStr coder_id)];;;
  request (status_patch task_id "ready" "in_progress");;;
  call_tool coder "update_task_status"
    [("task_id", JStr task_id); ("from", JStr "in_progress"); ("to", JStr "in_qa")];;;
  sleep_ms 300;;;
  (* QA fails *)
  call_tool qa "claim_task" [("agent_id", JStr qa_id)];;;
  call_tool qa "post_message"
    [("task_id", JStr task_id);
     ("content", JStr ("test_auth_login: FAIL — null pointer at auth.go:127" +:+
                       String LF "test_auth_refresh: FAIL — expired token not rejected"));
     ("post_type", JStr "review_feedback");
     ("agent_id", JStr qa_id)];;;
  call_tool qa "update_task_status"
    [("task_id", JStr task_id); ("from", JStr "in_qa"); ("to", JStr "in_progress")];;;
  ok "qa: posted failures and bounced back to in_progress";;;
  sleep_ms 300;;;
  (* Check ownership lock *)
  task_state <- get_task_status task_id;;
  a <- lift (assigned task_state);;
  same <- lift (same_coder_assigned task_state coder_id);;
  (if same : bool then
     ok ("ownership lock: same coder still assigned (" +:+ String.substring 0 8 coder_id
         +:+ "...)")
   else
     fail "ownership lock broken"
       ("assigned=" +:+ text_of a +:+ ", expected coder=" +:+ coder_id));;;
  (* Coder reads QA feedback from thread *)
  msgs_text <- call_tool coder "list_messages" [("task_id", JStr task_id)];;
  msgs <- (fun env w => (w, json_loads env msgs_text));;
  feedback_msgs <- lift (feedback_messages msgs);;
  match feedback_msgs with
  | _ :: _ =>
      ok ("coder can read QA feedback in thread (" +:+ pretty (length feedback_msgs)
          +:+ " feedback message(s))")
  | [] => fail "coder: no review_feedback in thread" ""
  end.

(** [text and text != "null"] *)
Definition claimed (text : string) : bool :=
  negb (String.eqb text "") && negb (String.eqb text "null").

Definition artifact_message (task_id content agent_id : string) : list (string * Json) :=
  [("task_id", JStr task_id); ("content", JStr content);
   ("post_type", JStr "artifact"); ("agent_id", JStr agent_id)].

Definition status_args (task_id from to : string) : list (string * Json) :=
  [("task_id", JStr task_id); ("from", JStr from); ("to", JStr to)].

(** [ctx_data.get("task", {}).get("pr_url", "") or 'empty'], as text *)
Definition pr_url_of (ctx_data : Json) : Result string :=
  match ctx_data with
  | JObj d =>
      match default (JObj []) (get d "task") with
      | JObj t =>
          let pr_url := default (JStr "") (get t "pr_url") in
          Ok (if truthy pr_url then text_of pr_url else "empty")
      | _ => Raise (mkExc AttributeError_ "get")
      end
  | _ => Raise (mkExc AttributeError_ "get")
  end.

(** [state.get("status")] *)
Definition status_of (state : Json) : Result Json :=
  match state with
  | JObj d => Ok (default JNull (get d "status"))
  | _ => Raise (mkExc AttributeError_ "get")
  end.

Definition is_status (status : Json) (expected : string) : bool :=
  match status with
  | JStr s => String.eqb s expected
  | _ => false
  end.

(** [threads[0]['id']] inside an f-string *)
Definition first_id (threads : Json) : Result string :=
  match threads with
  | JArr (JObj d :: _) =>
      match get d "id" with
      | Some v => Ok (text_of v)
      | None => Raise (mkExc LookupError_ "id")
      end
  | JObj _ => Raise (mkExc LookupError_ "0")
  | _ => Raise (mkExc TypeError_ "threads")
  end.

(** [len(msgs)] *)
Definition len (msgs : Json) : Result nat :=
  match msgs with
  | JArr items => Ok (length items)
  | JObj fields => Ok (length fields)
  | JStr s => Ok (String.length s)
  | _ => Raise (mkExc TypeError_ "len")
  end.

Definition scenario_happy_path : M unit :=
  emit (EPrint "=== Scenario 1: Happy path (coder → in_qa → in_review → merged) ===");;;
  c <- make_agent "coder";;
  let '(coder, coder_id) := c in
  q <- make_agent "qa";;
  let '(qa, qa_id) := q in
  r <- make_agent "reviewer";;
  let '(rev, rev_id) := r in
  task_id <- create_task "Implement login endpoint";;
  sleep_ms 500;;;
  (* Coder claims and works *)
  task_data <- call_tool coder "claim_task" [("agent_id", JStr coder_id)];;
  (if claimed task_data then ok "coder: claimed task"
   else
     fail "coder: claim_task returned null (task may not be auto-assigned yet)" "";;;
     request (status_patch task_id "ready" "in_progress");;;
     ret tt);;;
  call_tool coder "set_pr_url"
    [("task_id", JStr task_id); ("pr_url", JStr "https://github.com/stub/repo/pull/1")];;;
  ok "coder: set PR URL";;;
  call_tool coder "post_message"
    (artifact_message task_id "Implementation complete. Branch pushed. PR #1 opened."
       coder_id);;;
  ok "coder: posted artifact message";;;
  call_tool coder "update_task_status" (status_args task_id "in_progress" "in_qa");;;
  ok "coder: advanced to in_qa";;;
  sleep_ms 500;;;
  (* QA passes *)
  qa_result <- call_tool qa "claim_task" [("agent_id", JStr qa_id)];;
  (if claimed qa_result then ok "qa: claimed task" else ret tt);;;
  ctx_text <- call_tool qa "get_task_context" [("task_id", JStr task_id)];;
  ctx_data <- (fun env w => (w, json_loads env ctx_text));;
  pr_url <- lift (pr_url_of ctx_data);;
  ok ("qa: got task context (pr_url=" +:+ pr_url +:+ ")");;;
  call_tool qa "post_message"
    (artifact_message task_id "All 23 tests passing. Coverage: 87%." qa_id);;;
  call_tool qa "update_task_status" (status_args task_id "in_qa" "in_review");;;
  ok "qa: passed and advanced to in_review";;;
  sleep_ms 500;;;
  (* Reviewer approves *)
  rev_result <- call_tool rev "claim_task" [("agent_id", JStr rev_id)];;
  (if claimed rev_result then ok "reviewer: claimed task" else ret tt);;;
  call_tool rev "post_message"
    (artifact_message task_id "LGTM. Code quality is solid. PR #1 merged to main." rev_id);;;
  call_tool rev "update_task_status" (status_args task_id "in_review" "merged");;;
  ok "reviewer: approved and advanced to merged";;;
  final <- get_task_status task_id;;
  status <- lift (status_of final);;
  (if is_status status "merged" then ok "final status: merged"
   else fail "final status" ("expected merged, got " +:+ text_of status));;;
  (* Verify thread has all messages *)
  tr <- request (mkRequest GET (BASE +:+ "/api/threads?task_id=" +:+ task_id) [] None []);;
  let threads := body tr in
  if truthy threads then
    id <- lift (first_id threads);;
    mr <- request (mkRequest GET (BASE +:+ "/api/threads/" +:+ id +:+ "/messages") []
                     None []);;
    n <- lift (len (body mr));;
    ok ("thread has " +:+ pretty n +:+ " messages")
  else fail "thread not found" "".

Definition scenario_main_updated : M unit :=
  emit (EPrint "=== Scenario 3: main_updated broadcast when task merges ===");;;
  c1 <- make_agent "coder";;
  let '(coder1, c1_id) := c1 in
  c2 <- make_agent "coder";;
  let '(coder2, c2_id) := c2 in
  q <- make_agent "qa";;
  let '(qa, qa_id) := q in
  r <- make_agent "reviewer";;
  let '(rev, rev_id) := r in
  (* Two tasks: one will go through the full pipeline, one stays in_progress *)
  t1 <- create_task "Feature A (will be merged)";;
  t2 <- create_task "Feature B (in-progress when A merges)";;
  sleep_ms 500;;;
  (* Put t2 in_progress for coder2 *)
  request (status_patch t2 "ready" "in_progress");;;
  ok "coder2: Feature B is in_progress";;;
  (* Walk t1 through full pipeline *)
  request (status_patch t1 "ready" "in_progress");;;
  call_tool coder1 "update_task_status" (status_args t1 "in_progress" "in_qa");;;
  sleep_ms 200;;;
  call_tool qa "update_task_status" (status_args t1 "in_qa" "in_review");;;
  sleep_ms 200;;;
  call_tool rev "update_task_status" (status_args t1 "in_review" "merged");;;
  ok "Feature A merged";;;
  t1_state <- get_task_status t1;;
  s1 <- lift (status_of t1_state);;
  (if is_status s1 "merged" then
     ok "Feature A status: merged (main_updated broadcast should have fired to coder2)"
   else fail "Feature A status" ("expected merged, got " +:+ text_of s1));;;
  t2_state <- get_task_status t2;;
  s2 <- lift (status_of t2_state);;
  if is_status s2 "in_progress" then
    ok "Feature B still in_progress (coder2 was notified via SSE to pull main)"
  else fail "Feature B status" ("expected in_progress, got " +:+ text_of s2).

Definition dq : string := String (ascii_of_nat 34) "".

(** [sys.exit(code)] *)
Definition sys_exit {A} (code : Z) : M A := raise (mkExc SystemExit_ (pretty code)).

Definition main : M unit :=
  if String.eqb PROJECT_ID "" then
    emit (EPrint "ERROR: PROJECT_ID environment variable is required.");;;
    emit (EPrint "Create one with:");;;
    emit (EPrint ("  PROJECT_ID=$(curl -sf -X POST " +:+ BASE +:+ "/api/projects \"));;;
    emit (EPrint "    -H 'Content-Type: application/json' \");;;
    emit (EPrint ("    -d '{" +:+ dq +:+ "name" +:+ dq +:+ ":" +:+ dq +:+ "sim-test" +:+ dq
                  +:+ "," +:+ dq +:+ "repo_url" +:+ dq +:+ ":" +:+ dq
                  +:+ "https://github.com/test/repo" +:+ dq +:+ "}' | jq -r .id)"));;;
    sys_exit 1
  else
    emit (EPrint ("Connecting to: " +:+ BASE));;;
    emit (EPrint ("Project ID: " +:+ PROJECT_ID));;;
    scenario_happy_path;;;
    scenario_ownership_lock;;;
    scenario_main_updated;;;
    emit (EPrint "");;;
    emit (EPrint "==================================================");;;
    (fun env w =>
       emit (EPrint ("Results: " +:+ pretty (PASS_COUNT w) +:+ " passed, "
                     +:+ pretty (FAIL_COUNT w) +:+ " failed")) env w);;;
    emit (EPrint "==================================================");;;
    (fun env w => sys_exit (if (FAIL_COUNT w =? 0)%nat then 0 else 1) env w).

End Script.

End SimulatePipeline.

(** ** The orchestrator that the SDK and the simulation talk to *)

Module Orchestrator.

(** Modelled from the spec: the server side of the protocol (the task
    lifecycle state machine, the ownership lock and the agent registry) is
    not among the sources; only its callers are ([client.py],
    [simulate_pipeline.py]).  The definitions of this module follow
    sections 3, 4.1, 4.2 and 4.5 of the specification.  Section 4.2 makes
    ownership role-scoped: the assigned agent of a task is its coder, from
    the claim of the ready task on and across every bounce-back, while QA
    and reviewer agents claim the task during [in_qa] and [in_review]; such
    a claim is recorded as the task that the agent currently owns
    (section 3, Agent) and leaves the assigned agent as it is. *)
Inductive Status := backlog | ready | in_progress | in_qa | in_review | merged.

#[global] Instance Status_eq_dec : EqDecision Status.
Proof. solve_decision. Defined.

(** Modelled from the spec: the permitted directed edges of section 4.1, as
    a mapping from a state to the states reachable from it. *)
Definition edges (s : Status) : list Status :=
  match s with
  | backlog => [ready]
  | ready => [in_progress]
  | in_progress => [in_qa]
  | in_qa => [in_review; in_progress]
  | in_review => [merged; in_progress]
  | merged => []
  end.

Definition permitted (s1 s2 : Status) : bool := bool_decide (s2 ∈ edges s1).

Definition wire (s : Status) : string :=
  match s with
  | backlog => "backlog"
  | ready => "ready"
  | in_progress => "in_progress"
  | in_qa => "in_qa"
  | in_review => "in_review"
  | merged => "merged"
  end.

Definition statuses : list Status := [backlog; ready; in_progress; in_qa; in_review; merged].

Definition of_wire (v : string) : option Status :=
  List.find (fun s => String.eqb (wire s) v) statuses.

Inductive Error :=
| InvalidTransition
| StaleState
| NotOwner
| AlreadyOwned
| UnknownEntity
| NotEligible.      (* a claim in a state that the role may not claim in *)

Record TaskRec := mkTaskRec {
  t_id : string;
  t_project : string;
  t_status : Status;
  t_assigned_agent : option string;
  t_started_at : option Z;
  t_completed_at : option Z;
}.

Record AgentRec := mkAgentRec {
  a_role : string;
  a_last_seen : Z;
  a_task : option string;            (* the task it currently owns *)
}.

(** A broadcast event [main_updated], addressed to one agent. *)
Record MainUpdated := mkMainUpdated {
  ev_recipient : string;
  ev_merged_task : string;
}.

Record State := mkState {
  tasks : gmap string TaskRec;
  agents : gmap string AgentRec;
  results : gmap string TaskRec;     (* idempotency token -> prior result *)
  outbox : list MainUpdated;
  applied : nat;                     (* number of applied status changes *)
  now : Z;
  window : Z;                        (* liveness window *)
}.

Definition with_tasks (o : State) (ts : gmap string TaskRec) : State :=
  mkState ts (agents o) (results o) (outbox o) (applied o) (now o) (window o).

Definition assigned_of (o : State) (task_id : string) : option string :=
  t ← tasks o !! task_id; t_assigned_agent t.

Definition live (o : State) (agent_id : string) : bool :=
  match agents o !! agent_id with
  | Some a => now o - a_last_seen a <=? window o
  | None => false
  end.

(** Modelled from the spec: section 4.4, the recipients of [main_updated]
    when a task merges: the owners of the other tasks of the same project
    that are in progress. *)
Definition recipients (o : State) (t : TaskRec) : list MainUpdated :=
  omap (fun kv : string * TaskRec =>
          let t' := snd kv in
          if bool_decide (t_id t' ≠ t_id t) && bool_decide (t_project t' = t_project t)
             && bool_decide (t_status t' = in_progress)
          then (fun a => mkMainUpdated a (t_id t)) <$> t_assigned_agent t'
          else None)
       (map_to_list (tasks o)).

(** Modelled from the spec: the status change of section 4.1, [On success]:
    the status is updated, [started_at] is stamped on the first entry into
    [in_progress], [completed_at] on entry into [merged]; the assigned
    agent is not among the fields that a transition writes. *)
Definition apply_edge (o : State) (t : TaskRec) (to : Status) : TaskRec :=
  mkTaskRec (t_id t) (t_project t) to (t_assigned_agent t)
    (match to, t_started_at t with
     | in_progress, None => Some (now o)
     | _, s => s
     end)
    (match to with
     | merged => Some (now o)
     | _ => t_completed_at t
     end).

(** Modelled from the spec: section 4.2, the role that acts on a task in a
    given state: QA in [in_qa], the reviewer in [in_review], the coder in
    every other state. *)
Definition acting_role (s : Status) : string :=
  match s with
  | in_qa => "qa"
  | in_review => "reviewer"
  | _ => "coder"
  end.

(** Modelled from the spec: sections 3 and 4.2, the QA agent or the
    reviewer that has claimed a task: the agent of that role whose current
    task it is. *)
Definition claimant (o : State) (task_id role : string) : option string :=
  head (omap (fun kv : string * AgentRec =>
                if String.eqb (a_role (snd kv)) role
                   && bool_decide (a_task (snd kv) = Some task_id)
                then Some (fst kv) else None)
          (map_to_list (agents o))).

(** Modelled from the spec: section 4.2, the agent that holds a task in the
    scope of a role: the claimant for QA and for the reviewer, the assigned
    agent otherwise. *)
Definition holder_in (o : State) (task_id : string) (t : TaskRec) (role : string)
  : option string :=
  if String.eqb role "qa" || String.eqb role "reviewer" then claimant o task_id role
  else t_assigned_agent t.

(** Modelled from the spec: operation [transition] of section 4.1.  A
    token that already has a result gives that result again and changes
    nothing.  Otherwise the checks are made in the order in which the
    section lists them; the owner check compares the caller with the agent
    that holds the task in its current state, and does not apply to the
    edge [ready -> in_progress]. *)
Definition transition (o : State) (task_id : string) (from to : Status)
  (token caller : string) : State * (Error + TaskRec) :=
  match results o !! token with
  | Some prior => (o, inr prior)
  | None =>
      match tasks o !! task_id with
      | None => (o, inl UnknownEntity)
      | Some t =>
          if negb (permitted from to) then (o, inl InvalidTransition)
          else if negb (bool_decide (t_status t = from)) then (o, inl StaleState)
          else if negb (bool_decide (from = ready ∧ to = in_progress))
                  && match holder_in o task_id t (acting_role (t_status t)) with
                     | Some a => negb (String.eqb a caller)
                     | None => false
                     end
               then (o, inl NotOwner)
          else
            let t' := apply_edge o t to in
            (mkState (<[task_id := t']> (tasks o)) (agents o)
               (<[token := t']> (results o))
               (match to with
                | merged => outbox o ++ recipients o t'
                | _ => outbox o
                end)
               (S (applied o)) (now o + 1) (window o),
             inr t')
      end
  end.

(** Modelled from the spec: the table [(status, role) -> claim allowed] of
    sections 4.2 and 9. *)
Definition claimable (s : Status) (role : string) : bool :=
  match s with
  | ready => String.eqb role "coder"
  | in_qa => String.eqb role "qa"
  | in_review => String.eqb role "reviewer"
  | _ => false
  end.

Definition set_task (task : option string) (a : AgentRec) : AgentRec :=
  mkAgentRec (a_role a) (a_last_seen a) task.

(** Modelled from the spec: operation [claim] of section 4.2.  The claim
    succeeds when nobody holds the task in the scope of the role of the
    agent (or the agent itself does) and the state is one that the role
    claims in; it fails with [AlreadyOwned] when another agent holds it and
    is live, and displaces a holder that is stale.  The claim of a coder
    sets the assigned agent; the claim of a QA agent or a reviewer does
    not. *)
Definition claim (o : State) (task_id agent_id : string) : State * (Error + TaskRec) :=
  match tasks o !! task_id, agents o !! agent_id with
  | Some t, Some a =>
      let scoped := String.eqb (a_role a) "qa" || String.eqb (a_role a) "reviewer" in
      let take (displaced : option string) :=
        if claimable (t_status t) (a_role a) then
          let t' := if scoped then t
                    else mkTaskRec (t_id t) (t_project t) (t_status t) (Some agent_id)
                           (t_started_at t) (t_completed_at t) in
          let released := match displaced with
                          | Some h => alter (set_task None) h (agents o)
                          | None => agents o
                          end in
          (mkState (<[task_id := t']> (tasks o))
             (alter (set_task (Some task_id)) agent_id released)
             (results o) (outbox o) (applied o) (now o) (window o),
           inr t')
        else (o, inl NotEligible) in
      match holder_in o task_id t (a_role a) with
      | None => take None
      | Some owner =>
          if String.eqb owner agent_id then (o, inr t)
          else if live o owner then (o, inl AlreadyOwned)
          else take (Some owner)
      end
  | _, _ => (o, inl UnknownEntity)
  end.

(** Modelled from the spec: [heartbeat] of section 4.5; an unknown agent id
    changes nothing and is not an error. *)
Definition heartbeat (o : State) (agent_id : string) : State :=
  match agents o !! agent_id with
  | Some a =>
      mkState (tasks o)
        (<[agent_id := mkAgentRec (a_role a) (now o) (a_task a)]> (agents o))
        (results o) (outbox o) (applied o) (now o) (window o)
  | None => o
  end.


End Orchestrator.

(** * Properties *)

(** ** Observations on a trace *)

Definition sent (w : World) : list Request :=
  omap (fun e => match e with EHttp req _ => Some req | _ => None end) (trace w).

Definition sleeps (w : World) : nat :=
  length (List.filter (fun e => match e with ESleep _ => true | _ => false end) (trace w)).

Definition warnings (w : World) : nat :=
  length (List.filter (fun e => match e with ELog WARNING _ => true | _ => false end)
            (trace w)).

(** Requests that were answered with a 2xx response. *)
Definition answered_ok (w : World) : nat :=
  length (List.filter (fun e => match e with
                                | EHttp _ (Responds r) => is_ok (raise_for_status r)
                                | _ => false
                                end) (trace w)).

(** The idempotency tokens that went out, in order. *)
Definition tokens_sent (w : World) : list string :=
  omap (fun req => header req AgentMeshClient.IDEMPOTENCY_HEADER) (sent w).

Definition field_str (d : list (string * Json)) (k : string) : option string :=
  match get d k with
  | Some (JStr s) => Some s
  | _ => None
  end.

(** The [(from, to)] pairs of the status changes that were requested, over
    REST ([PATCH] with [status_from], [status_to]) or through the
    [update_task_status] tool. *)
Definition requested_edge (e : Event) : option (string * string) :=
  match e with
  | EHttp (mkRequest PATCH _ _ (Some (JObj d)) _) _ =>
      f ← field_str d "status_from"; t ← field_str d "status_to"; Some (f, t)
  | EToolCall _ "update_task_status" d =>
      f ← field_str d "from"; t ← field_str d "to"; Some (f, t)
  | _ => None
  end.

Definition requested_edges (w : World) : list (string * string) :=
  omap requested_edge (trace w).

(** The post types of the messages that were posted, through the SDK
    ([POST .../messages]) or through the [post_message] tool. *)
Definition posted_type (e : Event) : option string :=
  match e with
  | EHttp (mkRequest POST _ _ (Some (JObj d)) _) _ => field_str d "post_type"
  | EToolCall _ "post_message" d => field_str d "post_type"
  | _ => None
  end.

Definition posted_types (w : World) : list string := omap posted_type (trace w).

(** An edge on the wire is permitted when both ends name a status of the
    lifecycle and the pair is an edge of it. *)
Definition permitted_wire (e : string * string) : bool :=
  match Orchestrator.of_wire (fst e), Orchestrator.of_wire (snd e) with
  | Some s1, Some s2 => Orchestrator.permitted s1 s2
  | _, _ => false
  end.

(** Text without a carriage return. *)
Fixpoint has_CR (s : string) : bool :=
  match s with
  | EmptyString => false
  | String c s' => Ascii.eqb c CR || has_CR s'
  end.

(** A computation that requests no status change, and one that requests
    at most the one edge [e], whatever the environment does. *)
Definition quiet {A} (m : M A) : Prop :=
  forall env w, requested_edges (fst (m env w)) = requested_edges w.

Definition only {A} (e : string * string) (m : M A) : Prop :=
  forall env w,
    requested_edges (fst (m env w)) = requested_edges w
    \/ requested_edges (fst (m env w)) = requested_edges w ++ [e].

(** *** What a computation adds to the trace, and what it raises *)

(** From [w] to [w'] the observations [obs] of the trace have grown, and
    each new one satisfies [P]. *)
Definition extends {X} (obs : Event -> option X) (P : X -> Prop) (w w' : World) : Prop :=
  exists new, omap obs (trace w') = omap obs (trace w) ++ new /\ Forall P new.

(** In every environment that satisfies [G], the computation [m] only adds
    observations that satisfy [P], and raises only exceptions that satisfy
    [E]. *)
Definition keeps {A X} (G : Env -> Prop) (obs : Event -> option X) (P : X -> Prop)
  (E : Exc -> Prop) (m : M A) : Prop :=
  forall env w, G env ->
    extends obs P w (fst (m env w)) /\ forall e, snd (m env w) = Raise e -> E e.

(** An exception that [except Exception] catches. *)
Definition ordinary (e : Exc) : Prop := isinstance e Exception_ = true.

(** A result that raises ordinary exceptions only. *)
Definition raises_ordinary {A} (r : Result A) : Prop :=
  forall e, r = Raise e -> ordinary e.

(** [json.loads] raises ordinary exceptions only. *)
Definition json_ordinary (env : Env) : Prop :=
  forall text, raises_ordinary (json_loads env text).

(** *** Directory walks *)

(** [entry] lies [k] directories below [root]: it is listed by [root]
    ([k = 0]) or by a directory that lies [k - 1] below [root]. *)
Inductive at_depth (dv : DirView) (root : Path) : nat -> Path -> Prop :=
| at_depth_here (it : list Path) (entry : Path) :
    dv_iterdir dv root = Ok it -> entry ∈ it -> at_depth dv root 0 entry
| at_depth_below (it : list Path) (d : Path) (k : nat) (entry : Path) :
    dv_iterdir dv root = Ok it -> d ∈ it -> dv_is_dir dv d = true ->
    at_depth dv d k entry -> at_depth dv root (S k) entry.

(** Two spaces for every level. *)
Fixpoint indent (k : nat) : string :=
  match k with
  | O => ""
  | S k' => "  " +:+ indent k'
  end.

(** [line] is the line of an entry [k] levels below [root], written by a
    walk that started at [root] with [prefix] at depth [current], and the
    depth [current + k] of the call that wrote it is below [max_depth]. *)
Definition emitted (dv : DirView) (root : Path) (prefix : string)
  (max_depth current : Z) (line : string) : Prop :=
  exists (k : nat) (entry : Path),
    at_depth dv root k entry
    /\ current + Z.of_nat k < max_depth
    /\ line = prefix +:+ indent k +:+ name entry
              +:+ (if dv_is_dir dv entry then "/" else "").

(** The invariant of both walkers: the list has grown by emitted lines. *)
Definition grown (dv : DirView) (root : Path) (prefix : string) (max_depth current : Z)
  (lines lines' : list string) : Prop :=
  exists new, lines' = lines ++ new /\ Forall (emitted dv root prefix max_depth current) new.

(** [a] comes before [b] in a listing: a directory before what is not
    one, and among the same kind the smaller name first. *)
Definition before (dv : DirView) (a b : Path) : Prop :=
  (dv_is_dir dv a = true /\ dv_is_dir dv b = false)
  \/ (dv_is_dir dv a = dv_is_dir dv b /\ String.leb (name a) (name b) = true).

(** The names that a walker leaves out. *)
Definition hidden (n : string) : bool := String.prefix "." n.

Definition left_out_by_tree (n : string) : bool :=
  hidden n || bool_decide (n ∈ CodeNavigator.SKIPPED).

(** [entry] is shown [k] directories below [root]: neither it nor any
    directory on the way down from [root] is left out. *)
Inductive shown_at (dv : DirView) (skip : string -> bool) (root : Path)
  : nat -> Path -> Prop :=
| shown_here (it : list Path) (entry : Path) :
    dv_iterdir dv root = Ok it -> entry ∈ it -> skip (name entry) = false ->
    shown_at dv skip root 0 entry
| shown_below (it : list Path) (d : Path) (k : nat) (entry : Path) :
    dv_iterdir dv root = Ok it -> d ∈ it -> skip (name d) = false ->
    dv_is_dir dv d = true ->
    shown_at dv skip d k entry -> shown_at dv skip root (S k) entry.

Definition line_of (dv : DirView) (skip : string -> bool) (root : Path)
  (prefix : string) (line : string) : Prop :=
  exists (k : nat) (entry : Path),
    shown_at dv skip root k entry
    /\ line = prefix +:+ indent k +:+ name entry
              +:+ (if dv_is_dir dv entry then "/" else "").


(** *** What the scripts put on the wire *)

(** The request of an event, and the milliseconds of a sleep. *)
Definition http_request (e : Event) : option Request :=
  match e with EHttp req _ => Some req | _ => None end.

Definition slept (e : Event) : option Z :=
  match e with ESleep millis => Some millis | _ => None end.

(** The tool of a tool call. *)
Definition tool_called (e : Event) : option string :=
  match e with EToolCall _ tool _ => Some tool | _ => None end.

(** The request of [AgentMeshClient.heartbeat]. *)
Definition heartbeat_request (agent_id : UUID) : Request :=
  mkRequest POST ("/api/agents/" +:+ agent_id +:+ "/heartbeat") [] None [].

(** The post types that [agent.py] names, and the status changes and post
    types that [simulate_pipeline.py] names. *)
Definition agent_post_types : list string := ["progress"; "blocker"; "artifact"].

Definition simulated_edges : list (string * string) :=
  [("backlog", "ready"); ("ready", "in_progress"); ("in_progress", "in_qa");
   ("in_qa", "in_review"); ("in_qa", "in_progress"); ("in_review", "merged")].

Definition simulated_post_types : list string := ["artifact"; "review_feedback"].

(** [SystemExit(code)] *)
Definition exits (code : Z) (e : Exc) : Prop := e = mkExc SystemExit_ (pretty code).

(** An outcome of [main]: an ordinary exception, or the exit code that
    tells whether a check has failed. *)
Definition ends_as_counted (out : World * Result unit) : Prop :=
  exists e,
    snd out = Raise e
    /\ (ordinary e
        \/ (exits 0 e /\ SimulatePipeline.FAIL_COUNT (fst out) = 0%nat)
        \/ (exits 1 e /\ SimulatePipeline.FAIL_COUNT (fst out) <> 0%nat)).

(** The response to the most recent request, if it got one. *)
Definition last_response (w : World) : option Response :=
  match List.last (trace w) (EClose) with
  | EHttp _ (Responds r) => Some r
  | _ => None
  end.

Arguments sent : simpl never.
Arguments sleeps : simpl never.
Arguments warnings : simpl never.
Arguments answered_ok : simpl never.
Arguments tokens_sent : simpl never.
Arguments requested_edges : simpl never.
Arguments posted_types : simpl never.

(** ** A concrete world to run the code in *)

Module Fixture.

Definition w0 : World := mkWorld [] 0%nat false false ∅.

Definition uuids (n : nat) : UUID := "uuid-" +:+ pretty n.

(** A task as the server serialises it, with the given status. *)
Definition task_json (status : string) : Json :=
  JObj [("id", JStr "task-1");
        ("project_id", JStr "proj-1");
        ("title", JStr "Implement login endpoint");
        ("description", JStr "Stub task");
        ("status", JStr status);
        ("priority", JStr "medium");
        ("assigned_agent_id", JStr "agent-coder");
        ("parent_task_id", JNull);
        ("branch_type", JStr "feature");
        ("branch_name", JStr "feature/login");
        ("labels", JArr []);
        ("created_by", JStr "simulate_pipeline.py");
        ("created_at", JStr "2025-01-01T00:00:00Z");
        ("updated_at", JStr "2025-01-01T00:05:00Z");
        ("started_at", JStr "2025-01-01T00:01:00Z");
        ("completed_at", JNull)].

Definition message_json (post_type : string) : Json :=
  JObj [("id", JStr "msg-1");
        ("thread_id", JStr "thread-1");
        ("agent_id", JStr "agent-qa");
        ("post_type", JStr post_type);
        ("content", JStr "test_auth_login: FAIL");
        ("metadata", JObj []);
        ("created_at", JStr "2025-01-01T00:03:00Z")].

Definition pr_json : Json :=
  JObj [("id", JNum 1); ("url", JStr "https://github.com/stub/repo/pull/1");
        ("number", JNum 1); ("head", JStr "feature/login"); ("base", JStr "main");
        ("title", JStr "feat: Implement login endpoint"); ("body", JStr "")].

Definition ends_with (suffix s : string) : bool :=
  String.eqb (String.substring (String.length s - String.length suffix)
                (String.length suffix) s) suffix.

(** A server that accepts every request; a task it shows has the given
    status. *)
Definition server_ok (status : string) (_ : World) (req : Request) : Reply :=
  Responds (mkResponse 200
    (match method req with
     | GET =>
         if ends_with "/api/threads/" (url req) then JArr [JObj [("id", JStr "thread-1")]]
         else if ends_with "/messages" (url req) then JArr [message_json "review_feedback"]
         else task_json status
     | POST =>
         if ends_with "/messages" (url req) then message_json "progress"
         else if ends_with "/api/git/pr" (url req) then pr_json
         else if ends_with "/api/tasks" (url req) then task_json "backlog"
         else JObj []
     | PATCH => task_json status
     end)).

(** A server that is down, and one that does not know the agent. *)
Definition server_down (_ : World) (_ : Request) : Reply := Fails "connection refused".

(** A server that answers every request with two messages. *)
Definition server_messages (_ : World) (_ : Request) : Reply :=
  Responds (mkResponse 200 (JArr [message_json "progress"; message_json "artifact"])).

(** A server that answers every request with an empty object. *)
Definition server_empty_object (_ : World) (_ : Request) : Reply :=
  Responds (mkResponse 200 (JObj [])).

Definition server_404 (_ : World) (_ : Request) : Reply :=
  Responds (mkResponse 404 (JObj [("error", JStr "agent not found")])).

Definition shell_ok (w : World) (_ : Path) (_ : string) (_ : Z) : ShellOutcome :=
  Completed "" "" 0 (fs w).

Definition mcp_stub (_ : World) (session tool : string) (_ : list (string * Json))
  : string :=
  if String.eqb tool "register_agent" then "agent-" +:+ session
  else if String.eqb tool "list_messages" then "MESSAGES"
  else "{}".

Definition json_loads_stub (text : string) : Result Json :=
  if String.eqb text "MESSAGES" then Ok (JArr [message_json "review_feedback"])
  else if String.eqb text "{}" then Ok (JObj [])
  else Raise (mkExc ValueError_ "Expecting value").

Definition env_with (srv : World -> Request -> Reply) : Env :=
  mkEnv srv uuids shell_ok (fun w => w) mcp_stub json_loads_stub Posix.

Definition env_ok : Env := env_with (server_ok "in_review").

(** The same, while the main thread keeps the agent running. *)
Definition env_running (srv : World -> Request -> Reply) : Env :=
  mkEnv srv uuids shell_ok
    (fun w => mkWorld (trace w) (drawn w) (http_closed w) true (fs w))
    mcp_stub json_loads_stub Posix.

Definition the_task : Task :=
  mkTask "task-1" "proj-1" "Implement login endpoint" "Stub task" IN_PROGRESS MEDIUM
    (Some "agent-coder") None FEATURE "feature/login" [] "simulate_pipeline.py"
    "2025-01-01T00:00:00Z" "2025-01-01T00:05:00Z" (Some "2025-01-01T00:01:00Z") None.

Definition the_agent : BaseAgent :=
  mkBaseAgent "proj-1"
    (mkAgent "agent-coder" "proj-1" "coder" "Example Coder" ["go"; "python"] "example"
       "active" None "2025-01-01T00:00:00Z")
    "agent-coder" 30.

Definition the_example_agent : ExampleAgent.ExampleAgent :=
  ExampleAgent.mkExampleAgent the_agent (LocalTools.mkLocalTools ["repo"])
    (CodeNavigator.mkCodeNavigator ["repo"]) ["repo"].

(** A small repository. *)
Definition repo_fs : FS :=
  list_to_map
    [(["repo"], Dir true);
     (["repo"; "README.md"], File "# Project");
     (["repo"; ".git"], Dir true);
     (["repo"; ".git"; "HEAD"], File "ref: refs/heads/main");
     (["repo"; "src"], Dir true);
     (["repo"; "src"; "main.py"], File "print(1)");
     (["repo"; "src"; "pkg"], Dir true);
     (["repo"; "src"; "pkg"; "deep.py"], File "x = 1");
     (["repo"; "node_modules"], Dir true);
     (["repo"; "node_modules"; "left-pad.js"], File "");
     (["repo"; "locked"], Dir false);
     (["repo"; "a.txt"], File "a")].

(** A source file of four lines. *)
Definition source_fs : FS :=
  list_to_map
    [(["repo"], Dir true);
     (["repo"; "m.py"],
      File ("import os" +:+ String LF "def f(x):   " +:+ String LF "    return x"
            +:+ String LF "  class A:" +:+ String LF ""))].

(** A repository without dependencies or caches. *)
Definition clean_fs : FS :=
  list_to_map
    [(["repo"], Dir true);
     (["repo"; "README.md"], File "# Project");
     (["repo"; ".git"], Dir true);
     (["repo"; ".git"; "HEAD"], File "ref: refs/heads/main");
     (["repo"; "src"], Dir true);
     (["repo"; "src"; "main.py"], File "print(1)")].

(** A directory that lists itself, as a link to an ancestor does: a view
    without a bottom. *)
Definition loop_view : DirView :=
  {| dv_iterdir p := Ok [p ++ ["again"]]; dv_is_dir _ := true |}.

(** An orchestrator with one task of the coder that is in QA, and one task
    that is ready and free; a QA agent and a second coder own nothing. *)
Definition orchestrator : Orchestrator.State :=
  Orchestrator.mkState
    (list_to_map
       [("task-1", Orchestrator.mkTaskRec "task-1" "proj-1" Orchestrator.in_qa
                     (Some "agent-coder") (Some 3) None);
        ("task-2", Orchestrator.mkTaskRec "task-2" "proj-1" Orchestrator.ready
                     None None None)])
    (list_to_map
       [("agent-coder", Orchestrator.mkAgentRec "coder" 9 (Some "task-1"));
        ("agent-qa", Orchestrator.mkAgentRec "qa" 9 None);
        ("agent-coder-2", Orchestrator.mkAgentRec "coder" 9 None)])
    ∅ [] 3 10 30.

(** Two agents for [start]: one whose [run] returns, one whose [run]
    raises. *)
Inductive Idle := idle.
Inductive Crashing := crashing.

#[global] Instance Idle_impl : AgentImpl Idle :=
  {| base _ := the_agent; run _ := log INFO "nothing to do" |}.

#[global] Instance Crashing_impl : AgentImpl Crashing :=
  {| base _ := the_agent; run _ := raise (mkExc KeyboardInterrupt_ "") |}.

End Fixture.

(** ** The vocabulary of [types.py] *)

Lemma of_value_value_TaskStatus (s : TaskStatus) : of_value (value s) = Some s.
Proof. by destruct s. Qed.

Lemma of_value_value_PostType (p : PostType) : of_value (value p) = Some p.
Proof. by destruct p. Qed.

Lemma of_value_Some_TaskStatus (v : string) (s : TaskStatus) :
  of_value v = Some s -> v = value s.
Proof.
  unfold of_value. intros H. apply List.find_some in H as [_ H].
  by apply String.eqb_eq in H.
Qed.

Lemma of_wire_wire (s : Orchestrator.Status) :
  Orchestrator.of_wire (Orchestrator.wire s) = Some s.
Proof. by destruct s. Qed.

(** C1.  The SDK's [TaskStatus] is not the six-status lifecycle: it has the
    five values backlog, ready, in_progress, in_review and done; it has
    neither in_qa nor merged, so that [get_task] on a task that the
    pipeline has merged raises instead of returning the task. *)
Theorem TaskStatus_is_not_the_lifecycle :
  values TaskStatus = ["backlog"; "ready"; "in_progress"; "in_review"; "done"]
  /\ map Orchestrator.wire Orchestrator.statuses
     = ["backlog"; "ready"; "in_progress"; "in_qa"; "in_review"; "merged"]
  /\ of_value (E := TaskStatus) "in_qa" = None
  /\ of_value (E := TaskStatus) "merged" = None
  /\ of_value "done" = Some DONE
  /\ snd (AgentMeshClient.get_task "task-1"
            (Fixture.env_with (Fixture.server_ok "merged")) Fixture.w0)
     = Raise (mkExc ValidationError_ "status")
  /\ is_ok (snd (AgentMeshClient.get_task "task-1"
                   (Fixture.env_with (Fixture.server_ok "in_review")) Fixture.w0))
     = true.
Proof. repeat split; vm_compute; reflexivity. Qed.

(** C6.  The SDK's [PostType] has seven values, spelled with underscores,
    and none for review feedback, although the pipeline simulation posts
    [review_feedback] and reads it back: [list_messages] on such a thread
    raises. *)
Theorem PostType_lacks_review_feedback :
  values PostType
  = ["progress"; "blocker"; "help_wanted"; "decision"; "artifact"; "review_req"; "comment"]
  /\ of_value (E := PostType) "review_feedback" = None
  /\ posted_types (fst (SimulatePipeline.scenario_ownership_lock "http://localhost:8080"
                          "proj-1" Fixture.env_ok Fixture.w0))
     = ["review_feedback"]
  /\ snd (AgentMeshClient.list_messages "thread-1" Fixture.env_ok Fixture.w0)
     = Raise (mkExc ValidationError_ "post_type")
  /\ posted_types (fst (ExampleAgent._work_on_task Fixture.the_example_agent
                          Fixture.the_task Fixture.env_ok Fixture.w0))
     = ["progress"; "progress"; "progress"; "progress"; "progress"; "artifact"; "progress"].
Proof. repeat split; vm_compute; reflexivity. Qed.

(** ** The requests of [client.py] *)

Lemma sent_snoc (w w' : World) (req : Request) (rep : Reply) :
  trace w' = trace w ++ [EHttp req rep] -> sent w' = sent w ++ [req].
Proof. unfold sent. intros ->. by rewrite omap_app. Qed.

Lemma tokens_sent_snoc (w w' : World) (req : Request) (rep : Reply) (k : string) :
  trace w' = trace w ++ [EHttp req rep] ->
  header req AgentMeshClient.IDEMPOTENCY_HEADER = Some k ->
  tokens_sent w' = tokens_sent w ++ [k].
Proof.
  intros Ht H. unfold tokens_sent. rewrite (sent_snoc w w' req rep Ht), omap_app.
  cbn. by rewrite H.
Qed.

(** What one keyed request does to the world, whatever comes back. *)
Lemma keyed_request_world (env : Env) (w : World) (mk : string -> Request) :
  http_closed w = false ->
  (forall k, header (mk k) AgentMeshClient.IDEMPOTENCY_HEADER = Some k) ->
  let w' := fst ((key <- uuid4;; send (mk key)) env w) in
  tokens_sent w' = tokens_sent w ++ [uuid_source env (drawn w)]
  /\ drawn w' = S (drawn w)
  /\ http_closed w' = false.
Proof.
  intros Hopen Hk. destruct w as [t d c r f]. cbn in Hopen. subst c.
  unfold bind, uuid4, send, request. cbn.
  destruct (server env _ _) eqn:E; cbn;
    (split; [eapply tokens_sent_snoc; [reflexivity | apply Hk] | done]).
Qed.

(** What follows the request in the three operations only inspects the
    response. *)
Lemma keyed_call_world {B} (env : Env) (w : World) (mk : string -> Request)
  (k : Response -> M B) :
  (forall resp env w, fst (k resp env w) = w) ->
  fst ((key <- uuid4;; resp <- send (mk key);; k resp) env w)
  = fst ((key <- uuid4;; send (mk key)) env w).
Proof.
  intros Hk. unfold bind, uuid4. cbn.
  destruct (send _ env _) as [w' [resp | e]]; cbn; [apply Hk | done].
Qed.

Lemma update_task_status_world (env : Env) (w : World) (task_id : UUID)
  (from_status to_status : TaskStatus) :
  http_closed w = false ->
  let w' := fst (AgentMeshClient.update_task_status task_id from_status to_status env w) in
  tokens_sent w' = tokens_sent w ++ [uuid_source env (drawn w)]
  /\ drawn w' = S (drawn w)
  /\ http_closed w' = false.
Proof.
  intros Hopen. unfold AgentMeshClient.update_task_status.
  rewrite keyed_call_world by done.
  by apply keyed_request_world.
Qed.

Lemma post_message_world (env : Env) (w : World) (thread_id agent_id : UUID)
  (post_type : PostType) (content : string) :
  http_closed w = false ->
  let w' := fst (AgentMeshClient.post_message thread_id agent_id post_type content env w) in
  tokens_sent w' = tokens_sent w ++ [uuid_source env (drawn w)]
  /\ drawn w' = S (drawn w)
  /\ http_closed w' = false.
Proof.
  intros Hopen. unfold AgentMeshClient.post_message.
  rewrite keyed_call_world.
  - by apply keyed_request_world.
  - intros resp env' w'. unfold bind, lift. by destruct (raise_for_status resp).
Qed.

Lemma open_pr_world (env : Env) (w : World) (title body_ head base : string) :
  http_closed w = false ->
  let w' := fst (AgentMeshClient.open_pr title body_ head base env w) in
  tokens_sent w' = tokens_sent w ++ [uuid_source env (drawn w)]
  /\ drawn w' = S (drawn w)
  /\ http_closed w' = false.
Proof.
  intros Hopen. unfold AgentMeshClient.open_pr.
  rewrite keyed_call_world.
  - by apply keyed_request_world.
  - intros resp env' w'. unfold bind, lift. by destruct (raise_for_status resp).
Qed.

(** C3, as amended.  Each of the three operations sends one idempotency
    token, which is the next draw of [uuid4()] whatever the arguments are;
    a second invocation with the same arguments sends the draw after it. *)
Theorem idempotency_token_is_drawn_per_call (env : Env) (w : World)
  (Hopen : http_closed w = false) :
  (forall task_id from_status to_status,
     let once := AgentMeshClient.update_task_status task_id from_status to_status in
     tokens_sent (fst (once env w)) = tokens_sent w ++ [uuid_source env (drawn w)]
     /\ tokens_sent (fst (once env (fst (once env w))))
        = tokens_sent w ++ [uuid_source env (drawn w); uuid_source env (S (drawn w))])
  /\ (forall thread_id agent_id post_type content,
        let once := AgentMeshClient.post_message thread_id agent_id post_type content in
        tokens_sent (fst (once env w)) = tokens_sent w ++ [uuid_source env (drawn w)]
        /\ tokens_sent (fst (once env (fst (once env w))))
           = tokens_sent w ++ [uuid_source env (drawn w); uuid_source env (S (drawn w))])
  /\ (forall title body_ head base,
        let once := AgentMeshClient.open_pr title body_ head base in
        tokens_sent (fst (once env w)) = tokens_sent w ++ [uuid_source env (drawn w)]
        /\ tokens_sent (fst (once env (fst (once env w))))
           = tokens_sent w ++ [uuid_source env (drawn w); uuid_source env (S (drawn w))]).
Proof.
  split; [|split].
  - intros tid from_status to_status once. subst once.
    destruct (update_task_status_world env w tid from_status to_status Hopen)
      as (H1 & H2 & H3).
    split; [done|].
    destruct (update_task_status_world env _ tid from_status to_status H3)
      as (H4 & _ & _).
    rewrite H4, H1, H2, <- app_assoc. done.
  - intros thread aid ptype text once. subst once.
    destruct (post_message_world env w thread aid ptype text Hopen) as (H1 & H2 & H3).
    split; [done|].
    destruct (post_message_world env _ thread aid ptype text H3) as (H4 & _ & _).
    rewrite H4, H1, H2, <- app_assoc. done.
  - intros t b h base_ once. subst once.
    destruct (open_pr_world env w t b h base_ Hopen) as (H1 & H2 & H3).
    split; [done|].
    destruct (open_pr_world env _ t b h base_ H3) as (H4 & _ & _).
    rewrite H4, H1, H2, <- app_assoc. done.
Qed.

Lemma idempotency_token_is_drawn_per_call_witness :
  http_closed Fixture.w0 = false
  /\ tokens_sent
       (fst (AgentMeshClient.update_task_status "task-1" IN_PROGRESS IN_REVIEW
               Fixture.env_ok
               (fst (AgentMeshClient.update_task_status "task-1" IN_PROGRESS IN_REVIEW
                       Fixture.env_ok Fixture.w0))))
     = tokens_sent Fixture.w0
       ++ [uuid_source Fixture.env_ok (drawn Fixture.w0);
           uuid_source Fixture.env_ok (S (drawn Fixture.w0))].
Proof.
  split; [reflexivity|].
  apply (idempotency_token_is_drawn_per_call Fixture.env_ok Fixture.w0 eq_refl).
Defined.

(** C3 as stated fails: the retry of an [update_task_status] call carries
    another token than the first attempt. *)
Lemma retry_sends_another_token :
  let once := AgentMeshClient.update_task_status "task-1" IN_PROGRESS IN_REVIEW
                Fixture.env_ok in
  exists k1 k2, tokens_sent (fst (once (fst (once Fixture.w0)))) = [k1; k2] /\ k1 <> k2.
Proof. exists "uuid-0", "uuid-1". split; [vm_compute; reflexivity | discriminate]. Qed.

(** ** What [update_task_status] gives back *)

Lemma update_task_status_outcome (env : Env) (w : World) (task_id : UUID)
  (from_status to_status : TaskStatus) :
  http_closed w = false ->
  exists req,
    let w1 := mkWorld (trace w) (S (drawn w)) false (running w) (fs w) in
    let rep := server env w1 req in
    AgentMeshClient.update_task_status task_id from_status to_status env w
    = (mkWorld (trace w ++ [EHttp req rep]) (S (drawn w)) false (running w) (fs w),
       match rep with
       | Responds r => raise_for_status r
       | Fails msg => Raise (mkExc TransportError_ msg)
       end).
Proof.
  intros Hopen. destruct w as [t d c r f]. cbn in Hopen. subst c.
  exists (mkRequest PATCH ("/api/tasks/" +:+ task_id) []
            (Some (JObj [("status_from", JStr (value from_status));
                         ("status_to", JStr (value to_status))]))
            [(AgentMeshClient.IDEMPOTENCY_HEADER, uuid_source env d)]).
  unfold AgentMeshClient.update_task_status, bind, uuid4, send, request, lift.
  cbn. destruct (server env _ _); reflexivity.
Qed.

(** C5, as amended.  When the server answers a status change with a 2xx
    response, [update_task_status] returns [None] and leaves the snapshot
    in the response body unread; on a 4xx or 5xx response it raises
    [HTTPStatusError]. *)
Theorem update_task_status_returns_None (env : Env) (w : World) (task_id : UUID)
  (from_status to_status : TaskStatus) (resp : Response)
  (Hopen : http_closed w = false)
  (Hserver : forall w' req, server env w' req = Responds resp) :
  let out := AgentMeshClient.update_task_status task_id from_status to_status env w in
  last_response (fst out) = Some resp
  /\ (200 <= status_code resp <= 299 -> snd out = Ok tt)
  /\ (400 <= status_code resp <= 599 ->
      snd out = Raise (mkExc HTTPStatusError_ "error response")).
Proof.
  destruct (update_task_status_outcome env w task_id from_status to_status Hopen)
    as [req Heq].
  cbn in Heq. rewrite Hserver in Heq. cbn. rewrite Heq. cbn.
  split; [|split].
  - unfold last_response. cbn. by rewrite last_last.
  - intros [H1 H2]. unfold raise_for_status.
    apply Z.leb_le in H1, H2. by rewrite H1, H2.
  - intros Hn. unfold raise_for_status.
    destruct (200 <=? status_code resp) eqn:E1;
      destruct (status_code resp <=? 299) eqn:E2; cbn; try reflexivity.
    apply Z.leb_le in E1, E2. lia.
Qed.

Lemma update_task_status_returns_None_witness :
  http_closed Fixture.w0 = false
  /\ 200 <= 200 <= 299
  /\ snd (AgentMeshClient.update_task_status "task-1" IN_PROGRESS IN_REVIEW
            (Fixture.env_with (fun _ _ =>
               Responds (mkResponse 200 (Fixture.task_json "in_review"))))
            Fixture.w0) = Ok tt.
Proof.
  split; [reflexivity|]. split; [lia|].
  apply (update_task_status_returns_None
           (Fixture.env_with (fun _ _ =>
              Responds (mkResponse 200 (Fixture.task_json "in_review"))))
           Fixture.w0 "task-1" IN_PROGRESS IN_REVIEW
           (mkResponse 200 (Fixture.task_json "in_review")) eq_refl
           (fun _ _ => eq_refl)).
  cbn. lia.
Defined.

(** C5 as stated fails: two status changes that succeed with different
    snapshots give the caller the same value, so the value is not the
    snapshot. *)
Lemma update_task_status_result_is_not_the_snapshot :
  ~ exists snapshot : unit -> Task,
      forall env from_status to_status w r resp,
        AgentMeshClient.update_task_status "task-1" from_status to_status env Fixture.w0
        = (w, Ok r) ->
        last_response w = Some resp ->
        Task_of_json (body resp) = Ok (snapshot r).
Proof.
  intros [snapshot H].
  pose proof (H (Fixture.env_with (Fixture.server_ok "in_review")) IN_PROGRESS IN_REVIEW
                _ tt _ eq_refl eq_refl) as H1.
  pose proof (H (Fixture.env_with (Fixture.server_ok "in_progress")) READY IN_PROGRESS
                _ tt _ eq_refl eq_refl) as H2.
  vm_compute in H1, H2. congruence.
Qed.

(** ** The status changes that are requested *)

(** The SDK passes the pair on as it is given. *)
Lemma update_task_status_requests (env : Env) (w : World) (task_id : UUID)
  (from_status to_status : TaskStatus) :
  http_closed w = false ->
  requested_edges (fst (AgentMeshClient.update_task_status task_id from_status
                          to_status env w))
  = requested_edges w ++ [(value from_status, value to_status)].
Proof.
  intros Hopen.
  destruct (update_task_status_outcome env w task_id from_status to_status Hopen)
    as [req Heq].
  unfold AgentMeshClient.update_task_status, bind, uuid4, send, request, lift.
  destruct w as [t d c r f]. cbn in Hopen. subst c. cbn.
  unfold requested_edges.
  destruct (server env _ _) as [resp|msg]; cbn;
    [destruct (raise_for_status resp)|]; cbn; by rewrite omap_app.
Qed.

Lemma requested_edges_snoc (w w' : World) (ev : Event) :
  trace w' = trace w ++ [ev] -> requested_edge ev = None ->
  requested_edges w' = requested_edges w.
Proof.
  intros Ht He. unfold requested_edges. rewrite Ht, omap_app. cbn. rewrite He.
  by rewrite app_nil_r.
Qed.

Lemma quiet_ret {A} (a : A) : quiet (ret a).
Proof. by intros env w. Qed.

Lemma quiet_lift {A} (r : Result A) : quiet (lift r).
Proof. by intros env w. Qed.

Lemma quiet_bind {A B} (m : M A) (k : A -> M B) :
  quiet m -> (forall a, quiet (k a)) -> quiet (bind m k).
Proof.
  intros Hm Hk env w. unfold bind. specialize (Hm env w).
  destruct (m env w) as [w' [a|e]]; cbn in *; [|done].
  by rewrite Hk.
Qed.

Lemma quiet_try_except {A} (m : M A) (C : ExcClass) (h : Exc -> M A) :
  quiet m -> (forall e, quiet (h e)) -> quiet (try_except m C h).
Proof.
  intros Hm Hh env w. unfold try_except. specialize (Hm env w).
  destruct (m env w) as [w' [a|e]]; cbn [fst] in *; [done|].
  destruct (isinstance e C); cbn [fst]; [|done]. by rewrite Hh.
Qed.

Lemma quiet_emit (ev : Event) : requested_edge ev = None -> quiet (emit ev).
Proof. intros He env w. by eapply requested_edges_snoc. Qed.

Lemma quiet_log (level : Level) (msg : string) : quiet (log level msg).
Proof. by apply quiet_emit. Qed.

Lemma quiet_uuid4 : quiet uuid4.
Proof. by intros env w. Qed.

Lemma quiet_send (req : Request) : method req <> PATCH -> quiet (send req).
Proof.
  intros Hm env w. unfold send, request. destruct (http_closed w); [done|].
  assert (requested_edge (EHttp req (server env w req)) = None) as He.
  { destruct req as [[] u p j h]; cbn in *; congruence. }
  destruct (server env w req) eqn:Es; cbn; by eapply requested_edges_snoc.
Qed.

Lemma quiet_post_update (self : BaseAgent) (thread_id : UUID) (content : string)
  (post_type : PostType) : quiet (post_update self thread_id content post_type).
Proof.
  unfold post_update, AgentMeshClient.post_message.
  apply quiet_bind; [apply quiet_uuid4 | intros key].
  apply quiet_bind; [by apply quiet_send | intros resp].
  apply quiet_bind; [apply quiet_lift | intros _]. apply quiet_lift.
Qed.

Lemma quiet_open_pr (title body_ head base : string) :
  quiet (AgentMeshClient.open_pr title body_ head base).
Proof.
  unfold AgentMeshClient.open_pr.
  apply quiet_bind; [apply quiet_uuid4 | intros key].
  apply quiet_bind; [by apply quiet_send | intros resp].
  apply quiet_bind; [apply quiet_lift | intros _]. apply quiet_lift.
Qed.

Lemma quiet_run_shell (self : LocalTools.LocalTools) (cmd : string) (timeout : Z) :
  quiet (LocalTools.run_shell self cmd timeout).
Proof.
  intros env w. unfold LocalTools.run_shell.
  destruct (shell env w _ cmd timeout); cbn; by eapply requested_edges_snoc.
Qed.

Lemma quiet_tools_read_file (t : LocalTools.LocalTools) (path : Path) :
  quiet (ExampleAgent.tools_read_file t path).
Proof. by intros env w. Qed.

Lemma quiet_tools_write_file (t : LocalTools.LocalTools) (path : Path) (content : string) :
  quiet (ExampleAgent.tools_write_file t path content).
Proof.
  intros env w. unfold ExampleAgent.tools_write_file.
  by destruct (LocalTools.write_file _ _ _ _ _).
Qed.

Lemma quiet_nav_get_tree (n : CodeNavigator.CodeNavigator) (path : Path) (depth : Z) :
  quiet (ExampleAgent.nav_get_tree n path depth).
Proof.
  intros env w. unfold ExampleAgent.nav_get_tree.
  by destruct (CodeNavigator.get_tree _ _ _ _ _).
Qed.

Lemma only_quiet {A} (e : string * string) (m : M A) : quiet m -> only e m.
Proof. intros Hm env w. left. apply Hm. Qed.

Lemma only_bind_l {A B} (e : string * string) (m : M A) (k : A -> M B) :
  quiet m -> (forall a, only e (k a)) -> only e (bind m k).
Proof.
  intros Hm Hk env w. unfold bind. specialize (Hm env w).
  destruct (m env w) as [w' [a|x]]; cbn in *; [|by left].
  rewrite <- Hm. apply Hk.
Qed.

Lemma only_bind_r {A B} (e : string * string) (m : M A) (k : A -> M B) :
  only e m -> (forall a, quiet (k a)) -> only e (bind m k).
Proof.
  intros Hm Hk env w. unfold bind. specialize (Hm env w).
  destruct (m env w) as [w' [a|x]]; cbn in *; [|done].
  by rewrite Hk.
Qed.

Lemma only_try_except {A} (e : string * string) (m : M A) (C : ExcClass)
  (h : Exc -> M A) :
  only e m -> (forall x, quiet (h x)) -> only e (try_except m C h).
Proof.
  intros Hm Hh env w. unfold try_except. specialize (Hm env w).
  destruct (m env w) as [w' [a|x]]; cbn [fst] in *; [done|].
  destruct (isinstance x C); cbn [fst]; [|done]. by rewrite Hh.
Qed.

Lemma only_update_task_status (task_id : UUID) (from_status to_status : TaskStatus) :
  only (value from_status, value to_status)
    (AgentMeshClient.update_task_status task_id from_status to_status).
Proof.
  intros env w. destruct (http_closed w) eqn:Hc.
  - left. unfold AgentMeshClient.update_task_status, bind, uuid4, send. cbn.
    by rewrite Hc.
  - right. by apply update_task_status_requests.
Qed.

Create HintDb quiet.

#[local] Hint Resolve quiet_ret quiet_lift quiet_log quiet_uuid4 quiet_post_update
  quiet_open_pr quiet_run_shell quiet_tools_read_file quiet_tools_write_file
  quiet_nav_get_tree : quiet.

(** Walks through a computation that requests nothing. *)
Ltac quiet_step :=
  match goal with
  | |- quiet (bind _ _) => apply quiet_bind; [|intros ?]
  | |- quiet (try_except _ _ _) => apply quiet_try_except; [|intros ?]
  | |- quiet (if ?b then _ else _) => destruct b
  | |- quiet (let '(_, _) := ?r in _) => destruct r
  | |- quiet (send _) => by apply quiet_send
  | |- quiet (LocalTools.git_branch _ _) => apply quiet_run_shell
  | |- quiet (LocalTools.git_commit _ _) => apply quiet_run_shell
  | |- quiet (LocalTools.git_push _ _) => apply quiet_run_shell
  | |- quiet _ => solve [auto with quiet]
  end.

(** Whatever the environment does, [_work_on_task] requests at most one
    status change, and only the edge in_progress -> in_review. *)
Lemma _work_on_task_only (self : ExampleAgent.ExampleAgent) (task : Task) :
  only ("in_progress", "in_review") (ExampleAgent._work_on_task self task).
Proof.
  unfold ExampleAgent._work_on_task.
  apply only_bind_l; [repeat quiet_step | intros _].
  apply only_bind_l; [repeat quiet_step | intros threads].
  destruct (negb _); [apply only_quiet; repeat quiet_step|].
  apply only_bind_l; [repeat quiet_step | intros thread_id].
  apply only_bind_l; [repeat quiet_step | intros _].
  apply only_bind_l; [repeat quiet_step | intros tree].
  apply only_bind_l; [repeat quiet_step | intros _].
  apply only_bind_l; [repeat quiet_step | intros [output code]].
  destruct (_ && _); [apply only_quiet; repeat quiet_step|].
  apply only_bind_l; [repeat quiet_step | intros _].
  apply only_bind_l; [repeat quiet_step | intros _].
  apply only_bind_l; [repeat quiet_step | intros [output2 code2]].
  destruct (negb _); [apply only_quiet; repeat quiet_step|].
  apply only_bind_l; [repeat quiet_step | intros _].
  apply only_bind_l; [repeat quiet_step | intros [output3 code3]].
  destruct (negb _); [apply only_quiet; repeat quiet_step|].
  apply only_bind_l; [repeat quiet_step | intros _].
  apply only_bind_l; [repeat quiet_step | intros opened].
  destruct opened; [|apply only_quiet; repeat quiet_step].
  apply only_bind_r; [|intros _; repeat quiet_step].
  apply only_try_except; [|intros e; repeat quiet_step].
  apply only_bind_r; [|intros _; repeat quiet_step].
  apply (only_update_task_status (task_id task) IN_PROGRESS IN_REVIEW).
Qed.

(** C4.  The example agent asks for the edge in_progress -> in_review and
    for no other, and that is not an edge of the lifecycle (the pipeline
    simulation goes through in_qa, along permitted edges only). *)
Theorem example_agent_requests_a_forbidden_edge :
  (forall self task env w,
     let w' := fst (ExampleAgent._work_on_task self task env w) in
     requested_edges w' = requested_edges w
     \/ requested_edges w' = requested_edges w ++ [("in_progress", "in_review")])
  /\ requested_edges (fst (ExampleAgent._work_on_task Fixture.the_example_agent
                             Fixture.the_task Fixture.env_ok Fixture.w0))
     = [("in_progress", "in_review")]
  /\ permitted_wire ("in_progress", "in_review") = false
  /\ requested_edges (fst (SimulatePipeline.scenario_ownership_lock
                             "http://localhost:8080" "proj-1" Fixture.env_ok Fixture.w0))
     = [("backlog", "ready"); ("ready", "in_progress"); ("in_progress", "in_qa");
        ("in_qa", "in_progress")]
  /\ forallb permitted_wire
       [("backlog", "ready"); ("ready", "in_progress"); ("in_progress", "in_qa");
        ("in_qa", "in_review"); ("in_qa", "in_progress"); ("in_review", "merged");
        ("in_review", "in_progress")] = true.
Proof.
  split; [intros self task env w; apply _work_on_task_only|].
  repeat split; vm_compute; reflexivity.
Qed.

(** ** The heartbeat loop of [base.py] *)

Lemma raise_for_status_Exception (r : Response) (e : Exc) :
  raise_for_status r = Raise e -> isinstance e Exception_ = true.
Proof.
  unfold raise_for_status. destruct (_ && _); [discriminate|].
  intros [= <-]. reflexivity.
Qed.

(** Whatever [client.heartbeat] raises is an [Exception]. *)
Lemma heartbeat_raises_Exception (agent_id : UUID) (env : Env) (w w' : World) (e : Exc) :
  AgentMeshClient.heartbeat agent_id env w = (w', Raise e) ->
  isinstance e Exception_ = true.
Proof.
  unfold AgentMeshClient.heartbeat, bind, send, request, lift.
  destruct (http_closed w).
  - intros [= _ <-]. reflexivity.
  - destruct (server env w _) as [resp|msg].
    + intros [= _ H]. by apply raise_for_status_Exception in H.
    + intros [= _ <-]. reflexivity.
Qed.

(** Counting the events of a trace that grew by explicit events. *)
Ltac count_events :=
  unfold sleeps, warnings, answered_ok; cbn;
  rewrite ?List.filter_app, ?length_app; cbn.

(** One guarded heartbeat: it never raises; it either was answered with a
    2xx response, or it logged one warning. *)
Lemma guarded_heartbeat (agent_id : UUID) (env : Env) (w : World) :
  exists w',
    try_except (AgentMeshClient.heartbeat agent_id) Exception_
      (fun e => log WARNING ("Heartbeat failed: " +:+ exc_msg e)) env w = (w', Ok tt)
    /\ running w' = running w
    /\ sleeps w' = sleeps w
    /\ (warnings w' + answered_ok w' = S (warnings w + answered_ok w))%nat.
Proof.
  unfold try_except.
  destruct (AgentMeshClient.heartbeat agent_id env w) as [w1 [[]|e]] eqn:E.
  - exists w1. split; [done|].
    revert E. unfold AgentMeshClient.heartbeat, bind, send, request, lift.
    destruct (http_closed w); [discriminate|].
    destruct (server env w _) as [resp|msg] eqn:Es; [|discriminate].
    intros [= <- Hr]. count_events. rewrite Hr. cbn. split; [done|lia].
  - rewrite (heartbeat_raises_Exception _ _ _ _ _ E).
    eexists. split; [reflexivity|].
    revert E. unfold AgentMeshClient.heartbeat, bind, send, request, lift.
    destruct (http_closed w).
    + intros [= <- _]. count_events. split; [done|lia].
    + destruct (server env w _) as [resp|msg] eqn:Es.
      * intros [= <- Hr]. count_events. rewrite Hr. cbn. split; [done|lia].
      * intros [= <- _]. count_events. split; [done|lia].
Qed.

(** C7.  The heartbeat loop never raises, whatever the server and the other
    threads do: a heartbeat that fails is logged as a warning and the loop
    goes on to sleep and to the next iteration.  It returns only when it
    finds [_running] false; as long as [_running] is found true, each of
    the [fuel] iterations ends in its sleep, after a heartbeat that was
    either answered with a 2xx response or logged. *)
Theorem heartbeat_loop_never_raises (fuel : nat) (self : BaseAgent) (env : Env)
  (w : World) :
  exists w' r,
    _heartbeat_loop fuel self env w = (w', Ok r)
    /\ (r = Some tt -> running w' = false)
    /\ ((forall w0, running (interleave env w0) = true) ->
        r = None
        /\ sleeps w' = (sleeps w + fuel)%nat
        /\ (warnings w' + answered_ok w' = warnings w + answered_ok w + fuel)%nat).
Proof.
  revert w. induction fuel as [|fuel IH]; intros w.
  - exists w, None. cbn. split; [done|]. split; [discriminate|]. intros _.
    repeat split; lia.
  - cbn [_heartbeat_loop]. unfold bind at 1. unfold yield at 1.
    unfold bind at 1. unfold get_running at 1. cbn [running].
    destruct (running (interleave env w)) eqn:Hrun.
    + set (w1 := mkWorld _ _ _ _ _).
      unfold bind at 1, yield at 1. cbv beta iota.
      set (w2 := mkWorld _ _ _ _ _).
      unfold bind at 1.
      destruct (guarded_heartbeat (agent_id self) env w2) as (w3 & -> & Hr3 & Hs3 & Hc3).
      cbv beta iota. unfold bind at 1, sleep at 1, emit at 1. cbv beta iota.
      set (w4 := mkWorld _ _ _ _ _).
      destruct (IH w4) as (w' & r & -> & Hret & Hgo).
      exists w', r. split; [done|]. split; [done|].
      intros Halways. destruct (Hgo Halways) as (-> & Hs & Hc).
      split; [done|].
      assert (sleeps w4 = S (sleeps w3)) as Hs4.
      { unfold sleeps, w4. cbn. rewrite List.filter_app, length_app. cbn. lia. }
      assert (warnings w4 = warnings w3 /\ answered_ok w4 = answered_ok w3) as [Hw4 Ha4].
      { unfold warnings, answered_ok, w4. cbn.
        rewrite !List.filter_app, !length_app. cbn. lia. }
      assert (sleeps w2 = sleeps w) as Hs2 by reflexivity.
      assert (warnings w2 = warnings w /\ answered_ok w2 = answered_ok w) as [Hw2 Ha2]
        by (split; reflexivity).
      lia.
    + eexists _, (Some tt). split; [reflexivity|]. split.
      * intros _. reflexivity.
      * intros Halways. rewrite Halways in Hrun. discriminate.
Qed.

Lemma heartbeat_loop_never_raises_witness :
  exists w' r,
    _heartbeat_loop 3 Fixture.the_agent (Fixture.env_running Fixture.server_404)
      Fixture.w0 = (w', Ok r)
    /\ r = None /\ sleeps w' = 3%nat /\ (warnings w' + answered_ok w' = 3)%nat.
Proof.
  destruct (heartbeat_loop_never_raises 3 Fixture.the_agent
              (Fixture.env_running Fixture.server_404) Fixture.w0)
    as (w' & r & Heq & _ & Hgo).
  exists w', r. split; [exact Heq|].
  destruct (Hgo (fun _ => eq_refl)) as (Hr & Hs & Hc).
  split; [exact Hr|]. split; [exact Hs | exact Hc].
Defined.

(** An agent that the registry does not know: every heartbeat is logged. *)
Example heartbeat_loop_unknown_agent :
  let out := _heartbeat_loop 2 Fixture.the_agent (Fixture.env_running Fixture.server_404)
               Fixture.w0 in
  snd out = Ok None /\ warnings (fst out) = 2%nat /\ sleeps (fst out) = 2%nat
  /\ List.last (trace (fst out)) EClose = ESleep 30000.
Proof. vm_compute. repeat split. Qed.

(** ** [start] and [stop] *)

(** C8.  [start] ends with [stop], whether [run] returns or raises: the
    events of [stop] follow those of [run], [_running] is false and the
    HTTP client is closed afterwards, and the outcome of [run] is the
    outcome of [start]. *)
Theorem start_always_stops {T} `{AgentImpl T} (self : T) (env : Env) (w : World) :
  let name := agent_name (agent (base self)) in
  let started :=
    mkWorld (trace w ++ [EThreadStart "_heartbeat_loop"]
                     ++ [ELog INFO ("Agent " +:+ name +:+ " (" +:+ agent_id (base self)
                                    +:+ ") started")])
      (drawn w) (http_closed w) true (fs w) in
  let ran := run self env started in
  start self env w
  = (mkWorld (trace (fst ran) ++ [EClose] ++ [ELog INFO ("Agent " +:+ name +:+ " stopped")])
       (drawn (fst ran)) true false (fs (fst ran)),
     snd ran)
  /\ running (fst (start self env w)) = false
  /\ http_closed (fst (start self env w)) = true.
Proof.
  intros name started ran.
  assert (start self env w
          = (mkWorld (trace (fst ran) ++ [EClose]
                        ++ [ELog INFO ("Agent " +:+ name +:+ " stopped")])
               (drawn (fst ran)) true false (fs (fst ran)), snd ran)) as Heq.
  { unfold start, bind, set_running, emit, log, emit, try_finally. cbn.
    rewrite <- app_assoc. fold name started ran.
    destruct ran as [w1 r]. cbn.
    unfold stop, bind, set_running, AgentMeshClient.close, http_close, log, emit. cbn.
    by rewrite <- app_assoc. }
  rewrite Heq. done.
Qed.

Example start_stops_after_return :
  let out := start Fixture.idle Fixture.env_ok Fixture.w0 in
  snd out = Ok tt /\ running (fst out) = false /\ http_closed (fst out) = true
  /\ List.last (trace (fst out)) EClose = ELog INFO "Agent Example Coder stopped".
Proof. vm_compute. repeat split. Qed.

Example start_stops_after_exception :
  let out := start Fixture.crashing Fixture.env_ok Fixture.w0 in
  snd out = Raise (mkExc KeyboardInterrupt_ "")
  /\ running (fst out) = false /\ http_closed (fst out) = true
  /\ List.last (trace (fst out)) EClose = ELog INFO "Agent Example Coder stopped".
Proof. vm_compute. repeat split. Qed.

(** ** Writing a file and reading it back *)

Lemma join_readlines (s : string) : join_lines (readlines s) = s.
Proof.
  unfold join_lines. induction s as [|c s IH]; [done|].
  cbn [readlines]. destruct (Ascii.eqb c LF).
  - cbn. by rewrite IH.
  - destruct (readlines s) as [|l ls]; cbn in *; by rewrite <- IH.
Qed.

Lemma slice_all {A} (l : list A) : slice l 0 (Z.of_nat (length l)) = l.
Proof.
  unfold slice, slice_index. cbn.
  destruct (Z.of_nat (length l) <? 0) eqn:E; [apply Z.ltb_lt in E; lia|].
  rewrite Z.min_id, Z.min_l by lia. cbn.
  rewrite Z.sub_0_r, Nat2Z.id. by rewrite firstn_all.
Qed.

Lemma translate_in_LF (s : string) :
  translate_in (String LF s) = String LF (translate_in s).
Proof. reflexivity. Qed.

Lemma translate_in_CRLF (s : string) :
  translate_in (String CR (String LF s)) = String LF (translate_in s).
Proof. reflexivity. Qed.

Lemma translate_out_LF (pf : Platform) (s : string) :
  translate_out pf (String LF s)
  = match pf with
    | Posix => String LF (translate_out pf s)
    | Windows => String CR (String LF (translate_out pf s))
    end.
Proof. by destruct pf. Qed.

(** Without a carriage return in the text, the translation on input
    undoes the translation on output, on either platform. *)
Lemma translate_in_out (pf : Platform) (s : string) :
  has_CR s = false -> translate_in (translate_out pf s) = s.
Proof.
  induction s as [|c s IH]; [done|].
  cbn [has_CR]. intros H. apply orb_false_elim in H as [Hc Hs].
  destruct (Ascii.eqb c LF) eqn:E.
  - apply Ascii.eqb_eq in E. subst c. rewrite translate_out_LF.
    destruct pf; [rewrite translate_in_LF | rewrite translate_in_CRLF]; by rewrite IH.
  - cbn [translate_out]. rewrite E. cbn [translate_in]. rewrite Hc. by rewrite IH.
Qed.

Lemma translate_out_Posix (s : string) : translate_out Posix s = s.
Proof.
  induction s as [|c s IH]; [done|].
  destruct (Ascii.eqb c LF) eqn:E.
  - apply Ascii.eqb_eq in E. subst c. by rewrite translate_out_LF, IH.
  - cbn [translate_out]. by rewrite E, IH.
Qed.

(** After a successful [open(p, "w")], [p] is a file with the translated
    text. *)
Lemma open_write_node (pf : Platform) (fs fs' : FS) (p : Path) (content : string) :
  open_write pf fs p content = (fs', Ok tt) ->
  node fs' p = Some (File (translate_out pf content)).
Proof.
  unfold open_write.
  destruct p as [|n p'].
  - cbn. discriminate.
  - set (p := n :: p').
    destruct (node fs p) as [[data|l]|]; try discriminate;
      destruct (node fs (parent p)) as [[data'|l']|]; try discriminate;
      intros [= <-]; unfold node, p; by rewrite lookup_insert_eq.
Qed.

Lemma write_file_node (pf : Platform) (fs fs' : FS) (self : LocalTools.LocalTools)
  (path : Path) (content : string) :
  LocalTools.write_file pf fs self path content = (fs', Ok tt) ->
  node fs' (joinpath (LocalTools.working_dir self) path)
  = Some (File (translate_out pf content)).
Proof.
  unfold LocalTools.write_file.
  destruct (mkdir_parents fs _) as [fs1 [[]|e]]; [|discriminate].
  apply open_write_node.
Qed.

(** What [read_file] with the default bounds gives right after a
    successful [write_file]: the text after both translations. *)
Lemma read_after_write (pf : Platform) (fs fs' : FS) (self : LocalTools.LocalTools)
  (path : Path) (content : string) :
  LocalTools.write_file pf fs self path content = (fs', Ok tt) ->
  LocalTools.read_file fs' self path 0 None
  = Ok (translate_in (translate_out pf content)).
Proof.
  intros H. apply write_file_node in H.
  unfold LocalTools.read_file, open_read. rewrite H. cbn.
  by rewrite slice_all, join_readlines.
Qed.

(** C9, as amended.  When [write_file(p, c)] succeeds and [c] has no
    carriage return, [read_file(p)] with the default bounds returns [c],
    on either platform. *)
Theorem read_file_after_write_file (pf : Platform) (fs fs' : FS)
  (self : LocalTools.LocalTools) (path : Path) (content : string)
  (Hwritten : LocalTools.write_file pf fs self path content = (fs', Ok tt))
  (Hplain : has_CR content = false) :
  LocalTools.read_file fs' self path 0 None = Ok content.
Proof.
  rewrite (read_after_write pf fs fs' self path content Hwritten).
  by rewrite translate_in_out.
Qed.

Lemma read_file_after_write_file_witness :
  let tools := LocalTools.mkLocalTools ["repo"] in
  let text := "# Project" +:+ String LF "Task: login" in
  LocalTools.read_file (fst (LocalTools.write_file Windows ∅ tools ["docs"; "README.md"] text))
    tools ["docs"; "README.md"] 0 None = Ok text.
Proof.
  intros tools text.
  apply (read_file_after_write_file Windows ∅ _ tools ["docs"; "README.md"] text).
  - vm_compute. reflexivity.
  - reflexivity.
Defined.

(** When [write_file] succeeds: the path is not empty, none of its proper
    prefixes is a file, and it is not itself a directory. *)
Lemma mkdir_from_ok (todo : list string) :
  forall (fs : FS) (done : Path),
    (forall k d, (0 < k <= length todo)%nat ->
                 node fs (done ++ take k todo) <> Some (File d)) ->
    exists fs',
      mkdir_from fs done todo = (fs', Ok tt)
      /\ (forall q, (forall k, (0 < k <= length todo)%nat -> q <> done ++ take k todo) ->
                    fs' !! q = fs !! q)
      /\ (forall k, (0 < k <= length todo)%nat ->
                    exists l, node fs' (done ++ take k todo) = Some (Dir l)).
Proof.
  induction todo as [|n rest IH]; intros fs done Hfree.
  - exists fs. cbn. split; [done|]. split; [done|]. intros k Hk. lia.
  - cbn [mkdir_from].
    assert (forall k, done ++ take (S k) (n :: rest) = (done ++ [n]) ++ take k rest) as Hshift.
    { intros k. cbn. by rewrite <- app_assoc. }
    assert (forall k, (done ++ [n]) ++ take k rest <> []) as Hne.
    { intros k. destruct done; discriminate. }
    assert (forall (m : FS) k, node m ((done ++ [n]) ++ take k rest)
                               = m !! ((done ++ [n]) ++ take k rest)) as Hnode.
    { intros m k. unfold node. specialize (Hne k).
      by destruct ((done ++ [n]) ++ take k rest). }
    assert (forall m : FS, node m (done ++ [n]) = m !! (done ++ [n])) as Hnode0.
    { intros m. specialize (Hnode m 0%nat). by rewrite take_0, app_nil_r in Hnode. }
    assert (forall k, (0 < k <= length rest)%nat ->
                      done ++ [n] <> (done ++ [n]) ++ take k rest) as Hlonger.
    { intros k Hk Habs. apply (f_equal length) in Habs.
      rewrite !length_app, length_take in Habs. cbn in Habs. lia. }
    pose proof (Hfree 1%nat) as Hfirst. rewrite Hshift, take_0, app_nil_r in Hfirst.
    destruct (node fs (done ++ [n])) as [[d|l]|] eqn:Hp.
    + exfalso. apply (Hfirst d); [cbn; lia | done].
    + destruct (IH fs (done ++ [n])) as (fs' & Heq & Hsame & Hdirs).
      { intros k d Hk. rewrite <- Hshift. apply Hfree. cbn. lia. }
      exists fs'. split; [done|]. split.
      * intros q Hq. apply Hsame. intros k Hk. rewrite <- Hshift. apply Hq. cbn. lia.
      * intros [|[|k]] Hk; [lia | | ].
        -- exists l. rewrite Hshift, take_0, app_nil_r, Hnode0, Hsame by done.
           by rewrite <- Hnode0.
        -- rewrite Hshift. apply Hdirs. cbn in Hk. lia.
    + destruct (IH (<[done ++ [n] := Dir true]> fs) (done ++ [n]))
        as (fs' & Heq & Hsame & Hdirs).
      { intros k d Hk. rewrite Hnode, lookup_insert_ne by auto.
        rewrite <- Hnode, <- Hshift. apply Hfree. cbn. lia. }
      exists fs'. split; [done|]. split.
      * intros q Hq. rewrite Hsame.
        -- apply lookup_insert_ne. specialize (Hq 1%nat).
           rewrite Hshift, take_0, app_nil_r in Hq.
           intros Habs. apply Hq; [cbn; lia | done].
        -- intros k Hk. rewrite <- Hshift. apply Hq. cbn. lia.
      * intros [|[|k]] Hk; [lia | | ].
        -- exists true. rewrite Hshift, take_0, app_nil_r, Hnode0, Hsame by done.
           by rewrite lookup_insert_eq.
        -- rewrite Hshift. apply Hdirs. cbn in Hk. lia.
Qed.

Lemma write_file_succeeds (pf : Platform) (fs : FS) (self : LocalTools.LocalTools)
  (path : Path) (content : string) :
  let full_path := joinpath (LocalTools.working_dir self) path in
  full_path <> [] ->
  (forall k d, (0 < k < length full_path)%nat ->
               node fs (take k full_path) <> Some (File d)) ->
  (forall l, node fs full_path <> Some (Dir l)) ->
  exists fs', LocalTools.write_file pf fs self path content = (fs', Ok tt).
Proof.
  intros full_path Hne Hprefixes Hnodir. unfold LocalTools.write_file.
  fold full_path. unfold mkdir_parents.
  destruct (exists_last Hne) as (par & n & Hfull).
  assert (parent full_path = par) as Hpar.
  { unfold parent. rewrite Hfull. apply removelast_last. }
  rewrite Hpar.
  destruct (mkdir_from_ok par fs []) as (fs1 & -> & Hsame & Hdirs).
  { intros k d Hk. cbn. replace (take k par) with (take k full_path).
    - apply Hprefixes. rewrite Hfull, length_app. cbn. lia.
    - rewrite Hfull. apply take_app_le. lia. }
  unfold open_write.
  assert (node fs1 full_path = node fs full_path) as Hfull_same.
  { unfold node. destruct full_path as [|x rest] eqn:Hfp; [done|].
    apply Hsame. intros k Hk. cbn. intros Habs.
    apply (f_equal length) in Habs. rewrite length_take in Habs.
    rewrite Hfull, length_app in Habs. cbn in Habs. lia. }
  rewrite Hfull_same, Hpar.
  assert (exists l, node fs1 par = Some (Dir l)) as [l Hl].
  { destruct par as [|x rest] eqn:Hp; [by exists true|].
    destruct (Hdirs (length (x :: rest))) as [l Hl]; [cbn; lia|].
    exists l. cbn [app] in Hl. by rewrite firstn_all in Hl. }
  rewrite Hl.
  destruct (node fs full_path) as [[d|l']|] eqn:Hn; eauto.
  by destruct (Hnodir l').
Qed.

(** On a POSIX system the text comes back with every ["\r\n"] and every
    lone ["\r"] turned into ["\n"]. *)
Lemma read_after_write_Posix (fs fs' : FS) (self : LocalTools.LocalTools)
  (path : Path) (content : string) :
  LocalTools.write_file Posix fs self path content = (fs', Ok tt) ->
  LocalTools.read_file fs' self path 0 None = Ok (translate_in content).
Proof.
  intros H. rewrite (read_after_write Posix fs fs' self path content H).
  by rewrite translate_out_Posix.
Qed.

(** C9 as stated fails: a carriage return in the text is read back as a
    line feed. *)
Lemma read_file_after_write_file_changes_CR :
  let tools := LocalTools.mkLocalTools ["repo"] in
  let text := String "a" (String CR (String "b" EmptyString)) in
  let written := LocalTools.write_file Posix ∅ tools ["notes.txt"] text in
  snd written = Ok tt
  /\ LocalTools.read_file (fst written) tools ["notes.txt"] 0 None
     = Ok (String "a" (String LF (String "b" EmptyString)))
  /\ LocalTools.read_file (fst written) tools ["notes.txt"] 0 None <> Ok text.
Proof. vm_compute. repeat split. discriminate. Qed.

(** ** The directory walkers *)

Lemma append_assoc (a b c : string) : (a +:+ b) +:+ c = a +:+ b +:+ c.
Proof.
  induction a as [|x a IH]; [done|].
  change (String x ((a +:+ b) +:+ c) = String x (a +:+ b +:+ c)). by rewrite IH.
Qed.

Lemma append_empty_l (a : string) : "" +:+ a = a.
Proof. reflexivity. Qed.

(** The loop of a walker keeps an invariant of the list it appends to,
    and it finishes when its body does. *)
Lemma for_each_inv {A S} (P : S -> Prop) (xs : list A)
  (body : A -> S -> option (S * Result unit)) :
  (forall x s, x ∈ xs -> P s -> exists s' r, body x s = Some (s', r) /\ P s') ->
  forall s, P s -> exists s' r, LocalTools.for_each xs s body = Some (s', r) /\ P s'.
Proof.
  induction xs as [|x xs IH]; intros Hbody s Hs.
  - exists s, (Ok tt). done.
  - cbn [LocalTools.for_each].
    destruct (Hbody x s) as (s1 & r1 & -> & Hs1); [left | done |].
    destruct r1 as [[]|e].
    + apply IH; [|done]. intros y s' Hy. apply Hbody. by right.
    + by exists s1, (Raise e).
Qed.

Lemma elem_of_sorted_entries (dv : DirView) (it : list Path) (entry : Path) :
  entry ∈ LocalTools.sorted_entries dv it -> entry ∈ it.
Proof. unfold LocalTools.sorted_entries. by rewrite merge_sort_Permutation. Qed.

(** A line of the walk below a listed directory is a line of the walk
    from its parent, one level further down. *)
Lemma emitted_below (dv : DirView) (root d : Path) (it : list Path) (prefix : string)
  (max_depth current : Z) (line : string) :
  dv_iterdir dv root = Ok it -> d ∈ it -> dv_is_dir dv d = true ->
  emitted dv d (prefix +:+ "  ") max_depth (current + 1) line ->
  emitted dv root prefix max_depth current line.
Proof.
  intros Hit Hd Hdir (k & entry & Hk & Hlt & ->).
  exists (S k), entry. split; [by eapply at_depth_below|]. split; [lia|].
  cbn [indent]. by rewrite !append_assoc.
Qed.

Lemma emitted_here (dv : DirView) (root entry : Path) (it : list Path) (prefix : string)
  (max_depth current : Z) :
  dv_iterdir dv root = Ok it -> entry ∈ it -> current < max_depth ->
  emitted dv root prefix max_depth current
    (prefix +:+ name entry +:+ (if dv_is_dir dv entry then "/" else "")).
Proof.
  intros Hit He Hlt. exists 0%nat, entry.
  split; [by eapply at_depth_here|]. split; [lia|]. done.
Qed.

Lemma grown_refl dv root prefix max_depth current lines :
  grown dv root prefix max_depth current lines lines.
Proof. exists []. by rewrite app_nil_r. Qed.

Lemma grown_snoc dv root prefix max_depth current lines lines' line :
  grown dv root prefix max_depth current lines lines' ->
  emitted dv root prefix max_depth current line ->
  grown dv root prefix max_depth current lines (lines' ++ [line]).
Proof.
  intros (new & -> & Hnew) Hline. exists (new ++ [line]).
  split; [by rewrite app_assoc|]. apply Forall_app. split; [done|]. by constructor.
Qed.

Lemma grown_trans_below dv root d it prefix max_depth current lines lines' lines'' :
  dv_iterdir dv root = Ok it -> d ∈ it -> dv_is_dir dv d = true ->
  grown dv root prefix max_depth current lines lines' ->
  grown dv d (prefix +:+ "  ") max_depth (current + 1) lines' lines'' ->
  grown dv root prefix max_depth current lines lines''.
Proof.
  intros Hit Hd Hdir (new & -> & Hnew) (new' & -> & Hnew').
  exists (new ++ new'). split; [by rewrite app_assoc|].
  apply Forall_app. split; [done|].
  eapply Forall_impl; [exact Hnew'|]. intros line. by eapply emitted_below.
Qed.

Lemma _walk_terminates (fuel : nat) (dv : DirView) :
  forall (path : Path) (prefix : string) (max_depth current_depth : Z)
         (lines : list string),
    (Z.to_nat (max_depth - current_depth) <= fuel)%nat ->
    exists lines' r,
      LocalTools._walk fuel dv path prefix max_depth current_depth lines = Some (lines', r)
      /\ grown dv path prefix max_depth current_depth lines lines'.
Proof.
  induction fuel as [|fuel IH]; intros path prefix max_depth current lines Hfuel.
  - cbn [LocalTools._walk]. destruct (current >=? max_depth) eqn:E.
    + exists lines, (Ok tt). split; [done | apply grown_refl].
    + rewrite Z.geb_leb in E; apply Z.leb_gt in E. lia.
  - cbn [LocalTools._walk]. destruct (current >=? max_depth) eqn:E.
    { exists lines, (Ok tt). split; [done | apply grown_refl]. }
    rewrite Z.geb_leb in E; apply Z.leb_gt in E.
    destruct (dv_iterdir dv path) as [it|e] eqn:Hit.
    2:{ destruct (isinstance e PermissionError_);
          eexists _, _; (split; [reflexivity | apply grown_refl]). }
    apply (for_each_inv (grown dv path prefix max_depth current lines));
      [|apply grown_refl].
    intros entry lines1 Hentry%elem_of_sorted_entries Hgrown.
    destruct (String.prefix "." (name entry)).
    { by exists lines1, (Ok tt). }
    pose proof (grown_snoc _ _ _ _ _ _ _ _ Hgrown
                  (emitted_here dv path entry it prefix max_depth current Hit Hentry E))
      as Hgrown2.
    destruct (dv_is_dir dv entry) eqn:Hdir.
    + destruct (IH entry (prefix +:+ "  ") max_depth (current + 1)
                  (lines1 ++ [prefix +:+ name entry +:+ "/"]))
        as (lines2 & r & -> & Hgrown3); [lia|].
      exists lines2, r. split; [done|]. by eapply grown_trans_below.
    + by eexists _, (Ok tt).
Qed.

Lemma _tree_terminates (fuel : nat) (dv : DirView) :
  forall (path : Path) (indent_ : string) (max_depth current : Z) (lines : list string),
    (Z.to_nat (max_depth - current) <= fuel)%nat ->
    exists lines' r,
      CodeNavigator._tree fuel dv path indent_ max_depth current lines = Some (lines', r)
      /\ grown dv path indent_ max_depth current lines lines'.
Proof.
  induction fuel as [|fuel IH]; intros path prefix max_depth current lines Hfuel.
  - cbn [CodeNavigator._tree]. destruct (current >=? max_depth) eqn:E.
    + exists lines, (Ok tt). split; [done | apply grown_refl].
    + rewrite Z.geb_leb in E; apply Z.leb_gt in E. lia.
  - cbn [CodeNavigator._tree]. destruct (current >=? max_depth) eqn:E.
    { exists lines, (Ok tt). split; [done | apply grown_refl]. }
    rewrite Z.geb_leb in E; apply Z.leb_gt in E. cbn [orb].
    destruct (dv_is_dir dv path); cbn [negb].
    2:{ exists lines, (Ok tt). split; [done | apply grown_refl]. }
    destruct (dv_iterdir dv path) as [it|e] eqn:Hit.
    2:{ destruct (isinstance e PermissionError_);
          eexists _, _; (split; [reflexivity | apply grown_refl]). }
    apply (for_each_inv (grown dv path prefix max_depth current lines));
      [|apply grown_refl].
    intros entry lines1 Hentry%elem_of_sorted_entries Hgrown.
    destruct (String.prefix "." (name entry) || _).
    { by exists lines1, (Ok tt). }
    pose proof (grown_snoc _ _ _ _ _ _ _ _ Hgrown
                  (emitted_here dv path entry it prefix max_depth current Hit Hentry E))
      as Hgrown2.
    destruct (dv_is_dir dv entry) eqn:Hdir.
    + destruct (IH entry (prefix +:+ "  ") max_depth (current + 1)
                  (lines1 ++ [prefix +:+ name entry +:+ "/"]))
        as (lines2 & r & -> & Hgrown3); [lia|].
      exists lines2, r. split; [done|]. by eapply grown_trans_below.
    + by eexists _, (Ok tt).
Qed.

(** C10.  Both walkers finish on every view of a file system and for every
    [max_depth], within [max_depth - current_depth] nested calls, and every
    line they append belongs to an entry that a call at a depth below
    [max_depth] has listed. *)
Theorem walkers_terminate (dv : DirView) (path : Path) (prefix : string)
  (max_depth current_depth : Z) (lines : list string) (fuel : nat)
  (Hfuel : (Z.to_nat (max_depth - current_depth) <= fuel)%nat) :
  (exists new r,
     LocalTools._walk fuel dv path prefix max_depth current_depth lines
     = Some (lines ++ new, r)
     /\ Forall (emitted dv path prefix max_depth current_depth) new)
  /\ (exists new r,
        CodeNavigator._tree fuel dv path prefix max_depth current_depth lines
        = Some (lines ++ new, r)
        /\ Forall (emitted dv path prefix max_depth current_depth) new).
Proof.
  split.
  - destruct (_walk_terminates fuel dv path prefix max_depth current_depth lines Hfuel)
      as (lines' & r & Heq & new & -> & Hnew).
    by exists new, r.
  - destruct (_tree_terminates fuel dv path prefix max_depth current_depth lines Hfuel)
      as (lines' & r & Heq & new & -> & Hnew).
    by exists new, r.
Qed.

Lemma walkers_terminate_witness :
  (Z.to_nat (2 - 0) <= 2)%nat
  /\ exists new r,
       LocalTools._walk 2 (view Fixture.repo_fs) ["repo"] "" 2 0 [] = Some ([] ++ new, r)
       /\ Forall (emitted (view Fixture.repo_fs) ["repo"] "" 2 0) new.
Proof.
  split; [vm_compute; lia|].
  apply (walkers_terminate (view Fixture.repo_fs) ["repo"] "" 2 0 [] 2).
  vm_compute. lia.
Defined.

(** At or beyond [max_depth] nothing is appended. *)
Corollary nothing_emitted_at_max_depth (dv : DirView) (path : Path) (prefix : string)
  (max_depth current_depth : Z) (new : list string) :
  max_depth <= current_depth ->
  Forall (emitted dv path prefix max_depth current_depth) new -> new = [].
Proof.
  intros Hle Hnew. destruct new as [|line new]; [done|].
  apply Forall_cons in Hnew as [(k & entry & _ & Hlt & _) _]. lia.
Qed.

(** The walkers on the small repository: directories first, then by name;
    hidden entries are left out, [_tree] also leaves out [node_modules];
    a directory that may not be listed is shown without content; depth 2
    does not reach [src/pkg/deep.py]. *)
Example list_directory_repo :
  LocalTools.list_directory 2 (view Fixture.repo_fs) (LocalTools.mkLocalTools ["repo"]) [] 2
  = Some (Ok (String.concat (String LF "")
                ["locked/"; "node_modules/"; "  left-pad.js"; "src/"; "  pkg/";
                 "  main.py"; "README.md"; "a.txt"])).
Proof. vm_compute. reflexivity. Qed.

Example get_tree_repo :
  CodeNavigator.get_tree 2 (view Fixture.repo_fs) (CodeNavigator.mkCodeNavigator ["repo"])
    [] 2
  = Some (Ok (String.concat (String LF "")
                ["locked/"; "src/"; "  pkg/"; "  main.py"; "README.md"; "a.txt"])).
Proof. vm_compute. reflexivity. Qed.

(** On a view without a bottom the walk still stops at [max_depth]. *)
Example _walk_on_a_loop :
  LocalTools._walk 3 Fixture.loop_view ["d"] "" 3 0 []
  = Some (["again/"; "  again/"; "    again/"], Ok tt).
Proof. vm_compute. reflexivity. Qed.

(** ** Ownership across status transitions *)



(** The claim of a QA agent or of a reviewer changes the assigned agent of
    no task. *)
Lemma scoped_claim_keeps_every_owner (o : Orchestrator.State) (task_id agent_id : string)
  (a : Orchestrator.AgentRec) (tid : string) :
  Orchestrator.agents o !! agent_id = Some a ->
  Orchestrator.a_role a = "qa" \/ Orchestrator.a_role a = "reviewer" ->
  Orchestrator.assigned_of (fst (Orchestrator.claim o task_id agent_id)) tid
  = Orchestrator.assigned_of o tid.
Proof.
  intros Ha Hrole. unfold Orchestrator.claim. rewrite Ha.
  destruct (Orchestrator.tasks o !! task_id) as [t|] eqn:Ht; [|done].
  assert (Hscoped : String.eqb (Orchestrator.a_role a) "qa"
                    || String.eqb (Orchestrator.a_role a) "reviewer" = true).
  { destruct Hrole as [-> | ->]; reflexivity. }
  rewrite Hscoped.
  assert (Htake : forall ags,
             Orchestrator.assigned_of
               (Orchestrator.mkState (<[task_id := t]> (Orchestrator.tasks o)) ags
                  (Orchestrator.results o) (Orchestrator.outbox o)
                  (Orchestrator.applied o) (Orchestrator.now o) (Orchestrator.window o))
               tid
             = Orchestrator.assigned_of o tid).
  { intros ags. unfold Orchestrator.assigned_of. cbn.
    destruct (decide (tid = task_id)) as [->|Hne].
    - by rewrite lookup_insert_eq, Ht.
    - by rewrite lookup_insert_ne. }
  destruct (Orchestrator.holder_in o task_id t (Orchestrator.a_role a)) as [owner|].
  - destruct (String.eqb owner agent_id); [done|].
    destruct (Orchestrator.live o owner); [done|].
    destruct (Orchestrator.claimable _ _); [apply Htake | done].
  - destruct (Orchestrator.claimable _ _); [apply Htake | done].
Qed.

(** Whoever holds the task in QA or in review may bounce it back, and so
    may any caller when no agent of that role has claimed it: the
    transition succeeds. *)
Lemma bounce_back_by_holder_succeeds (o : Orchestrator.State)
  (task_id token caller : string) (from : Orchestrator.Status) (t : Orchestrator.TaskRec) :
  Orchestrator.tasks o !! task_id = Some t ->
  Orchestrator.t_status t = from ->
  from = Orchestrator.in_qa \/ from = Orchestrator.in_review ->
  (forall h, Orchestrator.claimant o task_id (Orchestrator.acting_role from) = Some h ->
             h = caller) ->
  Orchestrator.results o !! token = None ->
  exists o' t',
    Orchestrator.transition o task_id from Orchestrator.in_progress token caller
    = (o', inr t').
Proof.
  intros Ht Hs Hfrom Hholder Hfresh. unfold Orchestrator.transition.
  rewrite Hfresh, Ht, Hs. rewrite bool_decide_eq_true_2 by done.
  assert (Hcheck : match Orchestrator.holder_in o task_id t (Orchestrator.acting_role from)
                   with
                   | Some a => negb (String.eqb a caller)
                   | None => false
                   end = false).
  { assert (Hin : Orchestrator.holder_in o task_id t (Orchestrator.acting_role from)
                  = Orchestrator.claimant o task_id (Orchestrator.acting_role from)).
    { destruct Hfrom as [-> | ->]; reflexivity. }
    rewrite Hin.
    destruct (Orchestrator.claimant o task_id _) as [h|] eqn:Hc; [|done].
    rewrite (Hholder h eq_refl). by rewrite String.eqb_refl. }
  rewrite Hcheck. destruct Hfrom as [-> | ->]; cbn; eauto.
Qed.



(** The claim operation is what sets the assigned agent: the claim of a
    coder on a ready task does, the claim of the QA agent on the task in QA
    succeeds and leaves the coder assigned.  Once the QA agent holds the
    task, the bounce of another caller is refused; a replay of the bounce
    with the same token changes nothing and gives the same snapshot. *)
Example claim_sets_the_owner :
  let out := Orchestrator.claim Fixture.orchestrator "task-2" "agent-coder-2" in
  Orchestrator.assigned_of Fixture.orchestrator "task-2" = None
  /\ Orchestrator.assigned_of (fst out) "task-2" = Some "agent-coder-2".
Proof. vm_compute. done. Qed.

Example claim_of_qa_keeps_the_coder :
  let out := Orchestrator.claim Fixture.orchestrator "task-1" "agent-qa" in
  (exists t, snd out = inr t)
  /\ Orchestrator.assigned_of (fst out) "task-1" = Some "agent-coder"
  /\ Orchestrator.claimant Fixture.orchestrator "task-1" "qa" = None
  /\ Orchestrator.claimant (fst out) "task-1" "qa" = Some "agent-qa".
Proof. vm_compute. split; [eexists|]; done. Qed.

Example bounce_back_of_another_caller_is_refused :
  let claimed := Orchestrator.claim Fixture.orchestrator "task-1" "agent-qa" in
  snd (Orchestrator.transition (fst claimed) "task-1" Orchestrator.in_qa
         Orchestrator.in_progress "token-8" "agent-coder-2")
  = inl Orchestrator.NotOwner.
Proof. vm_compute. reflexivity. Qed.

Example bounce_back_replayed :
  let claimed := Orchestrator.claim Fixture.orchestrator "task-1" "agent-qa" in
  let once := Orchestrator.transition (fst claimed) "task-1" Orchestrator.in_qa
                Orchestrator.in_progress "token-7" "agent-qa" in
  let twice := Orchestrator.transition (fst once) "task-1" Orchestrator.in_qa
                 Orchestrator.in_progress "token-7" "agent-qa" in
  snd twice = snd once
  /\ Orchestrator.applied (fst twice) = Orchestrator.applied (fst once)
  /\ Orchestrator.applied (fst once) = S (Orchestrator.applied Fixture.orchestrator).
Proof. vm_compute. done. Qed.

(** * Further properties of the code *)

(** ** [types.py]: the enumerations on the wire *)

Lemma of_value_Some `{StrEnum E} (v : string) (m : E) :
  of_value v = Some m -> value m = v.
Proof.
  unfold of_value. intros Hf. apply List.find_some in Hf as [_ Hf].
  by apply String.eqb_eq in Hf.
Qed.

(** X1.  For each of the four enumerations, looking a member up by its
    value gives the member back, and a lookup that succeeds was given
    exactly the value of the member it returns: the wire values identify
    the members. *)
Theorem enum_values_round_trip :
  (forall s : TaskStatus, of_value (value s) = Some s)
  /\ (forall p : Priority, of_value (value p) = Some p)
  /\ (forall b : BranchType, of_value (value b) = Some b)
  /\ (forall p : PostType, of_value (value p) = Some p)
  /\ (forall v (s : TaskStatus), of_value v = Some s -> value s = v)
  /\ (forall v (p : Priority), of_value v = Some p -> value p = v)
  /\ (forall v (b : BranchType), of_value v = Some b -> value b = v)
  /\ (forall v (p : PostType), of_value v = Some p -> value p = v).
Proof.
  repeat split; try (intros []; reflexivity); intros v m; apply of_value_Some.
Qed.

(** ** [client.py]: error statuses, tokens, lists *)

Lemma raise_for_status_error (resp : Response) :
  400 <= status_code resp <= 599 ->
  raise_for_status resp = Raise (mkExc HTTPStatusError_ "error response").
Proof.
  intros [H1 H2]. unfold raise_for_status.
  destruct (200 <=? status_code resp) eqn:E1;
    destruct (status_code resp <=? 299) eqn:E2; cbn; try reflexivity.
  apply Z.leb_le in E1, E2. lia.
Qed.

(** Runs a client operation against a server whose answer is known. *)
Ltac run_client Hopen Hserver :=
  unfold AgentMeshClient.register, AgentMeshClient.heartbeat, AgentMeshClient.list_tasks,
    AgentMeshClient.get_task, AgentMeshClient.update_task_status,
    AgentMeshClient.list_messages, AgentMeshClient.post_message,
    AgentMeshClient.open_pr, bind, uuid4, send, request, lift;
  cbn [fst snd trace drawn http_closed running fs];
  rewrite ?Hopen; cbn [fst snd trace drawn http_closed running fs];
  rewrite ?Hserver; cbn [fst snd trace drawn http_closed running fs].

(** X2.  Every operation of the client raises [HTTPStatusError] when the
    server answers with a 4xx or 5xx status: none of them returns a value
    built from an error response. *)
Theorem client_raises_on_error_status (env : Env) (w : World) (resp : Response)
  (Hopen : http_closed w = false)
  (Hserver : forall w' req, server env w' req = Responds resp)
  (Herror : 400 <= status_code resp <= 599) :
  let e := mkExc HTTPStatusError_ "error response" in
  (forall p r n m s, snd (AgentMeshClient.register p r n m s env w) = Raise e)
  /\ (forall a, snd (AgentMeshClient.heartbeat a env w) = Raise e)
  /\ (forall p st a, snd (AgentMeshClient.list_tasks p st a env w) = Raise e)
  /\ (forall t, snd (AgentMeshClient.get_task t env w) = Raise e)
  /\ (forall t f t', snd (AgentMeshClient.update_task_status t f t' env w) = Raise e)
  /\ (forall t, snd (AgentMeshClient.list_messages t env w) = Raise e)
  /\ (forall t a p c, snd (AgentMeshClient.post_message t a p c env w) = Raise e)
  /\ (forall t b h b', snd (AgentMeshClient.open_pr t b h b' env w) = Raise e).
Proof.
  pose proof (raise_for_status_error resp Herror) as Hr.
  repeat split; intros; run_client Hopen Hserver; by rewrite Hr.
Qed.

Lemma client_raises_on_error_status_witness :
  snd (AgentMeshClient.get_task "task-1" (Fixture.env_with Fixture.server_404) Fixture.w0)
  = Raise (mkExc HTTPStatusError_ "error response").
Proof.
  apply (client_raises_on_error_status (Fixture.env_with Fixture.server_404) Fixture.w0
           (mkResponse 404 (JObj [("error", JStr "agent not found")]))
           eq_refl (fun _ _ => eq_refl)).
  cbn. lia.
Defined.

Lemma tokens_sent_same_trace (w w' : World) :
  trace w' = trace w -> tokens_sent w' = tokens_sent w.
Proof. unfold tokens_sent, sent. by intros ->. Qed.

Lemma tokens_sent_plain (w w' : World) (req : Request) (rep : Reply) :
  trace w' = trace w ++ [EHttp req rep] ->
  header req AgentMeshClient.IDEMPOTENCY_HEADER = None ->
  tokens_sent w' = tokens_sent w.
Proof.
  intros Ht H. unfold tokens_sent. rewrite (sent_snoc w w' req rep Ht), omap_app.
  cbn. rewrite H. by rewrite app_nil_r.
Qed.

(** A request without headers, followed by steps that only inspect the
    response, sends no token and draws no uuid. *)
Lemma plain_call_world {B} (env : Env) (w : World) (req : Request) (k : Response -> M B) :
  headers req = [] ->
  (forall resp env w, fst (k resp env w) = w) ->
  let w' := fst ((resp <- send req;; k resp) env w) in
  tokens_sent w' = tokens_sent w /\ drawn w' = drawn w.
Proof.
  intros Hh Hk. unfold bind, send, request.
  destruct (http_closed w); [done|].
  assert (header req AgentMeshClient.IDEMPOTENCY_HEADER = None) as Hnone.
  { unfold header. by rewrite Hh. }
  destruct (server env w req) as [resp|msg] eqn:Es; cbn [fst].
  - rewrite Hk. split; [|done]. by eapply tokens_sent_plain.
  - split; [|done]. by eapply tokens_sent_plain.
Qed.

Lemma fst_check_then {A} (resp : Response) (r : Result A) (env : Env) (w : World) :
  fst ((lift (raise_for_status resp);;; lift r) env w) = w.
Proof. unfold bind, lift. by destruct (raise_for_status resp). Qed.

(** X3.  [register], [heartbeat], [list_tasks], [get_task] and
    [list_messages] send no idempotency token and draw no uuid, whatever
    the server answers; only the three operations of C3 do. *)
Theorem only_three_operations_send_a_token (env : Env) (w : World) :
  (forall p r n m s,
     let w' := fst (AgentMeshClient.register p r n m s env w) in
     tokens_sent w' = tokens_sent w /\ drawn w' = drawn w)
  /\ (forall a,
        let w' := fst (AgentMeshClient.heartbeat a env w) in
        tokens_sent w' = tokens_sent w /\ drawn w' = drawn w)
  /\ (forall p st a,
        let w' := fst (AgentMeshClient.list_tasks p st a env w) in
        tokens_sent w' = tokens_sent w /\ drawn w' = drawn w)
  /\ (forall t,
        let w' := fst (AgentMeshClient.get_task t env w) in
        tokens_sent w' = tokens_sent w /\ drawn w' = drawn w)
  /\ (forall t,
        let w' := fst (AgentMeshClient.list_messages t env w) in
        tokens_sent w' = tokens_sent w /\ drawn w' = drawn w).
Proof.
  repeat split; intros;
    (apply plain_call_world; [reflexivity | intros resp env' w0; try apply fst_check_then]);
    reflexivity.
Qed.

Lemma traverse_Ok {A B} (f : A -> Result B) (l : list A) (l' : list B) :
  traverse f l = Ok l' <-> Forall2 (fun x y => f x = Ok y) l l'.
Proof.
  revert l'. induction l as [|x xs IH]; intros l'; cbn.
  - split; [intros [= <-]; constructor | intros H; by inversion H].
  - destruct (f x) as [y|e] eqn:Hx.
    + destruct (traverse f xs) as [ys|e] eqn:Hxs.
      * split.
        -- intros [= <-]. constructor; [done | by apply IH].
        -- intros H. inversion H as [|? y' ? ys' Hy Hys]; subst.
           rewrite Hx in Hy. injection Hy as <-.
           apply IH in Hys. by injection Hys as <-.
      * split; [discriminate|].
        intros H. inversion H as [|? y' ? ys' Hy Hys]; subst.
        apply IH in Hys. discriminate.
    + split; [discriminate|]. intros H. inversion H; subst. congruence.
Qed.

Lemma last_response_snoc (w : World) (t : list Event) (req : Request) (resp : Response) :
  trace w = t ++ [EHttp req (Responds resp)] -> last_response w = Some resp.
Proof. unfold last_response. intros ->. by rewrite last_last. Qed.

(** What a client operation that reads a list returned, when it returned. *)
Lemma list_call_Ok {B} (env : Env) (w : World) (req : Request)
  (parse : Json -> Result (list B)) (l : list B) :
  let out := (resp <- send req;; lift (raise_for_status resp);;; lift (parse (body resp)))
               env w in
  snd out = Ok l ->
  exists resp, last_response (fst out) = Some resp
               /\ raise_for_status resp = Ok tt
               /\ parse (body resp) = Ok l.
Proof.
  unfold bind, send, request, lift.
  destruct (http_closed w); [discriminate|].
  destruct (server env w req) as [resp|msg]; cbn; [|discriminate].
  destruct (raise_for_status resp) as [[]|e] eqn:Hr; cbn; [|discriminate].
  intros Hp. exists resp. split; [|done]. by eapply last_response_snoc.
Qed.

(** A comprehension over a 2xx body gives a list in two cases only: the
    body is an array whose elements all validate, or it is the empty object
    or the empty string, which have nothing to iterate over. *)
Lemma comprehension_Ok {B} (f : Json -> Result B) (body : Json) (l : list B) :
  (forall s, exists e, f (JStr s) = Raise e) ->
  (items <-r iter body; traverse f items) = Ok l ->
  (exists items, body = JArr items /\ Forall2 (fun j y => f j = Ok y) items l)
  \/ (l = [] /\ (body = JObj [] \/ body = JStr "")).
Proof.
  intros Hstr. destruct body as [| | |s|items|fields]; cbn; try discriminate.
  - destruct s as [|c s]; cbn; [intros [= <-]; right; auto|].
    destruct (Hstr (String c EmptyString)) as [e ->]. discriminate.
  - intros H. left. exists items. split; [done|]. by apply traverse_Ok.
  - destruct fields as [|[k v] fields]; cbn; [intros [= <-]; right; auto|].
    destruct (Hstr k) as [e ->]. discriminate.
Qed.

(** X4.  When [list_messages] or [list_tasks] returns a list, the server
    answered with a 2xx status and either the body is a JSON array and the
    list has exactly one validated model per element of the array, in the
    same order, or the body is the empty object or the empty string and the
    list is empty.  So one element that does not validate makes the whole
    call raise. *)
Theorem list_results_are_all_or_nothing (env : Env) (w : World) :
  (forall thread ms,
     let out := AgentMeshClient.list_messages thread env w in
     snd out = Ok ms ->
     exists resp,
       last_response (fst out) = Some resp
       /\ raise_for_status resp = Ok tt
       /\ ((exists items,
               body resp = JArr items
               /\ Forall2 (fun j m => Message_of_json j = Ok m) items ms)
           \/ (ms = [] /\ (body resp = JObj [] \/ body resp = JStr ""))))
  /\ (forall p st a ts,
        let out := AgentMeshClient.list_tasks p st a env w in
        snd out = Ok ts ->
        exists resp,
          last_response (fst out) = Some resp
          /\ raise_for_status resp = Ok tt
          /\ ((exists items,
                  body resp = JArr items
                  /\ Forall2 (fun j t => Task_of_json j = Ok t) items ts)
              \/ (ts = [] /\ (body resp = JObj [] \/ body resp = JStr "")))).
Proof.
  split.
  - intros thread ms out Hout. subst out.
    apply list_call_Ok in Hout as (resp & Hlast & Hok & Hparse).
    exists resp. split; [exact Hlast|]. split; [exact Hok|].
    apply (comprehension_Ok Message_of_json); [|exact Hparse].
    intros s. by eexists.
  - intros p st a ts out Hout. subst out.
    apply list_call_Ok in Hout as (resp & Hlast & Hok & Hparse).
    exists resp. split; [exact Hlast|]. split; [exact Hok|].
    apply (comprehension_Ok Task_of_json); [|exact Hparse].
    intros s. by eexists.
Qed.

Lemma list_results_are_all_or_nothing_witness :
  let out := AgentMeshClient.list_messages "thread-1"
               (Fixture.env_with Fixture.server_messages) Fixture.w0 in
  let empty := AgentMeshClient.list_tasks "proj-1" None None
                 (Fixture.env_with Fixture.server_empty_object) Fixture.w0 in
  (exists ms resp items,
      snd out = Ok ms
      /\ last_response (fst out) = Some resp
      /\ body resp = JArr items
      /\ length ms = 2%nat
      /\ Forall2 (fun j m => Message_of_json j = Ok m) items ms)
  /\ snd empty = Ok [].
Proof.
  intros out empty. split; [|vm_compute; reflexivity].
  destruct (snd out) as [ms|e] eqn:Hout; [|vm_compute in Hout; discriminate].
  destruct (proj1 (list_results_are_all_or_nothing
                     (Fixture.env_with Fixture.server_messages) Fixture.w0)
              "thread-1" ms Hout) as (resp & H1 & _ & [(items & H2 & H3) | [-> _]]).
  - exists ms, resp, items. repeat split; try done.
    vm_compute in Hout. by injection Hout as <-.
  - vm_compute in Hout. discriminate.
Defined.

(** X5.  A closed client, as [stop] leaves it, hands nothing to the
    transport: each of its operations raises [RuntimeError] and leaves the
    trace as it was. *)
Theorem closed_client_sends_nothing (env : Env) (w : World)
  (Hclosed : http_closed w = true) :
  let e := mkExc RuntimeError_ "Cannot send a request, as the client has been closed." in
  (forall p r n m s,
     snd (AgentMeshClient.register p r n m s env w) = Raise e
     /\ trace (fst (AgentMeshClient.register p r n m s env w)) = trace w)
  /\ (forall a,
        snd (AgentMeshClient.heartbeat a env w) = Raise e
        /\ trace (fst (AgentMeshClient.heartbeat a env w)) = trace w)
  /\ (forall p st a,
        snd (AgentMeshClient.list_tasks p st a env w) = Raise e
        /\ trace (fst (AgentMeshClient.list_tasks p st a env w)) = trace w)
  /\ (forall t,
        snd (AgentMeshClient.get_task t env w) = Raise e
        /\ trace (fst (AgentMeshClient.get_task t env w)) = trace w)
  /\ (forall t f t',
        snd (AgentMeshClient.update_task_status t f t' env w) = Raise e
        /\ trace (fst (AgentMeshClient.update_task_status t f t' env w)) = trace w)
  /\ (forall t,
        snd (AgentMeshClient.list_messages t env w) = Raise e
        /\ trace (fst (AgentMeshClient.list_messages t env w)) = trace w)
  /\ (forall t a p c,
        snd (AgentMeshClient.post_message t a p c env w) = Raise e
        /\ trace (fst (AgentMeshClient.post_message t a p c env w)) = trace w)
  /\ (forall t b h b',
        snd (AgentMeshClient.open_pr t b h b' env w) = Raise e
        /\ trace (fst (AgentMeshClient.open_pr t b h b' env w)) = trace w).
Proof.
  intros e. repeat split; intros; run_client Hclosed Hclosed; reflexivity.
Qed.

Lemma closed_client_sends_nothing_witness :
  let w := fst (stop Fixture.the_agent Fixture.env_ok Fixture.w0) in
  http_closed w = true
  /\ snd (post_update Fixture.the_agent "thread-1" "still here" PROGRESS Fixture.env_ok w)
     = Raise (mkExc RuntimeError_ "Cannot send a request, as the client has been closed.").
Proof.
  intros w. split; [reflexivity|].
  apply (closed_client_sends_nothing Fixture.env_ok w eq_refl).
Defined.

(** ** [local_tools.py]: reading in parts, writing beside other files *)

Lemma join_lines_app (l1 l2 : list string) :
  join_lines (l1 ++ l2) = join_lines l1 +:+ join_lines l2.
Proof.
  unfold join_lines. induction l1 as [|x l1 IH]; [done|].
  cbn. by rewrite IH, append_assoc.
Qed.

Lemma slice_in_two_parts {A} (l : list A) (k : Z) :
  0 <= k -> slice l 0 k ++ slice l k (Z.of_nat (length l)) = l.
Proof.
  intros Hk. unfold slice, slice_index.
  destruct (0 <? 0) eqn:E0; [discriminate|].
  destruct (k <? 0) eqn:Ek; [apply Z.ltb_lt in Ek; lia|].
  destruct (Z.of_nat (length l) <? 0) eqn:El; [apply Z.ltb_lt in El; lia|].
  rewrite Z.min_id, (Z.min_l 0) by lia. cbn [Z.to_nat drop].
  rewrite Z.sub_0_r.
  set (a := Z.to_nat (Z.min k (Z.of_nat (length l)))).
  assert (Z.to_nat (Z.of_nat (length l) - Z.min k (Z.of_nat (length l)))
          = (length l - a)%nat) as -> by (unfold a; lia).
  rewrite (take_ge (drop a l)) by (rewrite length_drop; lia).
  apply take_drop.
Qed.

(** X6.  Reading a file up to line [k] and from line [k] on gives, put
    together, what reading the whole file gives, for every [k >= 0]. *)
Theorem read_file_in_two_parts (fs : FS) (self : LocalTools.LocalTools) (path : Path)
  (k : Z) (whole : string)
  (Hk : 0 <= k)
  (Hwhole : LocalTools.read_file fs self path 0 None = Ok whole) :
  exists head tail,
    LocalTools.read_file fs self path 0 (Some k) = Ok head
    /\ LocalTools.read_file fs self path k None = Ok tail
    /\ head +:+ tail = whole.
Proof.
  revert Hwhole. unfold LocalTools.read_file.
  destruct (open_read fs _) as [text|e]; [|discriminate]. cbn.
  intros [= <-]. eexists _, _. split; [reflexivity|]. split; [reflexivity|].
  rewrite <- join_lines_app, slice_in_two_parts by done.
  by rewrite slice_all.
Qed.

Lemma read_file_in_two_parts_witness :
  let tools := LocalTools.mkLocalTools ["repo"] in
  exists head tail,
    LocalTools.read_file Fixture.repo_fs tools ["README.md"] 0 (Some 1) = Ok head
    /\ LocalTools.read_file Fixture.repo_fs tools ["README.md"] 1 None = Ok tail
    /\ head +:+ tail = "# Project".
Proof.
  intros tools.
  apply (read_file_in_two_parts Fixture.repo_fs tools ["README.md"] 1 "# Project").
  - lia.
  - vm_compute. reflexivity.
Defined.

(** [mkdir] only writes the prefixes of its path. *)
Lemma mkdir_from_frame (todo : list string) :
  forall (fs : FS) (pre : Path) (q : Path),
    (forall k, (0 < k <= length todo)%nat -> q <> pre ++ take k todo) ->
    fst (mkdir_from fs pre todo) !! q = fs !! q.
Proof.
  induction todo as [|n rest IH]; intros fs pre q Hq; [done|].
  cbn [mkdir_from].
  assert (forall k, pre ++ take (S k) (n :: rest) = (pre ++ [n]) ++ take k rest) as Hshift.
  { intros k. cbn. by rewrite <- app_assoc. }
  assert (forall k, (0 < k <= length rest)%nat -> q <> (pre ++ [n]) ++ take k rest) as Hq'.
  { intros k Hk. rewrite <- Hshift. apply Hq. cbn. lia. }
  destruct (node fs (pre ++ [n])) as [[d|l]|]; [done | by apply IH |].
  rewrite IH by done. apply lookup_insert_ne.
  specialize (Hq 1%nat). rewrite Hshift, take_0, app_nil_r in Hq.
  intros Habs. apply Hq; [cbn; lia | done].
Qed.

(** X7.  [write_file] changes nothing beside its path: whether it succeeds
    or raises, every path that is not a prefix of the full path of the
    file holds afterwards what it held before. *)
Theorem write_file_leaves_other_paths (pf : Platform) (fs : FS)
  (self : LocalTools.LocalTools) (path : Path) (content : string) (q : Path)
  (Hother : forall k, q <> take k (joinpath (LocalTools.working_dir self) path)) :
  fst (LocalTools.write_file pf fs self path content) !! q = fs !! q.
Proof.
  unfold LocalTools.write_file.
  set (full_path := joinpath (LocalTools.working_dir self) path) in *.
  assert (fst (mkdir_parents fs (parent full_path)) !! q = fs !! q) as Hmk.
  { unfold mkdir_parents. apply mkdir_from_frame. intros k Hk. cbn.
    replace (take k (parent full_path)) with (take k full_path); [apply Hother|].
    unfold parent in *. destruct (decide (full_path = [])) as [->|Hne]; [done|].
    destruct (exists_last Hne) as (par & n & ->).
    rewrite removelast_last in *. rewrite take_app_le; [done | lia]. }
  destruct (mkdir_parents fs (parent full_path)) as [fs1 [[]|e]]; cbn in *; [|done].
  unfold open_write.
  destruct (node fs1 full_path) as [[d|l]|];
    destruct (node fs1 (parent full_path)) as [[d'|l']|]; cbn; try done;
    (rewrite lookup_insert_ne; [done|]);
    intros Habs; apply (Hother (length full_path)); by rewrite firstn_all.
Qed.

Lemma write_file_leaves_other_paths_witness :
  fst (LocalTools.write_file Posix Fixture.repo_fs (LocalTools.mkLocalTools ["repo"])
         ["src"; "new.py"] "x = 2") !! ["repo"; "src"; "main.py"]
  = Fixture.repo_fs !! ["repo"; "src"; "main.py"].
Proof.
  apply (write_file_leaves_other_paths Posix Fixture.repo_fs
           (LocalTools.mkLocalTools ["repo"]) ["src"; "new.py"] "x = 2"
           ["repo"; "src"; "main.py"]).
  intros [|[|[|[|k]]]]; vm_compute; discriminate.
Defined.

Lemma node_nonempty (m : FS) (p : Path) : p <> [] -> node m p = m !! p.
Proof. by destruct p. Qed.

(** After a successful [mkdir] every prefix of the path is a directory. *)
Lemma mkdir_from_dirs (todo : list string) :
  forall (fs fs' : FS) (pre : Path),
    mkdir_from fs pre todo = (fs', Ok tt) ->
    forall k, (0 < k <= length todo)%nat ->
              exists l, node fs' (pre ++ take k todo) = Some (Dir l).
Proof.
  induction todo as [|n rest IH]; intros fs fs' pre Hmk k Hk; [cbn in Hk; lia|].
  cbn [mkdir_from] in Hmk.
  assert (forall j, pre ++ take (S j) (n :: rest) = (pre ++ [n]) ++ take j rest) as Hshift.
  { intros j. cbn. by rewrite <- app_assoc. }
  assert (pre ++ [n] <> []) as Hne by (destruct pre; discriminate).
  assert (forall j, (0 < j <= length rest)%nat ->
                    pre ++ [n] <> (pre ++ [n]) ++ take j rest) as Hlonger.
  { intros j Hj Habs. apply (f_equal length) in Habs.
    rewrite !length_app, length_take in Habs. cbn in Habs. lia. }
  destruct k as [|[|k]]; [lia | |].
  - rewrite Hshift, take_0, app_nil_r, node_nonempty by done.
    destruct (node fs (pre ++ [n])) as [[d|l]|] eqn:Hp; [discriminate | |].
    + exists l. rewrite <- Hp, (node_nonempty fs) by done.
      replace fs' with (fst (mkdir_from fs (pre ++ [n]) rest)) by (by rewrite Hmk).
      by apply mkdir_from_frame.
    + exists true.
      replace fs' with (fst (mkdir_from (<[pre ++ [n] := Dir true]> fs) (pre ++ [n]) rest))
        by (by rewrite Hmk).
      rewrite mkdir_from_frame by done. by rewrite lookup_insert_eq.
  - rewrite Hshift. cbn in Hk.
    destruct (node fs (pre ++ [n])) as [[d|l]|]; [discriminate | |];
      eapply IH; try exact Hmk; lia.
Qed.

(** X8.  A second [write_file] to a path that was just written always
    succeeds, and [read_file] then gives the second text (after the
    translation of line ends): the last write wins. *)
Theorem write_file_overwrites (pf : Platform) (fs fs1 : FS)
  (self : LocalTools.LocalTools) (path : Path) (first second : string)
  (Hfirst : LocalTools.write_file pf fs self path first = (fs1, Ok tt)) :
  exists fs2,
    LocalTools.write_file pf fs1 self path second = (fs2, Ok tt)
    /\ LocalTools.read_file fs2 self path 0 None
       = Ok (translate_in (translate_out pf second))
    /\ (has_CR second = false ->
        LocalTools.read_file fs2 self path 0 None = Ok second).
Proof.
  pose proof (write_file_node pf fs fs1 self path first Hfirst) as Hnode.
  set (full_path := joinpath (LocalTools.working_dir self) path) in *.
  assert (full_path <> []) as Hne.
  { intros Heq. rewrite Heq in Hnode. discriminate. }
  assert (forall k, (0 < k < length full_path)%nat ->
                    exists l, node fs1 (take k full_path) = Some (Dir l)) as Hdirs.
  { intros k Hk. revert Hfirst. unfold LocalTools.write_file. fold full_path.
    destruct (mkdir_parents fs (parent full_path)) as [fs0 [[]|e]] eqn:Hmk; [|discriminate].
    unfold open_write.
    destruct (exists_last Hne) as (par & n & Hfull).
    assert (parent full_path = par) as Hpar by (unfold parent; rewrite Hfull; apply removelast_last).
    assert (take k full_path = take k par) as Htake.
    { rewrite Hfull. apply take_app_le. rewrite Hfull, length_app in Hk. cbn in Hk. lia. }
    assert (take k full_path <> full_path) as Hshort.
    { intros Habs. apply (f_equal length) in Habs. rewrite length_take in Habs. lia. }
    assert (take k full_path <> []) as Hne'.
    { intros Habs. apply (f_equal length) in Habs. rewrite length_take in Habs.
      cbn in Habs. lia. }
    unfold mkdir_parents in Hmk. rewrite Hpar in Hmk.
    destruct (mkdir_from_dirs par fs fs0 [] Hmk k) as [l Hl].
    { rewrite Hfull, length_app in Hk. cbn in Hk. lia. }
    cbn [app] in Hl. rewrite <- Htake in Hl.
    destruct (node fs0 full_path) as [[d|l0]|];
      destruct (node fs0 (parent full_path)) as [[d'|l']|]; try discriminate;
      intros [= <-]; exists l;
      rewrite node_nonempty, lookup_insert_ne by done;
      by rewrite <- node_nonempty. }
  destruct (write_file_succeeds pf fs1 self path second) as [fs2 Hsecond].
  - exact Hne.
  - intros k d Hk. destruct (Hdirs k Hk) as [l Hl]. fold full_path. by rewrite Hl.
  - intros l. fold full_path. by rewrite Hnode.
  - exists fs2. split; [exact Hsecond|].
    pose proof (read_after_write pf fs1 fs2 self path second Hsecond) as Hread.
    split; [exact Hread|]. intros Hplain. rewrite Hread. by rewrite translate_in_out.
Qed.

Lemma write_file_overwrites_witness :
  let tools := LocalTools.mkLocalTools ["repo"] in
  let fs1 := fst (LocalTools.write_file Posix ∅ tools ["README.md"] "first") in
  exists fs2,
    LocalTools.write_file Posix fs1 tools ["README.md"] "second" = (fs2, Ok tt)
    /\ LocalTools.read_file fs2 tools ["README.md"] 0 None = Ok "second".
Proof.
  intros tools fs1.
  destruct (write_file_overwrites Posix ∅ fs1 tools ["README.md"] "first" "second")
    as (fs2 & H1 & _ & H3).
  - vm_compute. reflexivity.
  - exists fs2. split; [exact H1|]. apply H3. reflexivity.
Defined.

(** ** The order and the selection of a directory listing *)

Lemma leb_trans (a b c : string) :
  String.leb a b = true -> String.leb b c = true -> String.leb a c = true.
Proof.
  unfold String.leb.
  destruct (String.compare a b) eqn:Hab; [| |discriminate];
    destruct (String.compare b c) eqn:Hbc; try discriminate; intros _ _.
  - apply OrderedTypeEx.String_as_OT.cmp_eq in Hab, Hbc. subst.
    pose proof (proj2 (OrderedTypeEx.String_as_OT.cmp_eq c c) eq_refl) as Hcc.
    unfold OrderedTypeEx.String_as_OT.cmp in Hcc. by rewrite Hcc.
  - apply OrderedTypeEx.String_as_OT.cmp_eq in Hab. subst. by rewrite Hbc.
  - apply OrderedTypeEx.String_as_OT.cmp_eq in Hbc. subst. by rewrite Hab.
  - apply OrderedTypeEx.String_as_OT.cmp_lt in Hab, Hbc.
    pose proof (OrderedTypeEx.String_as_OT.lt_trans _ _ _ Hab Hbc) as Hac.
    apply OrderedTypeEx.String_as_OT.cmp_lt in Hac.
    unfold OrderedTypeEx.String_as_OT.cmp in Hac. by rewrite Hac.
Qed.

Lemma key_le_before (dv : DirView) (a b : Path) :
  Is_true (LocalTools.key_le (LocalTools.sort_key dv a) (LocalTools.sort_key dv b))
  <-> before dv a b.
Proof.
  unfold LocalTools.key_le, LocalTools.sort_key, before. cbn.
  destruct (dv_is_dir dv a), (dv_is_dir dv b); cbn;
    rewrite ?Is_true_true; intuition (try discriminate; try done).
Qed.

#[local] Instance key_le_total (dv : DirView) :
  Total (fun a b => Is_true (LocalTools.key_le (LocalTools.sort_key dv a)
                               (LocalTools.sort_key dv b))).
Proof.
  intros a b. rewrite !key_le_before. unfold before.
  destruct (dv_is_dir dv a), (dv_is_dir dv b);
    destruct (String.leb_total (name a) (name b)); intuition.
Qed.

#[local] Instance key_le_trans (dv : DirView) :
  Transitive (fun a b => Is_true (LocalTools.key_le (LocalTools.sort_key dv a)
                                    (LocalTools.sort_key dv b))).
Proof.
  intros a b c. rewrite !key_le_before. unfold before.
  intros [[Ha Hb]|[Hab Hl1]] [[Hb' Hc]|[Hbc Hl2]].
  - congruence.
  - left. split; congruence.
  - left. split; congruence.
  - right. split; [congruence|]. by eapply leb_trans.
Qed.

(** X9.  The entries of a directory are visited in the order of
    [sorted(..., key=(not is_dir, name))]: the visited list is a
    rearrangement of the listing in which every entry comes before all
    later ones, directories first and each kind by name. *)
Theorem sorted_entries_order (dv : DirView) (it : list Path) :
  LocalTools.sorted_entries dv it ≡ₚ it
  /\ StronglySorted (before dv) (LocalTools.sorted_entries dv it).
Proof.
  split; [apply merge_sort_Permutation|].
  unfold LocalTools.sorted_entries.
  pose proof (StronglySorted_merge_sort
                (fun a b => Is_true (LocalTools.key_le (LocalTools.sort_key dv a)
                                       (LocalTools.sort_key dv b))) it) as Hs.
  induction Hs as [|x l Hl IH Hx]; constructor; [done|].
  eapply Forall_impl; [exact Hx|]. intros y. apply key_le_before.
Qed.

Lemma for_each_step {A S} (P : S -> Prop) (xs : list A)
  (body : A -> S -> option (S * Result unit)) :
  (forall x s s' r, x ∈ xs -> P s -> body x s = Some (s', r) -> P s') ->
  forall s s' r, P s -> LocalTools.for_each xs s body = Some (s', r) -> P s'.
Proof.
  induction xs as [|x xs IH]; intros Hbody s s' r Hs; cbn [LocalTools.for_each].
  - by intros [= <- _].
  - destruct (body x s) as [[s1 [[]|e]]|] eqn:Hx; [| |discriminate].
    + apply IH; [|eapply Hbody; [left | done | done]].
      intros y t t' r' Hy. apply Hbody. by right.
    + intros [= <- _]. eapply Hbody; [left | done | done].
Qed.

Lemma for_each_ext {A S} (xs : list A) (body1 body2 : A -> S -> option (S * Result unit)) :
  (forall x s, x ∈ xs -> body1 x s = body2 x s) ->
  forall s, LocalTools.for_each xs s body1 = LocalTools.for_each xs s body2.
Proof.
  induction xs as [|x xs IH]; intros Hext s; [done|].
  cbn [LocalTools.for_each]. rewrite Hext by left.
  destruct (body2 x s) as [[s1 [[]|e]]|]; [|done|done].
  apply IH. intros y t Hy. apply Hext. by right.
Qed.

(** The list has grown by lines of shown entries. *)
Lemma shown_refl dv skip root prefix (lines : list string) :
  exists new, lines = lines ++ new /\ Forall (line_of dv skip root prefix) new.
Proof. exists []. by rewrite app_nil_r. Qed.

Lemma shown_step dv skip root it entry prefix (lines lines1 lines2 : list string) :
  dv_iterdir dv root = Ok it -> entry ∈ it -> skip (name entry) = false ->
  (exists new, lines1 = lines ++ new /\ Forall (line_of dv skip root prefix) new) ->
  (dv_is_dir dv entry = true ->
   exists new, lines2 = (lines1 ++ [prefix +:+ name entry +:+ "/"]) ++ new
               /\ Forall (line_of dv skip entry (prefix +:+ "  ")) new) ->
  (dv_is_dir dv entry = false -> lines2 = lines1 ++ [prefix +:+ name entry +:+ ""]) ->
  exists new, lines2 = lines ++ new /\ Forall (line_of dv skip root prefix) new.
Proof.
  intros Hit He Hskip (new & -> & Hnew) Hdir Hfile.
  assert (line_of dv skip root prefix
            (prefix +:+ name entry +:+ (if dv_is_dir dv entry then "/" else ""))) as Hline.
  { exists 0%nat, entry. split; [by eapply shown_here | done]. }
  destruct (dv_is_dir dv entry) eqn:Hd.
  - destruct (Hdir eq_refl) as (new' & -> & Hnew').
    exists (new ++ [prefix +:+ name entry +:+ "/"] ++ new').
    split; [by rewrite !app_assoc|].
    apply Forall_app. split; [done|]. apply Forall_app. split; [by constructor|].
    eapply Forall_impl; [exact Hnew'|].
    intros line (k & e & Hk & ->). exists (S k), e.
    split; [by eapply shown_below|]. cbn [indent]. by rewrite !append_assoc.
  - rewrite (Hfile eq_refl). exists (new ++ [prefix +:+ name entry +:+ ""]).
    split; [by rewrite app_assoc|]. apply Forall_app. split; [done | by constructor].
Qed.

Lemma _walk_shows (fuel : nat) (dv : DirView) :
  forall path prefix max_depth current (lines lines' : list string) r,
    LocalTools._walk fuel dv path prefix max_depth current lines = Some (lines', r) ->
    exists new, lines' = lines ++ new /\ Forall (line_of dv hidden path prefix) new.
Proof.
  induction fuel as [|fuel IH]; intros path prefix max_depth current lines lines' r;
    cbn [LocalTools._walk];
    (destruct (current >=? max_depth); [intros [= <- _]; apply shown_refl|]);
    [discriminate|].
  destruct (dv_iterdir dv path) as [it|e] eqn:Hit.
  2:{ destruct (isinstance e PermissionError_); intros [= <- _]; apply shown_refl. }
  apply (for_each_step
           (fun s => exists new, s = lines ++ new
                                 /\ Forall (line_of dv hidden path prefix) new));
    [|apply shown_refl].
  intros entry s s' r' Hentry%elem_of_sorted_entries Hs.
  destruct (String.prefix "." (name entry)) eqn:Hh; [by intros [= <- _]|].
  intros Hbody. eapply (shown_step dv hidden path it entry prefix lines s s'); try done.
  - intros Hd. rewrite Hd in Hbody. by eapply IH.
  - intros Hd. rewrite Hd in Hbody. by injection Hbody as <- _.
Qed.

Lemma _tree_shows (fuel : nat) (dv : DirView) :
  forall path prefix max_depth current (lines lines' : list string) r,
    CodeNavigator._tree fuel dv path prefix max_depth current lines = Some (lines', r) ->
    exists new, lines' = lines ++ new
                /\ Forall (line_of dv left_out_by_tree path prefix) new.
Proof.
  induction fuel as [|fuel IH]; intros path prefix max_depth current lines lines' r;
    cbn [CodeNavigator._tree];
    (destruct ((current >=? max_depth) || _); [intros [= <- _]; apply shown_refl|]);
    [discriminate|].
  destruct (dv_iterdir dv path) as [it|e] eqn:Hit.
  2:{ destruct (isinstance e PermissionError_); intros [= <- _]; apply shown_refl. }
  apply (for_each_step
           (fun s => exists new, s = lines ++ new
                                 /\ Forall (line_of dv left_out_by_tree path prefix) new));
    [|apply shown_refl].
  intros entry s s' r' Hentry%elem_of_sorted_entries Hs.
  destruct (String.prefix "." (name entry) || _) eqn:Hh; [by intros [= <- _]|].
  intros Hbody.
  eapply (shown_step dv left_out_by_tree path it entry prefix lines s s'); try done.
  - intros Hd. rewrite Hd in Hbody. by eapply IH.
  - intros Hd. rewrite Hd in Hbody. by injection Hbody as <- _.
Qed.

(** X10.  Neither walker ever shows an entry whose name starts with a dot,
    nor anything below such a directory; [_tree] moreover shows nothing
    named [node_modules], [__pycache__] or [vendor], nor anything below
    them: every line appended is the line of an entry that is reached
    from the start through entries that are not left out. *)
Theorem walkers_leave_out_hidden (fuel : nat) (dv : DirView) (path : Path)
  (prefix : string) (max_depth current : Z) (lines lines' : list string)
  (r : Result unit) :
  (LocalTools._walk fuel dv path prefix max_depth current lines = Some (lines', r) ->
   exists new, lines' = lines ++ new /\ Forall (line_of dv hidden path prefix) new)
  /\ (CodeNavigator._tree fuel dv path prefix max_depth current lines = Some (lines', r) ->
      exists new, lines' = lines ++ new
                  /\ Forall (line_of dv left_out_by_tree path prefix) new).
Proof. split; [apply _walk_shows | apply _tree_shows]. Qed.

Lemma walkers_leave_out_hidden_witness :
  exists new,
    ["locked/"; "src/"; "  pkg/"; "  main.py"; "README.md"; "a.txt"] = [] ++ new
    /\ Forall (line_of (view Fixture.repo_fs) left_out_by_tree ["repo"] "") new.
Proof.
  apply (walkers_leave_out_hidden 2 (view Fixture.repo_fs) ["repo"] "" 2 0 []
           ["locked/"; "src/"; "  pkg/"; "  main.py"; "README.md"; "a.txt"] (Ok tt)).
  vm_compute. reflexivity.
Defined.

Lemma _tree_agrees (fuel : nat) (dv : DirView) :
  (forall p it e, dv_iterdir dv p = Ok it -> e ∈ it ->
                  bool_decide (name e ∈ CodeNavigator.SKIPPED) = true ->
                  hidden (name e) = true) ->
  forall path prefix max_depth current (lines : list string),
    dv_is_dir dv path = true ->
    CodeNavigator._tree fuel dv path prefix max_depth current lines
    = LocalTools._walk fuel dv path prefix max_depth current lines.
Proof.
  intros Hclean.
  induction fuel as [|fuel IH]; intros path prefix max_depth current lines Hdir;
    cbn [CodeNavigator._tree LocalTools._walk]; rewrite Hdir, orb_false_r;
    destruct (current >=? max_depth); try done.
  destruct (dv_iterdir dv path) as [it|e] eqn:Hit; [|done].
  apply for_each_ext. intros entry s Hentry%elem_of_sorted_entries.
  pose proof (Hclean path it entry Hit Hentry) as Hc. unfold hidden in Hc.
  destruct (String.prefix "." (name entry)) eqn:Hh; [done|].
  destruct (bool_decide (name entry ∈ CodeNavigator.SKIPPED)); [by discriminate Hc|].
  cbn [orb]. destruct (dv_is_dir dv entry) eqn:Hd; [|done]. by apply IH.
Qed.

(** X11.  On a directory in which nothing is named [node_modules],
    [__pycache__] or [vendor], [get_tree] gives exactly the listing that
    [list_directory] gives. *)
Theorem get_tree_agrees_with_list_directory (fuel : nat) (dv : DirView)
  (working_dir path : Path) (depth : Z)
  (Hdir : dv_is_dir dv (joinpath working_dir path) = true)
  (Hclean : forall p it e, dv_iterdir dv p = Ok it -> e ∈ it ->
                           bool_decide (name e ∈ CodeNavigator.SKIPPED) = true ->
                           hidden (name e) = true) :
  CodeNavigator.get_tree fuel dv (CodeNavigator.mkCodeNavigator working_dir) path depth
  = LocalTools.list_directory fuel dv (LocalTools.mkLocalTools working_dir) path depth.
Proof.
  unfold CodeNavigator.get_tree, LocalTools.list_directory. cbn.
  by rewrite (_tree_agrees fuel dv Hclean).
Qed.

(** What a directory of the file system lists are paths of the file
    system. *)
Lemma iterdir_keys (fs : FS) (p : Path) (it : list Path) (e : Path) :
  iterdir fs p = Ok it -> e ∈ it -> e ∈ map fst (map_to_list fs).
Proof.
  unfold iterdir, oserror.
  destruct (node fs p) as [[d|[]]|]; try discriminate.
  intros [= <-]. unfold children. by intros [_ He]%list_elem_of_filter.
Qed.

Lemma get_tree_agrees_with_list_directory_witness :
  CodeNavigator.get_tree 3 (view Fixture.clean_fs) (CodeNavigator.mkCodeNavigator ["repo"])
    [] 3
  = LocalTools.list_directory 3 (view Fixture.clean_fs) (LocalTools.mkLocalTools ["repo"])
      [] 3.
Proof.
  apply (get_tree_agrees_with_list_directory 3 (view Fixture.clean_fs) ["repo"] [] 3).
  - vm_compute. reflexivity.
  - intros p it e Hit He.
    pose proof (iterdir_keys Fixture.clean_fs p it e Hit He) as Hkey.
    clear Hit He. vm_compute in Hkey.
    repeat (apply elem_of_cons in Hkey as [-> | Hkey]; [vm_compute; intros; done|]).
    by apply elem_of_nil in Hkey.
Defined.

(** ** [code_nav.py]: numbered lines and signatures *)

Lemma enumerate_lookup {A} (l : list A) (start : Z) (k : nat) (i : Z) (x : A) :
  enumerate start l !! k = Some (i, x) -> i = start + Z.of_nat k /\ l !! k = Some x.
Proof.
  revert start k. induction l as [|y l IH]; intros start k; [done|].
  destruct k as [|k]; cbn.
  - intros [= <- <-]. split; [lia | done].
  - intros H. apply IH in H as [-> H]. split; [lia | done].
Qed.

Lemma slice_lookup {A} (l : list A) (a b : Z) (k : nat) (x : A) :
  0 <= a -> slice l a b !! k = Some x -> l !! (Z.to_nat a + k)%nat = Some x.
Proof.
  intros Ha. unfold slice, slice_index.
  destruct (a <? 0) eqn:Ea; [apply Z.ltb_lt in Ea; lia|].
  intros [H _]%lookup_take_Some. rewrite lookup_drop in H.
  destruct (decide (a <= Z.of_nat (length l))) as [Hle|Hgt].
  - by rewrite Z.min_l in H by lia.
  - apply lookup_lt_Some in H. lia.
Qed.

(** X12.  Every line that [read_file_lines] shows carries the number that
    the line has in the file, counted from 1: the lines shown are numbered
    consecutively from [max(1, start)], and the line numbered [i] is the
    [i]-th line of the file. *)
Theorem read_file_lines_numbers (fs : FS) (self : CodeNavigator.CodeNavigator)
  (path : Path) (start : Z) (end_ : option Z) (sel : list (Z * string))
  (Hsel : CodeNavigator.selected_lines fs self path start end_ = Ok sel) :
  CodeNavigator.read_file_lines fs self path start end_
  = Ok (String.concat (String LF "") (map numbered sel))
  /\ exists text,
       open_read fs (joinpath (CodeNavigator.working_dir self) path) = Ok text
       /\ forall k i line,
            sel !! k = Some (i, line) ->
            i = Z.max 1 start + Z.of_nat k
            /\ readlines text !! Z.to_nat (i - 1) = Some line.
Proof.
  split.
  - unfold CodeNavigator.read_file_lines. by rewrite Hsel.
  - revert Hsel. unfold CodeNavigator.selected_lines.
    destruct (open_read fs _) as [text|e]; [|discriminate]. cbn.
    intros [= <-]. exists text. split; [done|].
    intros k i line [-> Hk]%enumerate_lookup.
    apply slice_lookup in Hk; [|lia].
    split; [lia|]. rewrite <- Hk. f_equal. lia.
Qed.

Lemma read_file_lines_numbers_witness :
  CodeNavigator.read_file_lines Fixture.source_fs (CodeNavigator.mkCodeNavigator ["repo"])
    ["m.py"] 2 (Some 3)
  = Ok (String.concat (String LF "")
          (map numbered [(2, "def f(x):   " +:+ String LF ""); (3, "    return x" +:+ String LF "")])).
Proof.
  apply (read_file_lines_numbers Fixture.source_fs (CodeNavigator.mkCodeNavigator ["repo"])
           ["m.py"] 2 (Some 3)).
  vm_compute. reflexivity.
Defined.

Example read_file_lines_strips_the_line_ends :
  CodeNavigator.read_file_lines Fixture.source_fs (CodeNavigator.mkCodeNavigator ["repo"])
    ["m.py"] 2 (Some 3)
  = Ok ("     2|def f(x):" +:+ String LF "     3|    return x").
Proof. vm_compute. reflexivity. Qed.

Lemma append_not_empty_r (a b : string) : b <> "" -> a +:+ b <> "".
Proof. intros Hb. destruct a; [done | discriminate]. Qed.

Lemma numbered_not_empty (il : Z * string) : numbered il <> "".
Proof. unfold numbered. apply append_not_empty_r. discriminate. Qed.

Lemma concat_not_empty (sep x : string) (xs : list string) :
  x <> "" -> String.concat sep (x :: xs) <> "".
Proof.
  intros Hx. cbn. destruct xs; [done|].
  destruct x; [done | discriminate].
Qed.

(** X13.  [get_file_summary] never returns the empty string: a file
    without a signature line gives ["(no signatures found)"], and every
    line it does show is a line of the file, under its own number, whose
    text after stripping starts with one of the six keywords. *)
Theorem get_file_summary_shows_signatures (fs : FS) (self : CodeNavigator.CodeNavigator)
  (path : Path) (summary : string)
  (Hsum : CodeNavigator.get_file_summary fs self path = Ok summary) :
  summary <> ""
  /\ exists content,
       open_read fs (joinpath (CodeNavigator.working_dir self) path) = Ok content
       /\ (CodeNavigator.signature_lines content = [] ->
           summary = "(no signatures found)")
       /\ (CodeNavigator.signature_lines content <> [] ->
           summary = String.concat (String LF "")
                       (map numbered (CodeNavigator.signature_lines content)))
       /\ forall i line,
            (i, line) ∈ CodeNavigator.signature_lines content ->
            1 <= i
            /\ split_lines content !! Z.to_nat (i - 1) = Some line
            /\ exists kw, kw ∈ CodeNavigator.KEYWORDS
                          /\ String.prefix kw (strip line) = true.
Proof.
  revert Hsum. unfold CodeNavigator.get_file_summary.
  destruct (open_read fs _) as [content|e]; [|discriminate]. cbn.
  intros [= <-]. split.
  - destruct (CodeNavigator.signature_lines content) as [|il rest]; [discriminate|].
    cbn [map]. apply concat_not_empty, numbered_not_empty.
  - exists content. split; [done|]. split; [by intros ->|]. split.
    + intros Hne. by destruct (CodeNavigator.signature_lines content).
    + intros i line Hin. unfold CodeNavigator.signature_lines in Hin.
      apply list_elem_of_In, List.filter_In in Hin as [Hin Hsig].
      apply list_elem_of_In, list_elem_of_lookup in Hin as [k Hk].
      apply enumerate_lookup in Hk as [-> Hk].
      split; [lia|]. split.
      * rewrite <- Hk. f_equal. lia.
      * cbn [snd] in Hsig. unfold CodeNavigator.is_signature in Hsig.
        apply existsb_exists in Hsig as (kw & Hkw & Hp).
        exists kw. split; [by apply list_elem_of_In | done].
Qed.

Lemma get_file_summary_shows_signatures_witness :
  (exists content,
     open_read Fixture.source_fs ["repo"; "m.py"] = Ok content
     /\ CodeNavigator.signature_lines content
        = [(2, "def f(x):   "); (4, "  class A:")])
  /\ CodeNavigator.get_file_summary Fixture.source_fs
       (CodeNavigator.mkCodeNavigator ["repo"]) ["m.py"]
     = Ok ("     2|def f(x):" +:+ String LF "     4|  class A:")
  /\ "     2|def f(x):" +:+ String LF "     4|  class A:" <> "".
Proof.
  split; [eexists; split; vm_compute; reflexivity|].
  split; [vm_compute; reflexivity|].
  apply (get_file_summary_shows_signatures Fixture.source_fs
           (CodeNavigator.mkCodeNavigator ["repo"]) ["m.py"]).
  vm_compute. reflexivity.
Defined.

(** ** What the scripts add to the trace and what they raise *)

Lemma extends_refl {X} (obs : Event -> option X) (P : X -> Prop) (w : World) :
  extends obs P w w.
Proof. exists []. by rewrite app_nil_r. Qed.

Lemma extends_trans {X} (obs : Event -> option X) (P : X -> Prop) (w1 w2 w3 : World) :
  extends obs P w1 w2 -> extends obs P w2 w3 -> extends obs P w1 w3.
Proof.
  intros (n1 & H1 & F1) (n2 & H2 & F2). exists (n1 ++ n2).
  split; [by rewrite H2, H1, app_assoc | by apply Forall_app].
Qed.

Lemma extends_same {X} (obs : Event -> option X) (P : X -> Prop) (w w' : World) :
  trace w' = trace w -> extends obs P w w'.
Proof. intros Ht. exists []. by rewrite Ht, app_nil_r. Qed.

Lemma extends_snoc {X} (obs : Event -> option X) (P : X -> Prop) (w w' : World)
  (ev : Event) :
  trace w' = trace w ++ [ev] -> (forall x, obs ev = Some x -> P x) -> extends obs P w w'.
Proof.
  intros Ht Hev. unfold extends. rewrite Ht, omap_app. cbn.
  destruct (obs ev) as [x|] eqn:Hx.
  - exists [x]. split; [done|]. constructor; [by apply Hev | constructor].
  - exists []. done.
Qed.

Section Keeps.

Context {X : Type} (G : Env -> Prop) (obs : Event -> option X) (P : X -> Prop).

Lemma keeps_weaken {A} (E E' : Exc -> Prop) (m : M A) :
  (forall e, E e -> E' e) -> keeps G obs P E m -> keeps G obs P E' m.
Proof. intros HE Hm env w Hg. destruct (Hm env w Hg) as [H1 H2]. split; auto. Qed.

Lemma keeps_silent {A} (E : Exc -> Prop) (m : M A) :
  (forall env w, trace (fst (m env w)) = trace w) ->
  (forall env w e, G env -> snd (m env w) = Raise e -> E e) ->
  keeps G obs P E m.
Proof.
  intros Ht He env w Hg. split; [by apply extends_same | intros e; by apply He].
Qed.

Lemma keeps_ret {A} (E : Exc -> Prop) (a : A) : keeps G obs P E (ret a).
Proof. apply keeps_silent; [done | discriminate]. Qed.

Lemma keeps_raise {A} (E : Exc -> Prop) (e : Exc) : E e -> keeps G obs P E (raise (A := A) e).
Proof. intros He. apply keeps_silent; [done|]. by intros env w e' _ [= <-]. Qed.

Lemma keeps_lift {A} (E : Exc -> Prop) (r : Result A) :
  (forall e, r = Raise e -> E e) -> keeps G obs P E (lift r).
Proof. intros Hr. apply keeps_silent; [done|]. intros env w e _. apply Hr. Qed.

Lemma keeps_bind {A B} (E : Exc -> Prop) (m : M A) (k : A -> M B) :
  keeps G obs P E m -> (forall a, keeps G obs P E (k a)) -> keeps G obs P E (bind m k).
Proof.
  intros Hm Hk env w Hg. unfold bind. destruct (Hm env w Hg) as [H1 H2].
  destruct (m env w) as [w' [a|e]]; cbn [fst snd] in *.
  - destruct (Hk a env w' Hg) as [H3 H4]. split; [by eapply extends_trans | done].
  - split; [done|]. intros e' [= <-]. by apply H2.
Qed.

(** What the [try] block raises and the handler does not catch, and what
    the handler raises. *)
Lemma keeps_try_except {A} (Em E : Exc -> Prop) (m : M A) (C : ExcClass)
  (h : Exc -> M A) :
  keeps G obs P Em m ->
  (forall e, keeps G obs P E (h e)) ->
  (forall e, Em e -> isinstance e C = false -> E e) ->
  keeps G obs P E (try_except m C h).
Proof.
  intros Hm Hh Hpass env w Hg. unfold try_except. destruct (Hm env w Hg) as [H1 H2].
  destruct (m env w) as [w' [a|e]]; cbn [fst snd] in *.
  - split; [done | discriminate].
  - destruct (isinstance e C) eqn:Hc.
    + destruct (Hh e env w' Hg) as [H3 H4]. split; [by eapply extends_trans | done].
    + split; [done|]. intros e' [= <-]. apply Hpass; [by apply H2 | done].
Qed.

Lemma keeps_try_except2 {A} (Em E : Exc -> Prop) (m : M A) (C1 : ExcClass)
  (h1 : Exc -> M A) (C2 : ExcClass) (h2 : Exc -> M A) :
  keeps G obs P Em m ->
  (forall e, keeps G obs P E (h1 e)) ->
  (forall e, keeps G obs P E (h2 e)) ->
  (forall e, Em e -> isinstance e C1 = false -> isinstance e C2 = false -> E e) ->
  keeps G obs P E (try_except2 m C1 h1 C2 h2).
Proof.
  intros Hm Hh1 Hh2 Hpass env w Hg. unfold try_except2.
  destruct (Hm env w Hg) as [H1 H2].
  destruct (m env w) as [w' [a|e]]; cbn [fst snd] in *.
  - split; [done | discriminate].
  - destruct (isinstance e C1) eqn:Hc1.
    + destruct (Hh1 e env w' Hg) as [H3 H4]. split; [by eapply extends_trans | done].
    + destruct (isinstance e C2) eqn:Hc2.
      * destruct (Hh2 e env w' Hg) as [H3 H4]. split; [by eapply extends_trans | done].
      * split; [done|]. intros e' [= <-]. apply Hpass; [by apply H2 | done | done].
Qed.

Lemma keeps_for_M {A} (E : Exc -> Prop) (xs : list A) (body : A -> M unit) :
  (forall x, keeps G obs P E (body x)) -> keeps G obs P E (for_M xs body).
Proof.
  intros Hb. induction xs as [|x xs IH]; cbn [for_M]; [apply keeps_ret|].
  apply keeps_bind; [apply Hb | intros _; apply IH].
Qed.

Lemma keeps_emit (E : Exc -> Prop) (ev : Event) :
  (forall x, obs ev = Some x -> P x) -> keeps G obs P E (emit ev).
Proof.
  intros Hev env w _. split; [by eapply extends_snoc | discriminate].
Qed.

Lemma keeps_request (req : Request) :
  (forall rep x, obs (EHttp req rep) = Some x -> P x) ->
  keeps G obs P ordinary (request req).
Proof.
  intros Hev env w _. unfold request.
  destruct (server env w req) as [resp|msg] eqn:Es; cbn [fst snd].
  - split; [eapply extends_snoc; [done | apply Hev] | discriminate].
  - split; [eapply extends_snoc; [done | apply Hev]|]. by intros e [= <-].
Qed.

Lemma keeps_send (req : Request) :
  (forall rep x, obs (EHttp req rep) = Some x -> P x) ->
  keeps G obs P ordinary (send req).
Proof.
  intros Hev env w Hg. unfold send. destruct (http_closed w).
  - split; [apply extends_refl|]. by intros e [= <-].
  - by apply keeps_request.
Qed.

Lemma keeps_call_tool (E : Exc -> Prop) (session tool : string)
  (args : list (string * Json)) :
  (forall x, obs (EToolCall session tool args) = Some x -> P x) ->
  keeps G obs P E (SimulatePipeline.call_tool session tool args).
Proof.
  intros Hev env w _. split; [by eapply extends_snoc | discriminate].
Qed.

Lemma keeps_run_shell (self : LocalTools.LocalTools) (cmd : string) (timeout : Z) :
  (forall x, obs (EShell cmd timeout) = Some x -> P x) ->
  keeps G obs P ordinary (LocalTools.run_shell self cmd timeout).
Proof.
  intros Hev env w _. unfold LocalTools.run_shell.
  destruct (shell env w _ cmd timeout); cbn [fst snd].
  - split; [by eapply extends_snoc | discriminate].
  - split; [by eapply extends_snoc|]. by intros e [= <-].
Qed.

End Keeps.

(** *** The exceptions of the pure steps are ordinary ones *)

(** Case analysis on everything an outcome depends on. *)
Ltac ordinary_cases :=
  unfold raises_ordinary, ordinary; intros ?e ?H;
  repeat match goal with
         | H : context [match ?x with _ => _ end] |- _ => destruct x
         end;
  try discriminate;
  match goal with H : Raise _ = Raise _ |- _ => injection H as <- end;
  reflexivity.

Lemma ordinary_rbind {A B} (r : Result A) (k : A -> Result B) :
  raises_ordinary r -> (forall a, raises_ordinary (k a)) -> raises_ordinary (rbind r k).
Proof.
  intros Hr Hk e. destruct r as [a|e']; cbn; [apply Hk|]. intros [= <-]. by apply Hr.
Qed.

Lemma ordinary_Ok {A} (a : A) : raises_ordinary (Ok a).
Proof. intros e. discriminate. Qed.

Lemma ordinary_req_str d k : raises_ordinary (req_str d k).
Proof. unfold req_str, invalid. ordinary_cases. Qed.

Lemma ordinary_opt_str d k : raises_ordinary (opt_str d k).
Proof. unfold opt_str, invalid. ordinary_cases. Qed.

Lemma ordinary_req_int d k : raises_ordinary (req_int d k).
Proof. unfold req_int, invalid. ordinary_cases. Qed.

Lemma ordinary_req_enum `{StrEnum E} d k : raises_ordinary (req_enum (E := E) d k).
Proof. unfold req_enum, invalid. ordinary_cases. Qed.

Lemma ordinary_str_list d k : raises_ordinary (str_list d k).
Proof. unfold str_list, invalid. ordinary_cases. Qed.

Lemma ordinary_dict_field d k : raises_ordinary (dict_field d k).
Proof. unfold dict_field, invalid. ordinary_cases. Qed.

Lemma ordinary_kwargs j : raises_ordinary (kwargs j).
Proof. unfold kwargs. ordinary_cases. Qed.

Create HintDb ordinary.

#[local] Hint Resolve ordinary_Ok ordinary_req_str ordinary_opt_str ordinary_req_int
  ordinary_req_enum ordinary_str_list ordinary_dict_field ordinary_kwargs : ordinary.

(** Walks through the fields of a model. *)
Ltac ordinary_fields :=
  repeat (apply ordinary_rbind; [solve [auto with ordinary] | intros ?]);
  auto with ordinary.

Lemma ordinary_Task_of_json j : raises_ordinary (Task_of_json j).
Proof. unfold Task_of_json. ordinary_fields. Qed.

Lemma ordinary_Message_of_json j : raises_ordinary (Message_of_json j).
Proof. unfold Message_of_json. ordinary_fields. Qed.

Lemma ordinary_Agent_of_json j : raises_ordinary (Agent_of_json j).
Proof. unfold Agent_of_json. ordinary_fields. Qed.

Lemma ordinary_PR_of_json j : raises_ordinary (PR_of_json j).
Proof. unfold PR_of_json. ordinary_fields. Qed.

Lemma ordinary_traverse {A B} (f : A -> Result B) (l : list A) :
  (forall x, raises_ordinary (f x)) -> raises_ordinary (traverse f l).
Proof.
  intros Hf. induction l as [|x xs IH]; cbn; [apply ordinary_Ok|].
  intros e. destruct (f x) as [y|e'] eqn:Hx.
  - destruct (traverse f xs) as [ys|e''] eqn:Hxs; [discriminate|].
    intros [= <-]. by apply IH.
  - intros [= <-]. by apply (Hf x).
Qed.

Lemma ordinary_iter j : raises_ordinary (iter j).
Proof. unfold iter. ordinary_cases. Qed.

Lemma ordinary_tasks_of_json j : raises_ordinary (AgentMeshClient.tasks_of_json j).
Proof.
  apply ordinary_rbind; [apply ordinary_iter | intros items].
  apply ordinary_traverse, ordinary_Task_of_json.
Qed.

Lemma ordinary_messages_of_json j : raises_ordinary (AgentMeshClient.messages_of_json j).
Proof.
  apply ordinary_rbind; [apply ordinary_iter | intros items].
  apply ordinary_traverse, ordinary_Message_of_json.
Qed.

Lemma ordinary_raise_for_status resp : raises_ordinary (raise_for_status resp).
Proof. intros e. apply raise_for_status_Exception. Qed.

Lemma ordinary_first_thread_id j : raises_ordinary (ExampleAgent.first_thread_id j).
Proof. unfold ExampleAgent.first_thread_id. ordinary_cases. Qed.

Lemma ordinary_oserror {A} (c : ExcClass) (p : Path) :
  issubclass c OSError_ = true -> raises_ordinary (oserror (A := A) c p).
Proof.
  intros Hc e [= <-]. unfold ordinary, isinstance. cbn.
  destruct c; try discriminate; reflexivity.
Qed.

Lemma ordinary_open_read fs p : raises_ordinary (open_read fs p).
Proof.
  unfold open_read. destruct (node fs p) as [[d|l]|]; try apply ordinary_Ok;
    by apply ordinary_oserror.
Qed.

Lemma ordinary_read_file fs self path start_line end_line :
  raises_ordinary (LocalTools.read_file fs self path start_line end_line).
Proof.
  unfold LocalTools.read_file. apply ordinary_rbind; [apply ordinary_open_read|].
  intros text. apply ordinary_Ok.
Qed.

Lemma ordinary_mkdir_from (todo : list string) :
  forall fs pre, raises_ordinary (snd (mkdir_from fs pre todo)).
Proof.
  induction todo as [|n rest IH]; intros fs pre; cbn [mkdir_from]; [apply ordinary_Ok|].
  destruct (node fs (pre ++ [n])) as [[d|l]|]; [|apply IH|apply IH].
  cbn. destruct rest; by apply ordinary_oserror.
Qed.

Lemma ordinary_open_write pf fs p content :
  raises_ordinary (snd (open_write pf fs p content)).
Proof.
  unfold open_write.
  destruct (node fs p) as [[d|l]|]; destruct (node fs (parent p)) as [[d'|l']|]; cbn;
    try apply ordinary_Ok; by apply ordinary_oserror.
Qed.

Lemma ordinary_write_file pf fs self path content :
  raises_ordinary (snd (LocalTools.write_file pf fs self path content)).
Proof.
  unfold LocalTools.write_file.
  pose proof (ordinary_mkdir_from (parent (joinpath (LocalTools.working_dir self) path))
                fs []) as Hmk.
  unfold mkdir_parents.
  destruct (mkdir_from fs [] _) as [fs1 [[]|e]]; [apply ordinary_open_write|].
  exact Hmk.
Qed.

Lemma ordinary_iterdir fs p : raises_ordinary (iterdir fs p).
Proof.
  unfold iterdir. destruct (node fs p) as [[d|[]]|]; try apply ordinary_Ok;
    by apply ordinary_oserror.
Qed.

Lemma for_each_raises {A S} (Q : Exc -> Prop) (xs : list A)
  (body : A -> S -> option (S * Result unit)) :
  (forall x s s' e, body x s = Some (s', Raise e) -> Q e) ->
  forall s s' e, LocalTools.for_each xs s body = Some (s', Raise e) -> Q e.
Proof.
  intros Hbody. induction xs as [|x xs IH]; intros s s' e; cbn [LocalTools.for_each];
    [discriminate|].
  destruct (body x s) as [[s1 [[]|e1]]|] eqn:Hx; [apply IH | | discriminate].
  intros [= <- <-]. by eapply Hbody.
Qed.

(** What [_tree] raises, a listing has raised. *)
Lemma _tree_raises (fuel : nat) (dv : DirView) :
  forall path indent_ max_depth current lines lines' e,
    CodeNavigator._tree fuel dv path indent_ max_depth current lines
    = Some (lines', Raise e) ->
    exists p, dv_iterdir dv p = Raise e.
Proof.
  induction fuel as [|fuel IH]; intros path prefix max_depth current lines lines' e;
    cbn [CodeNavigator._tree];
    (destruct ((current >=? max_depth) || _); [discriminate|]); [discriminate|].
  destruct (dv_iterdir dv path) as [it|e'] eqn:Hit.
  2:{ destruct (isinstance e' PermissionError_); [discriminate|].
      intros [= _ <-]. by exists path. }
  intros Hfe.
  eapply (for_each_raises (fun e => exists p, dv_iterdir dv p = Raise e)); [|exact Hfe].
  cbv beta. intros entry s s' e0.
  destruct (String.prefix "." (name entry) || _); [discriminate|].
  destruct (dv_is_dir dv entry); [apply IH | discriminate].
Qed.

Lemma ordinary_get_tree fuel fs self path depth r :
  CodeNavigator.get_tree fuel (view fs) self path depth = Some r -> raises_ordinary r.
Proof.
  unfold CodeNavigator.get_tree.
  destruct (CodeNavigator._tree fuel (view fs) _ "" depth 0 [])
    as [[lines [[]|e]]|] eqn:Ht; [| |discriminate].
  - intros [= <-]. apply ordinary_Ok.
  - intros [= <-]. apply _tree_raises in Ht as [p Hp].
    intros e' [= <-]. by apply (ordinary_iterdir fs p).
Qed.

(** *** The steps of the scripts *)

(** The observation of an event satisfies the property. *)
Ltac keeps_event :=
  first [ done
        | cbn; intros; simplify_eq; try done;
          repeat first [apply list_elem_of_here | apply list_elem_of_further] ].

#[local] Hint Resolve ordinary_Task_of_json ordinary_Message_of_json ordinary_Agent_of_json
  ordinary_PR_of_json ordinary_tasks_of_json ordinary_messages_of_json
  ordinary_raise_for_status ordinary_first_thread_id : ordinary.

Lemma ordinary_not_interrupt (e : Exc) :
  ordinary e -> isinstance e KeyboardInterrupt_ = false.
Proof. destruct e as [[] msg]; done. Qed.

Lemma ordinary_not_exit (e : Exc) : ordinary e -> exc_class e <> SystemExit_.
Proof. destruct e as [[] msg]; done. Qed.

Section Steps.

Context {X : Type} (G : Env -> Prop) (obs : Event -> option X) (P : X -> Prop).
Context (E : Exc -> Prop) (HE : forall e, ordinary e -> E e).

Lemma keeps_lift_ordinary {A} (r : Result A) :
  raises_ordinary r -> keeps G obs P E (lift r).
Proof. intros Hr. apply keeps_lift. intros e He. by apply HE, Hr. Qed.

Lemma keeps_uuid4 : keeps G obs P E uuid4.
Proof. apply keeps_silent; [done | discriminate]. Qed.

Lemma keeps_yield : keeps G obs P E yield.
Proof. apply keeps_silent; [done | discriminate]. Qed.

Lemma keeps_get_running : keeps G obs P E get_running.
Proof. apply keeps_silent; [done | discriminate]. Qed.

Lemma keeps_send_E (req : Request) :
  (forall rep x, obs (EHttp req rep) = Some x -> P x) -> keeps G obs P E (send req).
Proof. intros Hev. eapply keeps_weaken; [exact HE | by apply keeps_send]. Qed.

Lemma keeps_request_E (req : Request) :
  (forall rep x, obs (EHttp req rep) = Some x -> P x) -> keeps G obs P E (request req).
Proof. intros Hev. eapply keeps_weaken; [exact HE | by apply keeps_request]. Qed.

Lemma keeps_run_shell_E (self : LocalTools.LocalTools) (cmd : string) (timeout : Z) :
  (forall x, obs (EShell cmd timeout) = Some x -> P x) ->
  keeps G obs P E (LocalTools.run_shell self cmd timeout).
Proof. intros Hev. eapply keeps_weaken; [exact HE | by apply keeps_run_shell]. Qed.

Lemma keeps_tools_read_file (t : LocalTools.LocalTools) (path : Path) :
  keeps G obs P E (ExampleAgent.tools_read_file t path).
Proof.
  apply keeps_silent; [done|]. intros env w e _ He. eapply HE, ordinary_read_file, He.
Qed.

Lemma keeps_tools_write_file (t : LocalTools.LocalTools) (path : Path) (content : string) :
  keeps G obs P E (ExampleAgent.tools_write_file t path content).
Proof.
  apply keeps_silent.
  - intros env w. unfold ExampleAgent.tools_write_file.
    by destruct (LocalTools.write_file _ _ _ _ _).
  - intros env w e _. unfold ExampleAgent.tools_write_file.
    pose proof (ordinary_write_file (platform env) (fs w) t path content) as Hw.
    destruct (LocalTools.write_file _ _ _ _ _) as [fs' r]. cbn [snd] in *.
    intros He. by apply HE, Hw.
Qed.

Lemma keeps_nav_get_tree (n : CodeNavigator.CodeNavigator) (path : Path) (depth : Z) :
  keeps G obs P E (ExampleAgent.nav_get_tree n path depth).
Proof.
  apply keeps_silent.
  - intros env w. unfold ExampleAgent.nav_get_tree.
    by destruct (CodeNavigator.get_tree _ _ _ _ _).
  - intros env w e _. unfold ExampleAgent.nav_get_tree.
    destruct (CodeNavigator.get_tree _ _ _ _ _) as [r|] eqn:Ht; cbn [snd].
    + intros He. eapply HE, ordinary_get_tree; [exact Ht | exact He].
    + intros [= <-]. by apply HE.
Qed.

End Steps.

(** One step of a script, chosen by the head of the computation. *)
Ltac keeps_step HE :=
  lazymatch goal with
  | |- keeps _ _ _ _ (bind _ _) => apply keeps_bind; [|intros ?]
  | |- keeps _ _ _ _ (ret _) => apply keeps_ret
  | |- keeps _ _ _ _ uuid4 => apply keeps_uuid4
  | |- keeps _ _ _ _ yield => apply keeps_yield
  | |- keeps _ _ _ _ get_running => apply keeps_get_running
  | |- keeps _ _ _ _ (emit _) => apply keeps_emit; solve [keeps_event]
  | |- keeps _ _ _ _ (log _ _) => apply keeps_emit; solve [keeps_event]
  | |- keeps _ _ _ _ (sleep _) => apply keeps_emit; solve [keeps_event]
  | |- keeps _ _ _ _ (sleep_ms _) => apply keeps_emit; solve [keeps_event]
  | |- keeps _ _ _ _ (SimulatePipeline.ok _) => apply keeps_emit; solve [keeps_event]
  | |- keeps _ _ _ _ (SimulatePipeline.fail _ _) => apply keeps_emit; solve [keeps_event]
  | |- keeps _ _ _ _ (SimulatePipeline.call_tool _ _ _) =>
      apply keeps_call_tool; solve [keeps_event]
  | |- keeps _ _ _ _ (send _) => apply (keeps_send_E _ _ _ _ HE); solve [keeps_event]
  | |- keeps _ _ _ _ (request _) => apply (keeps_request_E _ _ _ _ HE); solve [keeps_event]
  | |- keeps _ _ _ _ (LocalTools.run_shell _ _ _) =>
      apply (keeps_run_shell_E _ _ _ _ HE); solve [keeps_event]
  | |- keeps _ _ _ _ (ExampleAgent.tools_read_file _ _) =>
      apply (keeps_tools_read_file _ _ _ _ HE)
  | |- keeps _ _ _ _ (ExampleAgent.tools_write_file _ _ _) =>
      apply (keeps_tools_write_file _ _ _ _ HE)
  | |- keeps _ _ _ _ (ExampleAgent.nav_get_tree _ _ _) =>
      apply (keeps_nav_get_tree _ _ _ _ HE)
  | |- keeps _ _ _ _ (lift _) =>
      apply (keeps_lift_ordinary _ _ _ _ HE); solve [auto with ordinary | ordinary_cases]
  | |- keeps _ _ _ ?E (try_except _ _ _) =>
      apply (keeps_try_except _ _ _ E E); [ | intros ? | done ]
  | |- keeps _ _ _ _ (if ?b then _ else _) => destruct b
  | |- keeps _ _ _ _ (match ?x with _ => _ end) => destruct x
  end.

Ltac keeps_steps HE := repeat keeps_step HE.

(** *** agent_sdk/base.py: the heartbeat thread *)

Lemma _heartbeat_loop_keeps_requests (fuel : nat) (self : BaseAgent) :
  keeps (fun _ => True) http_request (eq (heartbeat_request (agent_id self)))
    (fun _ => False) (_heartbeat_loop fuel self).
Proof.
  induction fuel as [|fuel IH]; cbn [_heartbeat_loop]; [apply keeps_ret|].
  apply keeps_bind; [apply keeps_yield; done | intros _].
  apply keeps_bind; [apply keeps_get_running; done | intros r].
  destruct r; [|apply keeps_ret].
  apply keeps_bind; [apply keeps_yield; done | intros _].
  apply keeps_bind; [|intros _].
  { apply (keeps_try_except _ _ _ ordinary).
    - assert (HE : forall e, ordinary e -> ordinary e) by done.
      unfold AgentMeshClient.heartbeat. keeps_steps HE.
    - intros e. apply keeps_emit. keeps_event.
    - intros e He Hc. unfold ordinary in He. congruence. }
  apply keeps_bind; [apply keeps_emit; keeps_event | intros _]. apply IH.
Qed.

Lemma _heartbeat_loop_keeps_sleeps (fuel : nat) (self : BaseAgent) :
  keeps (fun _ => True) slept (eq (1000 * _heartbeat_interval self))
    (fun _ => False) (_heartbeat_loop fuel self).
Proof.
  induction fuel as [|fuel IH]; cbn [_heartbeat_loop]; [apply keeps_ret|].
  apply keeps_bind; [apply keeps_yield; done | intros _].
  apply keeps_bind; [apply keeps_get_running; done | intros r].
  destruct r; [|apply keeps_ret].
  apply keeps_bind; [apply keeps_yield; done | intros _].
  apply keeps_bind; [|intros _].
  { apply (keeps_try_except _ _ _ ordinary).
    - assert (HE : forall e, ordinary e -> ordinary e) by done.
      unfold AgentMeshClient.heartbeat. keeps_steps HE.
    - intros e. apply keeps_emit. keeps_event.
    - intros e He Hc. unfold ordinary in He. congruence. }
  apply keeps_bind; [apply keeps_emit; keeps_event | intros _]. apply IH.
Qed.

(** X14.  The heartbeat thread sends nothing but the heartbeat of its own
    agent, [POST /api/agents/{agent_id}/heartbeat] without a body, and each
    of its sleeps lasts [_heartbeat_interval] seconds, whatever the server
    and the other threads do and however long it runs. *)
Theorem heartbeat_loop_only_beats (fuel : nat) (self : BaseAgent) (env : Env) (w : World) :
  let w' := fst (_heartbeat_loop fuel self env w) in
  (exists requests,
      sent w' = sent w ++ requests
      /\ Forall (eq (heartbeat_request (agent_id self))) requests)
  /\ (exists pauses,
         omap slept (trace w') = omap slept (trace w) ++ pauses
         /\ Forall (eq (1000 * _heartbeat_interval self)) pauses).
Proof.
  split.
  - apply (_heartbeat_loop_keeps_requests fuel self env w I).
  - apply (_heartbeat_loop_keeps_sleeps fuel self env w I).
Qed.

(** *** agents/example/agent.py: the polling loop *)

Lemma post_update_keeps (self : BaseAgent) (thread_id : UUID) (content : string)
  (post_type : PostType) :
  value post_type ∈ agent_post_types ->
  keeps (fun _ => True) posted_type (fun t => t ∈ agent_post_types) ordinary
    (post_update self thread_id content post_type).
Proof.
  intros Hin.
  assert (HE : forall e, ordinary e -> ordinary e) by done.
  unfold post_update, AgentMeshClient.post_message.
  apply keeps_bind; [apply keeps_uuid4 | intros key].
  apply keeps_bind; [|intros resp; keeps_steps HE].
  apply keeps_send. intros rep x. cbn. by intros [= <-].
Qed.

Lemma _work_on_task_keeps_post_types (self : ExampleAgent.ExampleAgent) (task : Task) :
  keeps (fun _ => True) posted_type (fun t => t ∈ agent_post_types) ordinary
    (ExampleAgent._work_on_task self task).
Proof.
  assert (HE : forall e, ordinary e -> ordinary e) by done.
  unfold ExampleAgent._work_on_task, LocalTools.git_branch, LocalTools.git_commit,
    LocalTools.git_push, AgentMeshClient.open_pr, AgentMeshClient.update_task_status.
  cbv zeta.
  repeat first [ apply post_update_keeps; solve [keeps_event] | keeps_step HE ].
Qed.

Lemma poll_keeps_post_types (self : ExampleAgent.ExampleAgent) :
  keeps (fun _ => True) posted_type (fun t => t ∈ agent_post_types) ordinary
    (ExampleAgent.poll self).
Proof.
  assert (HE : forall e, ordinary e -> ordinary e) by done.
  unfold ExampleAgent.poll, AgentMeshClient.list_tasks. cbv zeta.
  apply keeps_bind; [keeps_steps HE | intros tasks].
  destruct (List.filter _ tasks) as [|t my_tasks]; [keeps_steps HE|].
  apply keeps_bind; [|intros _; apply keeps_ret].
  apply keeps_for_M. intros t'. apply _work_on_task_keeps_post_types.
Qed.

Lemma iteration_keeps_post_types (self : ExampleAgent.ExampleAgent) :
  keeps (fun _ => True) posted_type (fun t => t ∈ agent_post_types) (fun _ => False)
    (ExampleAgent.iteration self).
Proof.
  unfold ExampleAgent.iteration. apply (keeps_try_except2 _ _ _ ordinary).
  - apply poll_keeps_post_types.
  - intros e. apply keeps_ret.
  - intros e. apply keeps_bind; [apply keeps_emit; keeps_event | intros _].
    apply keeps_bind; [apply keeps_emit; keeps_event | intros _]. apply keeps_ret.
  - intros e He _ Hc. unfold ordinary in He. congruence.
Qed.

Lemma run_keeps_post_types (fuel : nat) (self : ExampleAgent.ExampleAgent) :
  keeps (fun _ => True) posted_type (fun t => t ∈ agent_post_types) (fun _ => False)
    (ExampleAgent.run fuel self).
Proof.
  unfold ExampleAgent.run. apply keeps_bind; [apply keeps_emit; keeps_event | intros _].
  induction fuel as [|fuel IH]; cbn [ExampleAgent.run_loop]; [apply keeps_ret|].
  apply keeps_bind; [apply keeps_get_running; done | intros r].
  destruct r; [|apply keeps_ret].
  apply keeps_bind; [apply iteration_keeps_post_types | intros go].
  destruct go; [apply IH | apply keeps_ret].
Qed.

(** An iteration goes on: the handler of [KeyboardInterrupt] is the only
    one that breaks out of the loop, and what the body raises is ordinary. *)
Lemma iteration_goes_on (self : ExampleAgent.ExampleAgent) (env : Env) (w : World) :
  snd (ExampleAgent.iteration self env w) = Ok true.
Proof.
  unfold ExampleAgent.iteration, try_except2.
  destruct (poll_keeps_post_types self env w I) as [_ Hr].
  assert (Hp : forall b, snd (ExampleAgent.poll self env w) = Ok b -> b = true).
  { intros b. unfold ExampleAgent.poll, bind.
    destruct (AgentMeshClient.list_tasks _ _ _ env w) as [w1 [tasks|e]]; [|discriminate].
    destruct (List.filter _ tasks) as [|t my_tasks].
    - cbn. congruence.
    - destruct (for_M _ _ env w1) as [w2 [[]|e]]; cbn; [congruence | discriminate]. }
  destruct (ExampleAgent.poll self env w) as [w1 [b|e]]; cbn [snd] in *.
  - f_equal. by apply Hp.
  - rewrite (ordinary_not_interrupt e) by by apply Hr.
    rewrite (Hr e eq_refl). reflexivity.
Qed.

(** X15.  Whatever the server, the shell and the file system do, every
    message that the example agent posts while it runs has one of the post
    types progress, blocker and artifact. *)
Theorem example_agent_post_types (fuel : nat) (self : ExampleAgent.ExampleAgent)
  (env : Env) (w : World) :
  exists posts,
    posted_types (fst (ExampleAgent.run fuel self env w)) = posted_types w ++ posts
    /\ Forall (fun t => t ∈ agent_post_types) posts.
Proof. apply (run_keeps_post_types fuel self env w I). Qed.

(** X16.  No exception escapes the loop of the example agent: whatever the
    server, the shell and the file system do, [run] does not raise (every
    exception of an iteration is an ordinary one, which the loop catches,
    logs and sleeps on), and when it returns [_running] is false.  A
    keyboard interrupt, which would break out of the loop, does not arise
    from the steps of the loop themselves. *)
Theorem example_agent_run_never_raises (fuel : nat) (self : ExampleAgent.ExampleAgent)
  (env : Env) (w : World) :
  exists r,
    snd (ExampleAgent.run fuel self env w) = Ok r
    /\ (r = Some tt -> running (fst (ExampleAgent.run fuel self env w)) = false).
Proof.
  unfold ExampleAgent.run, bind, log, emit. cbn [fst snd].
  set (w1 := mkWorld _ _ _ _ _). clearbody w1. revert w1.
  induction fuel as [|fuel IH]; intros w1; cbn [ExampleAgent.run_loop].
  - exists None. split; [done | discriminate].
  - unfold bind, get_running. destruct (running w1) eqn:Hrun.
    + pose proof (iteration_goes_on self env w1) as Hgo.
      destruct (ExampleAgent.iteration self env w1) as [w2 r]. cbn [snd] in Hgo.
      subst r. apply IH.
    + exists (Some tt). by split.
Qed.

(** *** agents/example/simulate_pipeline.py *)

Lemma ordinary_assigned j : raises_ordinary (SimulatePipeline.assigned j).
Proof. unfold SimulatePipeline.assigned. ordinary_cases. Qed.

Lemma ordinary_same_coder_assigned j c :
  raises_ordinary (SimulatePipeline.same_coder_assigned j c).
Proof.
  unfold SimulatePipeline.same_coder_assigned.
  apply ordinary_rbind; [apply ordinary_assigned | intros a; apply ordinary_Ok].
Qed.

Lemma ordinary_is_feedback m : raises_ordinary (SimulatePipeline.is_feedback m).
Proof. unfold SimulatePipeline.is_feedback. ordinary_cases. Qed.

Lemma ordinary_feedback_messages j : raises_ordinary (SimulatePipeline.feedback_messages j).
Proof.
  apply ordinary_rbind; [apply ordinary_iter | intros items].
  apply ordinary_rbind; [|intros l; apply ordinary_Ok].
  apply ordinary_traverse, ordinary_is_feedback.
Qed.

Lemma ordinary_pr_url_of j : raises_ordinary (SimulatePipeline.pr_url_of j).
Proof. unfold SimulatePipeline.pr_url_of. ordinary_cases. Qed.

Lemma ordinary_status_of j : raises_ordinary (SimulatePipeline.status_of j).
Proof. unfold SimulatePipeline.status_of. ordinary_cases. Qed.

Lemma ordinary_first_id j : raises_ordinary (SimulatePipeline.first_id j).
Proof. unfold SimulatePipeline.first_id. ordinary_cases. Qed.

Lemma ordinary_len j : raises_ordinary (SimulatePipeline.len j).
Proof. unfold SimulatePipeline.len. ordinary_cases. Qed.

Lemma ordinary_agent_id_of env text : raises_ordinary (SimulatePipeline.agent_id_of env text).
Proof. unfold SimulatePipeline.agent_id_of. ordinary_cases. Qed.

#[local] Hint Resolve ordinary_assigned ordinary_same_coder_assigned
  ordinary_feedback_messages ordinary_pr_url_of ordinary_status_of ordinary_first_id
  ordinary_len : ordinary.

Section Simulation.

Import SimulatePipeline.

Context (BASE PROJECT_ID : string).
Context (G : Env -> Prop) (E : Exc -> Prop).
Context (HE : forall e, ordinary e -> E e).
Context (HJ : forall env text e, G env -> json_loads env text = Raise e -> E e).

Lemma keeps_json_loads {X} (obs : Event -> option X) (P : X -> Prop) (text : string) :
  keeps G obs P E (fun env w => (w, json_loads env text)).
Proof. apply keeps_silent; [done|]. intros env w e Hg He. by eapply HJ. Qed.

Lemma keeps_agent_id_of {X} (obs : Event -> option X) (P : X -> Prop) (text : string) :
  keeps G obs P E (fun env w => (w, agent_id_of env text)).
Proof.
  apply keeps_silent; [done|]. intros env w e _ He. eapply HE, ordinary_agent_id_of, He.
Qed.

Ltac sim_step :=
  lazymatch goal with
  | |- keeps _ _ _ _ (fun env w => (w, json_loads env _)) => apply keeps_json_loads
  | |- keeps _ _ _ _ (fun env w => (w, agent_id_of env _)) => apply keeps_agent_id_of
  | |- keeps _ _ _ _ (make_agent _ _) => unfold make_agent
  | |- keeps _ _ _ _ (create_task _ _ _) => unfold create_task
  | |- keeps _ _ _ _ (get_task_status _ _) => unfold get_task_status
  | |- _ => keeps_step HE
  end.

Ltac sim_keeps := unfold status_patch, artifact_message, status_args; repeat sim_step.

Lemma scenario_happy_path_keeps :
  keeps G requested_edge (fun e => e ∈ simulated_edges) E
    (scenario_happy_path BASE PROJECT_ID)
  /\ keeps G posted_type (fun t => t ∈ simulated_post_types) E
       (scenario_happy_path BASE PROJECT_ID).
Proof. split; unfold scenario_happy_path; sim_keeps. Qed.

Lemma scenario_ownership_lock_keeps :
  keeps G requested_edge (fun e => e ∈ simulated_edges) E
    (scenario_ownership_lock BASE PROJECT_ID)
  /\ keeps G posted_type (fun t => t ∈ simulated_post_types) E
       (scenario_ownership_lock BASE PROJECT_ID).
Proof. split; unfold scenario_ownership_lock; sim_keeps. Qed.

Lemma scenario_main_updated_keeps :
  keeps G requested_edge (fun e => e ∈ simulated_edges) E
    (scenario_main_updated BASE PROJECT_ID)
  /\ keeps G posted_type (fun t => t ∈ simulated_post_types) E
       (scenario_main_updated BASE PROJECT_ID).
Proof. split; unfold scenario_main_updated; sim_keeps. Qed.

End Simulation.

Lemma keeps_emit_of_world {X} (G : Env -> Prop) (obs : Event -> option X) (P : X -> Prop)
  (E : Exc -> Prop) (f : World -> Event) :
  (forall w x, obs (f w) = Some x -> P x) ->
  keeps G obs P E (fun env w => emit (f w) env w).
Proof.
  intros Hev env w _. split; [eapply extends_snoc; [done | apply Hev] | discriminate].
Qed.

(** One step of [main], where every exception is allowed. *)
Ltac main_step HE HJ :=
  lazymatch goal with
  | |- keeps _ requested_edge _ _ (SimulatePipeline.scenario_happy_path _ _) =>
      apply (proj1 (scenario_happy_path_keeps _ _ _ _ HE HJ))
  | |- keeps _ posted_type _ _ (SimulatePipeline.scenario_happy_path _ _) =>
      apply (proj2 (scenario_happy_path_keeps _ _ _ _ HE HJ))
  | |- keeps _ requested_edge _ _ (SimulatePipeline.scenario_ownership_lock _ _) =>
      apply (proj1 (scenario_ownership_lock_keeps _ _ _ _ HE HJ))
  | |- keeps _ posted_type _ _ (SimulatePipeline.scenario_ownership_lock _ _) =>
      apply (proj2 (scenario_ownership_lock_keeps _ _ _ _ HE HJ))
  | |- keeps _ requested_edge _ _ (SimulatePipeline.scenario_main_updated _ _) =>
      apply (proj1 (scenario_main_updated_keeps _ _ _ _ HE))
  | |- keeps _ posted_type _ _ (SimulatePipeline.scenario_main_updated _ _) =>
      apply (proj2 (scenario_main_updated_keeps _ _ _ _ HE))
  | |- keeps _ _ _ _ (SimulatePipeline.sys_exit _) => apply keeps_raise; done
  | |- keeps _ _ _ _ (fun env w => emit _ env w) =>
      apply keeps_emit_of_world; solve [keeps_event]
  | |- keeps _ _ _ _ (fun env w => SimulatePipeline.sys_exit _ env w) =>
      apply keeps_silent; done
  | |- _ => keeps_step HE
  end.

Lemma main_keeps (BASE PROJECT_ID : string) :
  keeps (fun _ => True) requested_edge (fun e => e ∈ simulated_edges) (fun _ => True)
    (SimulatePipeline.main BASE PROJECT_ID)
  /\ keeps (fun _ => True) posted_type (fun t => t ∈ simulated_post_types) (fun _ => True)
       (SimulatePipeline.main BASE PROJECT_ID).
Proof.
  assert (HE : forall e, ordinary e -> True) by done.
  assert (HJ : forall (env : Env) (text : string) (e : Exc),
             True -> json_loads env text = Raise e -> True) by done.
  split; unfold SimulatePipeline.main; repeat main_step HE HJ.
Qed.

(** X17.  Whatever the server and the tools answer, the status changes that
    the simulation requests, over REST or through the [update_task_status]
    tool, are among backlog to ready, ready to in_progress, in_progress to
    in_qa, in_qa to in_review, in_qa to in_progress and in_review to merged,
    and the messages it posts have the post types artifact and
    review_feedback only. *)
Theorem simulation_edges_and_post_types (BASE PROJECT_ID : string) (env : Env) (w : World) :
  let w' := fst (SimulatePipeline.main BASE PROJECT_ID env w) in
  (exists edges,
      requested_edges w' = requested_edges w ++ edges
      /\ Forall (fun e => e ∈ simulated_edges) edges)
  /\ (exists posts,
         posted_types w' = posted_types w ++ posts
         /\ Forall (fun t => t ∈ simulated_post_types) posts).
Proof.
  split.
  - apply (proj1 (main_keeps BASE PROJECT_ID) env w I).
  - apply (proj2 (main_keeps BASE PROJECT_ID) env w I).
Qed.

Lemma bind_outcome {A B} (Q : World * Result B -> Prop) (m : M A) (k : A -> M B)
  (env : Env) (w : World) :
  (forall w1 e, m env w = (w1, Raise e) -> Q (w1, Raise e)) ->
  (forall w1 a, m env w = (w1, Ok a) -> Q (k a env w1)) ->
  Q (bind m k env w).
Proof. intros H1 H2. unfold bind. destruct (m env w) as [w1 [a|e]]; auto. Qed.

Lemma exits_0_not_1 (e : Exc) : exits 0 e -> exits 1 e -> False.
Proof. unfold exits. intros -> H. vm_compute in H. discriminate. Qed.

Lemma exits_not_ordinary (code : Z) (e : Exc) : exits code e -> ordinary e -> False.
Proof. unfold exits. intros -> H. discriminate. Qed.

(** With a project, [main] ends as counted. *)
Lemma main_ends_as_counted (BASE PROJECT_ID : string) (env : Env) (w : World) :
  json_ordinary env -> String.eqb PROJECT_ID "" = false ->
  ends_as_counted (SimulatePipeline.main BASE PROJECT_ID env w).
Proof.
  intros Hj Hp. unfold SimulatePipeline.main. rewrite Hp.
  assert (HE : forall e, ordinary e -> ordinary e) by done.
  assert (HJ : forall (env : Env) (text : string) (e : Exc),
             json_ordinary env -> json_loads env text = Raise e -> ordinary e).
  { intros env' text e Hj' He. by eapply Hj'. }
  assert (Hscenario : forall (m : M unit) w0 w1 e,
             keeps json_ordinary requested_edge (fun e => e ∈ simulated_edges) ordinary m ->
             m env w0 = (w1, Raise e) -> ends_as_counted (w1, Raise e)).
  { intros m w0 w1 e Hm Hr. exists e. split; [done|]. left.
    destruct (Hm env w0 Hj) as [_ Hraise]. apply Hraise. by rewrite Hr. }
  apply bind_outcome; [intros w1 e; discriminate | intros w1 _ _].
  apply bind_outcome; [intros w2 e; discriminate | intros w2 _ _].
  apply bind_outcome; [|intros w3 _ _].
  { intros w3 e Hr.
    exact (Hscenario _ _ _ _ (proj1 (scenario_happy_path_keeps _ _ _ _ HE HJ)) Hr). }
  apply bind_outcome; [|intros w4 _ _].
  { intros w4 e Hr.
    exact (Hscenario _ _ _ _ (proj1 (scenario_ownership_lock_keeps _ _ _ _ HE HJ)) Hr). }
  apply bind_outcome; [|intros w5 _ _].
  { intros w5 e Hr.
    exact (Hscenario _ _ _ _ (proj1 (scenario_main_updated_keeps _ _ _ _ HE)) Hr). }
  apply bind_outcome; [intros w6 e; discriminate | intros w6 _ _].
  apply bind_outcome; [intros w7 e; discriminate | intros w7 _ _].
  apply bind_outcome; [intros w8 e; discriminate | intros w8 _ _].
  apply bind_outcome; [intros w9 e; discriminate | intros w9 _ _].
  unfold ends_as_counted, SimulatePipeline.sys_exit, raise. cbn [fst snd].
  eexists. split; [reflexivity|]. right.
  destruct (SimulatePipeline.FAIL_COUNT w9 =? 0)%nat eqn:Hc.
  - left. split; [reflexivity | by apply Nat.eqb_eq].
  - right. split; [reflexivity | by apply Nat.eqb_neq].
Qed.

Lemma json_ordinary_stub (srv : World -> Request -> Reply) :
  json_ordinary (Fixture.env_with srv).
Proof.
  intros text e. cbn. unfold Fixture.json_loads_stub.
  repeat case_match; try discriminate. by intros [= <-].
Qed.

(** X18.  When [json.loads] raises ordinary exceptions only, [main] never
    returns normally: it ends with an ordinary exception of one of its
    steps, with exit code 0 or with exit code 1.  Without a project id it
    exits with code 1 and has sent no request and called no tool; it exits
    with code 0 only if there is a project id and no check has failed, and
    with code 1 only if there is no project id or some check has failed. *)
Theorem main_exit_code (BASE PROJECT_ID : string) (env : Env) (w : World) :
  json_ordinary env ->
  let out := SimulatePipeline.main BASE PROJECT_ID env w in
  exists e,
    snd out = Raise e
    /\ (ordinary e \/ exits 0 e \/ exits 1 e)
    /\ (PROJECT_ID = "" ->
        exits 1 e
        /\ sent (fst out) = sent w
        /\ omap tool_called (trace (fst out)) = omap tool_called (trace w))
    /\ (exits 0 e -> PROJECT_ID <> "" /\ SimulatePipeline.FAIL_COUNT (fst out) = 0%nat)
    /\ (exits 1 e -> PROJECT_ID = "" \/ SimulatePipeline.FAIL_COUNT (fst out) <> 0%nat).
Proof.
  intros Hj out. destruct (String.eqb PROJECT_ID "") eqn:Hp.
  - apply String.eqb_eq in Hp. subst PROJECT_ID out.
    exists (mkExc SystemExit_ (pretty 1)). split; [reflexivity|].
    split; [right; right; reflexivity|].
    split; [intros _; split; [reflexivity|]|].
    { unfold sent. cbn. rewrite !omap_app. cbn. by rewrite !app_nil_r. }
    split; [intros H0; destruct (exits_0_not_1 _ H0 eq_refl) | by left].
  - apply String.eqb_neq in Hp as Hne.
    destruct (main_ends_as_counted BASE PROJECT_ID env w Hj Hp) as (e & He & Hcase).
    exists e. split; [exact He|]. fold out in Hcase.
    split; [tauto|]. split; [done|]. split.
    + intros H0. split; [done|].
      destruct Hcase as [Ho | [[_ Hc] | [H1 _]]];
        [destruct (exits_not_ordinary _ _ H0 Ho) | done | destruct (exits_0_not_1 _ H0 H1)].
    + intros H1. right.
      destruct Hcase as [Ho | [[H0 _] | [_ Hc]]];
        [destruct (exits_not_ordinary _ _ H1 Ho) | destruct (exits_0_not_1 _ H0 H1) | done].
Qed.

Lemma main_exit_code_witness :
  json_ordinary Fixture.env_ok
  /\ exists e,
       snd (SimulatePipeline.main "http://localhost:8080" "proj-1" Fixture.env_ok Fixture.w0)
       = Raise e.
Proof.
  split; [apply json_ordinary_stub|].
  destruct (main_exit_code "http://localhost:8080" "proj-1" Fixture.env_ok Fixture.w0
              (json_ordinary_stub _)) as (e & He & _).
  by exists e.
Defined.
